(** * resilient-fetch-client: a shallow embedding and its verified properties

    The development follows the TypeScript sources:
    - [SimpleClient.ts]      default-header merge ([_mergeHeaders]);
    - [ResilientClient.ts]   the retry callback with its [Retry-After] handling;
    - [cache.ts]             the cache-provider registry;
    - [cache/MemoryCache.ts] the in-memory FIFO cache;
    - [cache/CachingClient.ts] cache-control parsing, freshness evaluation,
      write-through and the three caching strategies of [fetchJson].

    Conventions.  JavaScript strings are sequences of code units; Rocq's
    [string] covers the code units 0..255, which is the alphabet of header
    names and values (ByteStrings).  JavaScript numbers that hold integers
    (milliseconds, seconds, status codes) are [Z]; they are exact in the
    code below 2^53.  Promises are modelled by their settlement: a call
    that the code awaits takes its outcome as an input of the model. *)

From Stdlib Require Import ZArith Lia QArith Qround Ascii.
From stdpp Require Import base strings pretty gmap list sorting.

Local Open Scope Z_scope.
Set Warnings "-register-all".

(** ** JavaScript strings *)

Module JsString.

Definition code (c : ascii) : N := Ascii.N_of_ascii c.

Definition in_range (lo hi : N) (c : ascii) : bool :=
  ((lo <=? code c) && (code c <=? hi))%N.

Definition is_upper (c : ascii) : bool := in_range 65 90 c.
Definition is_lower (c : ascii) : bool := in_range 97 122 c.
Definition is_digit (c : ascii) : bool := in_range 48 57 c.
Definition is_letter (c : ascii) : bool := is_upper c || is_lower c.

(** [String.prototype.toLowerCase] on the code units 0..255: the ASCII
    capitals and the Latin-1 capitals U+00C0..U+00DE (without the
    multiplication sign U+00D7) move up by 32. *)
Definition lower_char (c : ascii) : ascii :=
  if is_upper c || (in_range 192 222 c && negb (code c =? 215)%N)
  then Ascii.ascii_of_N (code c + 32) else c.

Fixpoint toLowerCase (s : string) : string :=
  match s with
  | EmptyString => EmptyString
  | String c s' => String (lower_char c) (toLowerCase s')
  end.

(** [toUpperCase] restricted to the ASCII letters (method names). *)
Definition upper_char (c : ascii) : ascii :=
  if is_lower c then Ascii.ascii_of_N (code c - 32) else c.

Fixpoint toUpperCase (s : string) : string :=
  match s with
  | EmptyString => EmptyString
  | String c s' => String (upper_char c) (toUpperCase s')
  end.

(** White space and line terminators of ECMAScript below U+0100:
    TAB, LF, VT, FF, CR, SP and NBSP. *)
Definition js_space (c : ascii) : bool :=
  in_range 9 13 c || (code c =? 32)%N || (code c =? 160)%N.

(** HTTP whitespace of the Fetch standard: TAB, LF, CR, SP. *)
Definition http_space (c : ascii) : bool :=
  (code c =? 9)%N || (code c =? 10)%N || (code c =? 13)%N || (code c =? 32)%N.

Fixpoint trim_start (p : ascii -> bool) (s : string) : string :=
  match s with
  | EmptyString => EmptyString
  | String c s' => if p c then trim_start p s' else s
  end.

Fixpoint trim_end (p : ascii -> bool) (s : string) : string :=
  match s with
  | EmptyString => EmptyString
  | String c s' =>
      match trim_end p s' with
      | EmptyString => if p c then EmptyString else String c EmptyString
      | t => String c t
      end
  end.

Definition strip (p : ascii -> bool) (s : string) : string :=
  trim_end p (trim_start p s).

(** [String.prototype.trim]. *)
Definition trim (s : string) : string := strip js_space s.

(** [s.split(sep)] for a one-character separator; never empty:
    [("").split(",")] is [[""]]. *)
Fixpoint split (sep : ascii) (s : string) : list string :=
  match s with
  | EmptyString => [EmptyString]
  | String c s' =>
      if Ascii.eqb c sep then EmptyString :: split sep s'
      else match split sep s' with
           | [] => [String c EmptyString]
           | x :: xs => String c x :: xs
           end
  end.


Definition comma : ascii := ","%char.

(** Truthiness of a string: every string but the empty one. *)
Definition truthy (s : string) : bool := negb (String.eqb s "").

End JsString.

(** ** The [Headers] class of the Fetch standard

    A header list is keyed by the lower-cased name (names are
    case-insensitive); every name holds its values in the order in which
    they were appended.  This is all a program can observe through [get],
    [has] and iteration.  Validation of names and values (a [TypeError] on
    a malformed one) is not modelled. *)

Module Headers.

Abbreviation t := (gmap string (list string)).

(** The key of a header name: names are ASCII tokens, on which
    [toLowerCase] is the byte-lowercasing of the Fetch standard. *)
Definition key (name : string) : string := JsString.toLowerCase name.

(** Values are normalized on entry: leading and trailing HTTP whitespace
    is removed. *)
Definition normalize (value : string) : string :=
  JsString.strip JsString.http_space value.

Definition combine (values : list string) : string :=
  String.concat ", " values.

Definition get (h : t) (name : string) : option string :=
  match h !! key name with
  | Some (v :: vs) => Some (combine (v :: vs))
  | _ => None
  end.

Definition has (h : t) (name : string) : bool :=
  match h !! key name with
  | Some (_ :: _) => true
  | _ => false
  end.

Definition append (h : t) (name value : string) : t :=
  <[key name := default [] (h !! key name) ++ [normalize value]]> h.

Definition delete (h : t) (name : string) : t :=
  base.delete (key name) h.

Definition empty : t := ∅.

(** [new Headers(init)] for an array of pairs or a record. *)
Definition of_pairs (init : list (string * string)) : t :=
  foldl (fun h kv => append h kv.1 kv.2) empty init.

Definition name_le (x y : string * list string) : Prop :=
  Is_true (String.leb x.1 y.1).

#[local] Instance name_le_dec x y : Decision (name_le x y).
Proof. unfold name_le. apply _. Defined.

(** Iteration ([forEach], [entries]): names in ascending order, the
    values of a name combined; [set-cookie] values are listed one by
    one. *)
Definition entries (h : t) : list (string * string) :=
  flat_map
    (fun kv : string * list string =>
       let (name, values) := kv in
       if String.eqb name "set-cookie"
       then map (fun v => (name, v)) values
       else match values with
            | [] => []
            | _ => [(name, combine values)]
            end)
    (merge_sort name_le (map_to_list h)).

End Headers.

(** What [HeadersInit] admits: a [Headers] instance, or pairs (an array of
    pairs, or the entries of a record). *)
Inductive HeadersInit :=
| InitHeaders (h : Headers.t)
| InitPairs (pairs : list (string * string)).

Definition new_Headers (init : HeadersInit) : Headers.t :=
  match init with
  | InitHeaders h => h
  | InitPairs pairs => Headers.of_pairs pairs
  end.

(** ** SimpleClient.ts: the default-header merge *)

Module SimpleFetchClient.

(** [value === undefined || value === "undefined" || value === ""]: the
    callback of [forEach] receives strings, so the last two tests decide. *)
Definition is_placeholder (value : string) : bool :=
  String.eqb value "undefined" || String.eqb value "".

(** [existing.split(",").find(entry =>
       entry.trim().toLowerCase() === value.toLowerCase()) !== undefined] *)
Definition listed (existing value : string) : bool :=
  existsb
    (fun entry =>
       String.eqb (JsString.toLowerCase (JsString.trim entry))
                  (JsString.toLowerCase value))
    (JsString.split JsString.comma existing).

(** The callback that [_mergeHeaders] passes to [newHeaders.forEach]. *)
Definition merge_entry (result : Headers.t) (entry : string * string)
  : Headers.t :=
  let (key, value) := entry in
  if is_placeholder value then Headers.delete result key
  else
    match Headers.get result key with
    | Some existing =>
        if JsString.truthy existing && listed existing value then result
        else Headers.append result key value
    | None => Headers.append result key value
    end.

(** The body of [for (const update of updates)]. *)
Definition merge_update (result : Headers.t) (update : HeadersInit)
  : Headers.t :=
  foldl merge_entry result (Headers.entries (new_Headers update)).

Definition _mergeHeaders (source : option HeadersInit)
  (updates : list HeadersInit) : option HeadersInit :=
  match updates with
  | [] => source
  | _ :: _ =>
      Some (InitHeaders
              (foldl merge_update
                 (from_option new_Headers Headers.empty source) updates))
  end.

(** [_hasHeader]: a [Headers] instance is asked with [has]; pairs and
    records are searched for the very name. *)
Definition _hasHeader (key : string) (header : option HeadersInit) : bool :=
  match header with
  | None => false
  | Some (InitHeaders h) => Headers.has h key
  | Some (InitPairs pairs) =>
      existsb (fun kv : string * string => String.eqb kv.1 key) pairs
  end.

(** [_applyHeader]; on pairs the header is pushed. *)
Definition _applyHeader (key value : string) (header : HeadersInit)
  (copy : bool) : HeadersInit :=
  match copy, header with
  | true, _ => InitHeaders (Headers.append (new_Headers header) key value)
  | false, InitHeaders h => InitHeaders (Headers.append h key value)
  | false, InitPairs pairs => InitPairs (pairs ++ [(key, value)])
  end.

(** [_acceptHeaderSpecified]; [method] is
    [(init?.method || input.method || "GET").toUpperCase()]. *)
Definition _acceptHeaderSpecified (inputHeaders initHeaders : option HeadersInit)
  (method : string) (defaultHeaders : option HeadersInit)
  (defaultHeadersByMethod : option (list (string * HeadersInit))) : bool :=
  if _hasHeader "Accept" initHeaders || _hasHeader "Accept" inputHeaders
     || _hasHeader "Accept" defaultHeaders
  then true
  else
    match defaultHeadersByMethod with
    | None => false
    | Some byMethod =>
        _hasHeader "Accept"
          (snd <$> find (fun e : string * HeadersInit => String.eqb e.1 method)
                        byMethod)
    end.

(** The headers after merging the single update [u] into [h]. *)
Definition merged (h u : HeadersInit) : Headers.t :=
  from_option new_Headers Headers.empty (_mergeHeaders (Some h) [u]).



(** What [merge_entry] does to the values held under one name. *)
Definition merge_key (held : option (list string)) (value : string)
  : option (list string) :=
  if is_placeholder value then None
  else
    match held with
    | Some (x :: xs) =>
        let existing := Headers.combine (x :: xs) in
        if JsString.truthy existing && listed existing value then held
        else Some ((x :: xs) ++ [Headers.normalize value])
    | _ => Some [Headers.normalize value]
    end.

Definition values_for (name : string) (ops : list (string * string))
  : list string :=
  (filter (fun entry : string * string => Headers.key entry.1 = name) ops).*2.


End SimpleFetchClient.

(** ** JavaScript numbers read from text *)

Module JsNumber.

Definition digit_value (c : ascii) : Z := Z.of_N (JsString.code c) - 48.

(** The digits at the start of [s], most significant first. *)
Fixpoint leading_digits (s : string) : list Z :=
  match s with
  | String c s' =>
      if JsString.is_digit c then digit_value c :: leading_digits s' else []
  | EmptyString => []
  end.

Definition decimal (digits : list Z) : Z :=
  foldl (fun acc d => 10 * acc + d) 0 digits.

(** The double nearest to an integer, ties going to the even significand:
    an integer of at most 53 bits is a double, a longer one keeps its 53
    leading bits.  A magnitude from [2^1024 - 2^970] on rounds to an
    infinity, which the result [2^1024] (with the sign) stands for. *)
Definition to_double (z : Z) : Z :=
  let a := Z.abs z in
  let shift := Z.log2 a - 52 in
  if shift <=? 0 then z
  else
    let q := a / 2 ^ shift in
    let r := a mod 2 ^ shift in
    let half := 2 ^ (shift - 1) in
    let q' := if (half <? r) || ((r =? half) && Z.odd q) then q + 1 else q in
    Z.sgn z * (q' * 2 ^ shift).

(** [x - y] on two finite doubles that hold integers. *)
Definition minus (x y : Z) : Z := to_double (x - y).

(** [parseInt(s, 10)]: leading white space is skipped, one sign is read,
    then the longest run of decimal digits; [None] is [NaN] (no digit).
    The result is the double nearest to the integer that the digits
    write (past 20 significant digits the standard lets an engine read
    the further digits as zeros). *)
Definition parseInt (s : string) : option Z :=
  let s1 := JsString.trim_start JsString.js_space s in
  let '(sign, s2) :=
    match s1 with
    | String "-" r => (-1, r)
    | String "+" r => (1, r)
    | _ => (1, s1)
    end in
  match leading_digits s2 with
  | [] => None
  | ds => Some (to_double (sign * decimal ds))
  end.

(** [parseInt(x, 10)] for an [x] that may be [undefined] or [null]: the
    argument is first turned into the text "undefined" or "null", which
    holds no digit. *)
Definition parseInt_opt (x : option string) : option Z :=
  x ≫= parseInt.

(** [Number.isFinite]: a number that is not [NaN] and no infinity (the
    doubles are below [2^1024 - 2^970] in magnitude, an infinity stands at
    [2^1024]). *)
Definition isFinite (n : option Z) : bool :=
  match n with
  | Some z => Z.abs z <? 2 ^ 1024 - 2 ^ 970
  | None => false
  end.

End JsNumber.

(** ** Cache-control records (client.ts) *)

(** A property of an object literal: absent, or present with a value that
    may be [undefined] ([Object.assign] copies a present property whatever
    its value). *)
Inductive Property (A : Type) :=
| Absent
| Present (value : option A).
Arguments Absent {A}.
Arguments Present {A} value.

(** Reading a property: [undefined] when absent. *)
Definition read {A} (p : Property A) : option A :=
  match p with
  | Absent => None
  | Present v => v
  end.

(** [Seconds | boolean]. *)
Inductive SecondsOrBool :=
| Secs (s : Z)
| Flag (b : bool).

Record CacheControl := {
  maxAge : Property SecondsOrBool;
  noCache : Property bool;
  noStore : Property bool;
  mustRevalidate : Property bool;
  staleWhileRevalidate : Property SecondsOrBool;
  staleIfError : Property SecondsOrBool
}.

Definition no_directives : CacheControl :=
  {| maxAge := Absent; noCache := Absent; noStore := Absent;
     mustRevalidate := Absent; staleWhileRevalidate := Absent;
     staleIfError := Absent |}.

Definition assign_property {A} (target source : Property A) : Property A :=
  match source with
  | Absent => target
  | Present _ => source
  end.

(** [Object.assign(target, source)]; an [undefined] source is skipped. *)
Definition Object_assign (target : CacheControl) (source : option CacheControl)
  : CacheControl :=
  match source with
  | None => target
  | Some s =>
      {| maxAge := assign_property (maxAge target) (maxAge s);
         noCache := assign_property (noCache target) (noCache s);
         noStore := assign_property (noStore target) (noStore s);
         mustRevalidate :=
           assign_property (mustRevalidate target) (mustRevalidate s);
         staleWhileRevalidate :=
           assign_property (staleWhileRevalidate target) (staleWhileRevalidate s);
         staleIfError := assign_property (staleIfError target) (staleIfError s) |}
  end.

(** Truthiness of an optional boolean and of an optional [Seconds|boolean]. *)
Definition truthy_bool (b : option bool) : bool := default false b.

Definition truthy_seconds (v : option SecondsOrBool) : bool :=
  match v with
  | Some (Secs s) => negb (s =? 0)
  | Some (Flag b) => b
  | None => false
  end.

Inductive CacheStateCore := DISABLED | FRESH | STALE.

Definition CacheStateCore_eqb (a b : CacheStateCore) : bool :=
  match a, b with
  | DISABLED, DISABLED | FRESH, FRESH | STALE, STALE => true
  | _, _ => false
  end.

(** [CacheState]: the state and the properties of [StaleCacheOptions];
    [None] is a property that is absent or [undefined]. *)
Record CacheState := {
  state : CacheStateCore;
  cs_mustRevalidate : option bool;
  cs_staleWhileRevalidate : option bool;
  cs_staleIfError : option bool
}.

Definition only_state (s : CacheStateCore) : CacheState :=
  {| state := s; cs_mustRevalidate := None;
     cs_staleWhileRevalidate := None; cs_staleIfError := None |}.

Definition stale_must_revalidate : CacheState :=
  {| state := STALE; cs_mustRevalidate := Some true;
     cs_staleWhileRevalidate := None; cs_staleIfError := None |}.

(** [{defaultCacheControl?, forcedCacheControl?}]. *)
Record CacheStateOptions := {
  defaultCacheControl : option CacheControl;
  forcedCacheControl : option CacheControl
}.

Module CacheControlEval.

(** The record that [_cacheState] evaluates:
    [Object.assign(Object.create(null), ...cacheControls)] with the
    defaults first, then the record of the entry, then the forced one. *)
Definition effectiveCacheControl (own : option CacheControl)
  (options : CacheStateOptions) : CacheControl :=
  Object_assign
    (Object_assign (Object_assign no_directives (defaultCacheControl options)) own)
    (forcedCacheControl options).

(** [maxAge === false || maxAge <= 0]. *)
Definition maxAge_not_positive (maxAge : option SecondsOrBool) : bool :=
  match maxAge with
  | Some (Flag false) => true
  | Some (Secs s) => s <=? 0
  | _ => false
  end.

(** [maxAge * 1000] once [maxAge] is a number or [false]. *)
Definition maxAge_millis (maxAge : option SecondsOrBool) : Z :=
  match maxAge with
  | Some (Secs s) => s * 1000
  | _ => 0
  end.

Definition within (validUntil now : Z) (relax : SecondsOrBool) : bool :=
  match relax with
  | Flag b => b
  | Secs s => now <=? validUntil + s * 1000
  end.

(** [CachingClient._cacheState]; [now] is the value of [Date.now()] and
    [updated] the time stamp of the entry. *)
Definition _cacheState (now : Z) (updated : Z) (own : option CacheControl)
  (options : CacheStateOptions) : CacheState :=
  let effective := effectiveCacheControl own options in
  if truthy_bool (read (noStore effective)) then only_state DISABLED
  else
    let maxAge := read (maxAge effective) in
    let noCache :=
      if maxAge_not_positive maxAge
         && truthy_bool (read (mustRevalidate effective))
      then Some true else read (noCache effective) in
    if truthy_bool noCache then stale_must_revalidate
    else
      match maxAge with
      | None | Some (Flag true) => only_state FRESH
      | _ =>
          let validUntil := updated + maxAge_millis maxAge in
          if now <=? validUntil then only_state FRESH
          else if truthy_bool (read (mustRevalidate effective))
          then stale_must_revalidate
          else
            let swr := read (staleWhileRevalidate effective) in
            let sie := read (staleIfError effective) in
            {| state := STALE;
               cs_mustRevalidate := None;
               cs_staleWhileRevalidate :=
                 if truthy_seconds swr
                 then within validUntil now <$> swr else None;
               cs_staleIfError := within validUntil now <$> sie |}
      end.

(** A record with [maxAge = 0] and none of [noStore], [noCache],
    [mustRevalidate]. *)
Definition only_max_age_zero (effective : CacheControl) : Prop :=
  read (maxAge effective) = Some (Secs 0)
  ∧ truthy_bool (read (noStore effective)) = false
  ∧ truthy_bool (read (noCache effective)) = false
  ∧ truthy_bool (read (mustRevalidate effective)) = false.

(** The record of a response with [Cache-Control: max-age=0]. *)
Definition max_age_zero : CacheControl :=
  {| maxAge := Present (Some (Secs 0)); noCache := Absent; noStore := Absent;
     mustRevalidate := Absent; staleWhileRevalidate := Absent;
     staleIfError := Absent |}.

Definition no_options : CacheStateOptions :=
  {| defaultCacheControl := None; forcedCacheControl := None |}.

(** The condition under which the specification's write-through rule
    forbids a write: [noStore], or [maxAge] equal to 0 or [false] with no
    revalidation hint ([mustRevalidate], [noCache]). *)
Definition spec_forbids_write (effective : CacheControl) : bool :=
  truthy_bool (read (noStore effective))
  || (match read (maxAge effective) with
      | Some (Secs 0) | Some (Flag false) => true
      | _ => false
      end
      && negb (truthy_bool (read (mustRevalidate effective)))
      && negb (truthy_bool (read (noCache effective)))).

(** A directive of the [Cache-Control] header: [true] for a bare token,
    the text after [=] otherwise. *)
Inductive Directive :=
| DTrue
| DText (text : string).

Definition directive_truthy (d : option Directive) : bool :=
  match d with
  | Some DTrue => true
  | Some (DText s) => JsString.truthy s
  | None => false
  end.

(** [parseInt(directive as string, 10)]: [true] reads as the text "true". *)
Definition directive_int (d : option Directive) : option Z :=
  match d with
  | Some (DText s) => JsNumber.parseInt s
  | _ => None
  end.

(** The entries handed to [Object.fromEntries]: the lower-cased header is
    split at [","], every part at ["="], the pieces are trimmed, parts
    with more than two pieces are dropped. *)
Definition directive_entries (cacheControl : string)
  : list (string * Directive) :=
  omap
    (fun entry =>
       match map JsString.trim (JsString.split "=" entry) with
       | [name] => Some (name, DTrue)
       | [name; text] => Some (name, DText text)
       | _ => None
       end)
    (JsString.split JsString.comma (JsString.toLowerCase cacheControl)).

(** [directives[name]] on the object built by [Object.fromEntries]: the
    last entry of a name wins. *)
Fixpoint directive (entries : list (string * Directive)) (name : string)
  : option Directive :=
  match entries with
  | [] => None
  | (n, d) :: rest =>
      match directive rest name with
      | Some d' => Some d'
      | None => if String.eqb n name then Some d else None
      end
  end.

Section with_clock.

(** [new Date(text).getTime()]: the milliseconds of a date text, [None]
    when the text is no date.  Date parsing belongs to the platform. *)
Variable Date_parse : string -> option Z.

(** [CachingClient._parseExpireHeader]; [now] is [new Date().getTime()].
    [Math.round(d / 1000)] is the floor of [(d + 500) / 1000]. *)
Definition _parseExpireHeader (now : Z) (headers : Headers.t)
  : option CacheControl :=
  if Headers.has headers "Expires" then
    match Headers.get headers "Expires" ≫= Date_parse with
    | None => None
    | Some expiryDate =>
        let diffMillis := expiryDate - now in
        Some {| maxAge := Present (Some (Secs (Z.max 0 ((diffMillis + 500) / 1000))));
                noCache := Absent; noStore := Absent; mustRevalidate := Absent;
                staleWhileRevalidate := Absent; staleIfError := Absent |}
    end
  else None.

Definition set_true (cond : bool) : Property bool :=
  if cond then Present (Some true) else Absent.

Definition set_positive (n : option Z) : Property SecondsOrBool :=
  match n with
  | Some z => if 0 <? z then Present (Some (Secs z)) else Absent
  | None => Absent
  end.

(** [CachingClient._evaluateCacheControl]. *)
Definition _evaluateCacheControl (now : Z) (headers : Headers.t)
  : option CacheControl :=
  if negb (Headers.has headers "Cache-Control")
  then _parseExpireHeader now headers
  else
    let cacheControl := default "" (Headers.get headers "Cache-Control") in
    let directives := directive (directive_entries cacheControl) in
    Some
      {| noCache := set_true (directive_truthy (directives "no-cache"));
         noStore := set_true (directive_truthy (directives "no-store"));
         mustRevalidate :=
           set_true (directive_truthy (directives "must-revalidate"));
         maxAge :=
           match directives "max-age" with
           | Some d =>
               let maxAge := directive_int (Some d) in
               if JsNumber.isFinite maxAge then
                 let age := JsNumber.parseInt_opt (Headers.get headers "Age") in
                 let maxAge :=
                   if JsNumber.isFinite age
                   then JsNumber.minus (default 0 maxAge) (default 0 age)
                   else default 0 maxAge in
                 Present (Some (Secs (if maxAge <=? 0 then 0 else maxAge)))
               else Absent
           | None =>
               match _parseExpireHeader now headers with
               | Some expires =>
                   match read (maxAge expires) with
                   | Some m => Present (Some m)
                   | None => Absent
                   end
               | None => Absent
               end
           end;
         staleWhileRevalidate :=
           set_positive (directive_int (directives "stale-while-revalidate"));
         staleIfError :=
           set_positive (directive_int (directives "stale-if-error")) |}.

End with_clock.

End CacheControlEval.

(** ** Values, errors and settled promises *)

(** The values that travel through the client: decoded JSON, [undefined],
    and a [Headers] instance where a result object is itself used as a
    value. *)
Inductive JsValue :=
| JUndefined
| JNull
| JBool (b : bool)
| JNum (n : Z)
| JStr (s : string)
| JArr (items : list JsValue)
| JObj (fields : list (string * JsValue))
| JHeaders (h : Headers.t).

(** [!!value]. *)
Definition truthy_value (v : JsValue) : bool :=
  match v with
  | JUndefined | JNull | JBool false | JNum 0 | JStr EmptyString => false
  | _ => true
  end.

(** The errors the client tells apart: [HttpError] by its cause, the
    [TypeError]s that [isNetworkError] recognises, [NoUpdateError], and
    any other error. *)
Inductive Error :=
| HttpError_responseStatus (status : Z)
| HttpError_contentType
| NetworkError (message : string)
| NoUpdateError (message : string)
| OtherError (message : string).

Definition isNetworkError (e : Error) : bool :=
  match e with
  | NetworkError _ => true
  | _ => false
  end.

(** [e instanceof HttpError && e.details.cause === "responseStatus"
     && e.details.status >= 500]. *)
Definition is_server_failure (e : Error) : bool :=
  match e with
  | HttpError_responseStatus status => 500 <=? status
  | _ => false
  end.

(** The settlement of a promise. *)
Inductive Settled (A : Type) :=
| Fulfilled (result : A)
| Rejected (reason : Error).
Arguments Fulfilled {A} result.
Arguments Rejected {A} reason.

(** ** Cached objects and cache backends (cache.ts) *)

Module CachedObject.
Record t := {
  key : string;
  updated : Z;
  value : JsValue;
  headers : Headers.t;
  cacheControl : option CacheControl
}.
End CachedObject.

(** The part of the [ObjectCache] interface that the client calls.  A
    backend is a state [C]; [set] returns the state after the call. *)
Class ObjectCache (C : Type) := {
  cache_available : C -> bool;
  cache_get : C -> string -> Settled (option CachedObject.t);
  cache_set : C -> Z -> string -> JsValue -> Headers.t -> option CacheControl
              -> Settled bool * C
}.

(** ** cache/MemoryCache.ts *)

Module MemoryCache.

(** A JavaScript [Map] with string keys: the entries in insertion order. *)
Abbreviation Map := (list (string * CachedObject.t)).

Fixpoint Map_get (m : Map) (key : string) : option CachedObject.t :=
  match m with
  | [] => None
  | (k, v) :: rest => if String.eqb k key then Some v else Map_get rest key
  end.

(** [Map.prototype.set]: a key that is present keeps its place. *)
Fixpoint Map_set (m : Map) (key : string) (value : CachedObject.t) : Map :=
  match m with
  | [] => [(key, value)]
  | (k, v) :: rest =>
      if String.eqb k key then (k, value) :: rest
      else (k, v) :: Map_set rest key value
  end.

Fixpoint Map_delete (m : Map) (key : string) : Map :=
  match m with
  | [] => []
  | (k, v) :: rest =>
      if String.eqb k key then rest else (k, v) :: Map_delete rest key
  end.

Definition Map_size (m : Map) : Z := Z.of_nat (length m).

(** The private fields [#cache], [#maxItems] and [#deepCopy]. *)
Record t := {
  cache : Map;
  maxItems : option Z;
  deepCopy : option (JsValue -> JsValue)
}.

(** [MemoryCacheConfig]. *)
Record Config := {
  cfg_maxItems : option Z;
  cfg_cloneItems : bool;
  cfg_deepCopy : option (JsValue -> JsValue)
}.

(** The constructor. *)
Definition new (config : Config) : t :=
  {| cache := [];
     maxItems :=
       match cfg_maxItems config with
       | Some n => if 0 <? n then Some n else None
       | None => None
       end;
     deepCopy := if cfg_cloneItems config then cfg_deepCopy config else None |}.

Definition copy (c : t) (v : JsValue) : JsValue :=
  match deepCopy c with
  | Some f => f v
  | None => v
  end.

Definition get (c : t) (key : string) : option CachedObject.t :=
  match Map_get (cache c) key with
  | None => None
  | Some value =>
      match deepCopy c with
      | Some f =>
          Some {| CachedObject.key := CachedObject.key value;
                  CachedObject.updated := CachedObject.updated value;
                  CachedObject.value := f (CachedObject.value value);
                  CachedObject.headers := CachedObject.headers value;
                  CachedObject.cacheControl := CachedObject.cacheControl value |}
      | None => Some value
      end
  end.

(** [set]; [now] is [Date.now()].  The result is what the returned promise
    resolves to, with the cache after the call. *)
Definition set (c : t) (now : Z) (key : string) (value : JsValue)
  (headers : Headers.t) (cacheControl : option CacheControl) : bool * t :=
  match key, value with
  | EmptyString, _ | _, JUndefined => (false, c)
  | _, _ =>
      let evicted :=
        match maxItems c with
        | Some n =>
            if (negb (n =? 0)) && (n <=? Map_size (cache c)) then
              match cache c with
              | (firstKey, _) :: _ => Map_delete (cache c) firstKey
              | [] => cache c
              end
            else cache c
        | None => cache c
        end in
      let value1 := copy c value in
      (true,
       {| cache :=
            Map_set evicted key
              {| CachedObject.key := key;
                 CachedObject.updated := now;
                 CachedObject.value := value1;
                 CachedObject.headers := headers;
                 CachedObject.cacheControl := cacheControl |};
          maxItems := maxItems c;
          deepCopy := deepCopy c |})
  end.

Definition delete (c : t) (key : string) : bool * t :=
  (bool_decide (is_Some (Map_get (cache c) key)),
   {| cache := Map_delete (cache c) key;
      maxItems := maxItems c; deepCopy := deepCopy c |}).

Definition clear (c : t) : Z * t :=
  (Map_size (cache c),
   {| cache := []; maxItems := maxItems c; deepCopy := deepCopy c |}).

#[global] Instance object_cache : ObjectCache t := {
  cache_available _ := true;
  cache_get c key := Fulfilled (get c key);
  cache_set c now key value headers cacheControl :=
    let (written, c') := set c now key value headers cacheControl in
    (Fulfilled written, c')
}.

End MemoryCache.

(** ** cache/CachingClient.ts *)

Module JsonResult.
Record t := {
  value : JsValue;
  headers : Headers.t
}.
End JsonResult.

(** A [Response] as far as the client reads it; [json] is the settlement
    of [resp.json()]. *)
Module Response.
Record t := {
  status : Z;
  headers : Headers.t;
  json : Settled JsValue
}.
End Response.

(** [CachingRequestConfig]; [mode] and [update] may be [undefined]. *)
Module CachingRequestConfig.
Record t := {
  key : string;
  table : option string;
  mode : option string;
  defaultCacheControl : option CacheControl;
  forcedCacheControl : option CacheControl;
  activeCache : option (list string);
  update : bool;
  equal : option (JsValue -> JsValue -> bool);
  cacheTimeout : option Z
}.
End CachingRequestConfig.

Inductive RequestInfo :=
| Url (url : string)
| Request (url : string) (method : string) (headers : Headers.t).

Module RequestInit.
Record t := {
  headers : option HeadersInit;
  method : option string;
  useCache : option CachingRequestConfig.t
}.
End RequestInit.

(** The wrapped client ([_delegate]): what its two methods settle to for a
    given request, and whether an abort of the signal of the request,
    raised once the cache has answered, reaches the fetch while it is in
    flight: the fetch is then cancelled and brings no result.  An abort
    that comes after the fetch has settled, or that the client does not
    heed, changes nothing. *)
Record Delegate := {
  delegate_fetchJson : RequestInfo -> RequestInit.t -> Settled JsonResult.t;
  delegate_fetch : RequestInfo -> RequestInit.t -> Settled Response.t;
  delegate_cancels : RequestInfo -> RequestInit.t -> bool
}.

(** A call of the wrapped client, that is of the transport pipeline. *)
Inductive DelegateCall :=
| Call_fetchJson (input : RequestInfo) (init : RequestInit.t)
| Call_fetch (input : RequestInfo) (init : RequestInit.t).

(** The [update] property of a result: absent, a promise (given by its
    settlement), or an error object that is no promise. *)
Inductive Update :=
| NoChannel
| Channel (settlement : Settled JsonResult.t)
| ErrorObject (e : Error).

(** Where the returned object comes from: built from a fetch, or the cached
    object (with the cache state spread into it in race mode), whose other
    properties it carries along. *)
Inductive Origin :=
| FromFetch
| FromCache (cached : CachedObject.t) (cacheState : option CacheState).

Module CachingResult.
Record t := {
  value : JsValue;
  headers : Headers.t;
  update : Update;
  origin : Origin
}.
End CachingResult.

(** One run of [fetchJson]: the settlement of the returned promise, the
    calls of the wrapped client in order, the cache once the write-through
    has run, and whether the fetch was aborted in flight. *)
Record Run (C : Type) := {
  outcome : Settled CachingResult.t;
  calls : list DelegateCall;
  cache_after : option C;
  fetch_aborted : bool
}.
Arguments outcome {C} r.
Arguments calls {C} r.
Arguments cache_after {C} r.
Arguments fetch_aborted {C} r.

Module CachingClient.
Import CacheControlEval.

Definition DEFAULT_TABLE : string := "Cached".

(** Objects used as values. *)
Definition object_of_seconds (v : SecondsOrBool) : JsValue :=
  match v with
  | Secs s => JNum s
  | Flag b => JBool b
  end.

Definition object_property {A} (name : string) (f : A -> JsValue)
  (p : Property A) : list (string * JsValue) :=
  match p with
  | Absent => []
  | Present None => [(name, JUndefined)]
  | Present (Some v) => [(name, f v)]
  end.

Definition object_of_cacheControl (c : option CacheControl) : JsValue :=
  match c with
  | None => JUndefined
  | Some c =>
      JObj (object_property "maxAge" object_of_seconds (maxAge c)
            ++ object_property "noCache" JBool (noCache c)
            ++ object_property "noStore" JBool (noStore c)
            ++ object_property "mustRevalidate" JBool (mustRevalidate c)
            ++ object_property "staleWhileRevalidate" object_of_seconds
                 (staleWhileRevalidate c)
            ++ object_property "staleIfError" object_of_seconds (staleIfError c))
  end.

Definition state_code (s : CacheStateCore) : Z :=
  match s with
  | DISABLED => 0
  | FRESH => 1
  | STALE => 2
  end.

Definition optional_flag (name : string) (b : option bool)
  : list (string * JsValue) :=
  match b with
  | Some b => [(name, JBool b)]
  | None => []
  end.

Definition object_of_result (r : JsonResult.t) : JsValue :=
  JObj [("value", JsonResult.value r);
        ("headers", JHeaders (JsonResult.headers r))].

(** A property that an object literal always has, [undefined] included. *)
Definition flag_or_undefined (b : option bool) : JsValue :=
  match b with
  | Some b => JBool b
  | None => JUndefined
  end.

(** The properties that the object returned by [_cacheState] has beside
    [state]: the last [return] of the function, for a Stale entry that
    need not be revalidated, writes both [staleWhileRevalidate] and
    [staleIfError], whatever their values; the other ones write
    [mustRevalidate] or nothing. *)
Definition stale_properties (st : CacheState) : list (string * JsValue) :=
  if CacheStateCore_eqb (state st) STALE
     && negb (bool_decide (is_Some (cs_mustRevalidate st)))
  then [("staleWhileRevalidate", flag_or_undefined (cs_staleWhileRevalidate st));
        ("staleIfError", flag_or_undefined (cs_staleIfError st))]
  else optional_flag "mustRevalidate" (cs_mustRevalidate st)
       ++ optional_flag "staleWhileRevalidate" (cs_staleWhileRevalidate st)
       ++ optional_flag "staleIfError" (cs_staleIfError st).

(** [{...cached, ...cacheState}] as a value. *)
Definition object_of_cached (c : CachedObject.t) (st : CacheState) : JsValue :=
  JObj ([("key", JStr (CachedObject.key c));
         ("updated", JNum (CachedObject.updated c));
         ("value", CachedObject.value c);
         ("headers", JHeaders (CachedObject.headers c));
         ("cacheControl", object_of_cacheControl (CachedObject.cacheControl c));
         ("state", JNum (state_code (state st)))]
        ++ stale_properties st).

(** The own enumerable properties of an object, an array or a [Headers]
    instance; [None] for a primitive, [null] and [undefined]. *)
Definition own_properties (v : JsValue) : option (list (string * JsValue)) :=
  match v with
  | JObj fields => Some fields
  | JArr items => Some (imap (fun i x => (pretty.pretty i, x)) items)
  | JHeaders _ => Some []
  | _ => None
  end.

Definition property (fields : list (string * JsValue)) (name : string)
  : option JsValue :=
  snd <$> find (fun e : string * JsValue => String.eqb e.1 name) fields.

(** [deepEqual]: [===] decides between primitives; two objects are
    compared property by property. *)
Fixpoint deepEqual (obj1 obj2 : JsValue) {struct obj1} : bool :=
  let same_properties :=
    fix go (fields1 : list (string * JsValue))
           (fields2 : list (string * JsValue)) {struct fields1} : bool :=
      match fields1 with
      | [] => true
      | (name, v1) :: rest =>
          match property fields2 name with
          | Some v2 => deepEqual v1 v2 && go rest fields2
          | None => false
          end
      end in
  let same_items :=
    fix go (index : nat) (items : list JsValue)
           (fields2 : list (string * JsValue)) {struct items} : bool :=
      match items with
      | [] => true
      | v1 :: rest =>
          match property fields2 (pretty.pretty index) with
          | Some v2 => deepEqual v1 v2 && go (S index) rest fields2
          | None => false
          end
      end in
  match obj1, obj2 with
  | JUndefined, JUndefined | JNull, JNull => true
  | JBool a, JBool b => Bool.eqb a b
  | JNum a, JNum b => a =? b
  | JStr a, JStr b => String.eqb a b
  | JObj fields1, _ =>
      match own_properties obj2 with
      | Some fields2 =>
          (length fields1 =? length fields2)%nat
          && same_properties fields1 fields2
      | None => false
      end
  | JArr items, _ =>
      match own_properties obj2 with
      | Some fields2 =>
          (length items =? length fields2)%nat && same_items 0%nat items fields2
      | None => false
      end
  | JHeaders _, _ =>
      match own_properties obj2 with
      | Some fields2 => (0 =? length fields2)%nat
      | None => false
      end
  | _, _ => false
  end.

Definition cached_result (c : CachedObject.t) (st : option CacheState)
  (u : Update) : CachingResult.t :=
  {| CachingResult.value := CachedObject.value c;
     CachingResult.headers := CachedObject.headers c;
     CachingResult.update := u;
     CachingResult.origin := FromCache c st |}.

Definition fetched_result (f : JsonResult.t) (u : Update) : CachingResult.t :=
  {| CachingResult.value := JsonResult.value f;
     CachingResult.headers := JsonResult.headers f;
     CachingResult.update := u;
     CachingResult.origin := FromFetch |}.

Definition state_options (cacheConfig : CachingRequestConfig.t)
  : CacheStateOptions :=
  {| defaultCacheControl := CachingRequestConfig.defaultCacheControl cacheConfig;
     forcedCacheControl := CachingRequestConfig.forcedCacheControl cacheConfig |}.

(** [!cacheConfig?.key || cacheConfig?.forcedCacheControl?.noStore
     || cacheConfig?.forcedCacheControl?.maxAge === false]: the request
    does not go through the cache. *)
Definition bypassed (cacheConfig : CachingRequestConfig.t) : bool :=
  let forced := CachingRequestConfig.forcedCacheControl cacheConfig in
  negb (JsString.truthy (CachingRequestConfig.key cacheConfig))
  || truthy_bool (forced ≫= fun f => read (noStore f))
  || match forced ≫= fun f => read (maxAge f) with
     | Some (Flag false) => true
     | _ => false
     end.

(** [cacheConfig.mode === "cacheControl" || cacheConfig.mode === undefined]. *)
Definition useCacheControl (cacheConfig : CachingRequestConfig.t) : bool :=
  match CachingRequestConfig.mode cacheConfig with
  | None => true
  | Some mode => String.eqb mode "cacheControl"
  end.

(** [cacheConfig.mode === name]. *)
Definition mode_is (cacheConfig : CachingRequestConfig.t) (name : string)
  : bool :=
  match CachingRequestConfig.mode cacheConfig with
  | None => false
  | Some mode => String.eqb mode name
  end.

(** [promise.then(f)] on settlements. *)
Definition and_then {A B} (p : Settled A) (f : A -> Settled B) : Settled B :=
  match p with
  | Fulfilled a => f a
  | Rejected e => Rejected e
  end.

Section client.

Context {C : Type} `{ObjectCache C}.

(** The platform's date parser, the wrapped client, the value of the clock
    during the call (reads of the clock within one call are taken to agree)
    and, for the race, whether the cache read settles before the fetch. *)
Variable Date_parse : string -> option Z.
Variable delegate : Delegate.
Variable now : Z.
Variable cache_settles_first : bool.

(** [_updateCache]: the boolean the returned promise resolves to, and the
    cache after the call. *)
Definition _updateCache (key : string) (value : JsValue) (headers : Headers.t)
  (cache : C) (cacheConfig : CachingRequestConfig.t) : bool * C :=
  if negb (truthy_value value) then (false, cache)
  else
    let cacheControl := _evaluateCacheControl Date_parse now headers in
    let cacheState :=
      _cacheState now now cacheControl (state_options cacheConfig) in
    match state cacheState with
    | DISABLED => (false, cache)
    | _ =>
        match cache_set cache now key value headers cacheControl with
        | (Fulfilled _, cache') => (true, cache')
        | (Rejected _, cache') => (false, cache')
        end
    end.

(** [fetchResult.then(f => this._updateCache(...)).catch(() => undefined)]. *)
Definition write_through (cache : C) (cacheConfig : CachingRequestConfig.t)
  (fetched : Settled JsonResult.t) : C :=
  match fetched with
  | Fulfilled f =>
      (_updateCache (CachingRequestConfig.key cacheConfig) (JsonResult.value f)
         (JsonResult.headers f) cache cacheConfig).2
  | Rejected _ => cache
  end.

Definition evaluate (cached : CachedObject.t)
  (cacheConfig : CachingRequestConfig.t) : CacheState :=
  _cacheState now (CachedObject.updated cached)
    (CachedObject.cacheControl cached) (state_options cacheConfig).

Definition no_update (message : string) : Update :=
  Channel (Rejected (NoUpdateError message)).

(** The request without caching: [this._delegate.fetchJson(input, init)]. *)
Definition bypass (input : RequestInfo) (init : RequestInit.t)
  (cache : option C) : Run C :=
  {| outcome :=
       and_then (delegate_fetchJson delegate input init)
         (fun f => Fulfilled (fetched_result f NoChannel));
     calls := [Call_fetchJson input init];
     cache_after := cache;
     fetch_aborted := false |}.

Definition input_headers (input : RequestInfo) : option HeadersInit :=
  match input with
  | Url _ => None
  | Request _ _ headers => Some (InitHeaders headers)
  end.

Definition input_method (input : RequestInfo) : option string :=
  match input with
  | Url _ => None
  | Request _ method _ => Some method
  end.

Definition request_method (input : RequestInfo) (init : RequestInit.t)
  : string :=
  JsString.toUpperCase
    (match RequestInit.method init with
     | Some m => if JsString.truthy m then m
                 else default "GET" (input_method input)
     | None => default "GET" (input_method input)
     end).

Definition truthy_text (s : option string) : bool :=
  match s with
  | Some s => JsString.truthy s
  | None => false
  end.

(** Strategy [cacheControl], the branch of a cache miss or a disabled
    cache. *)
Definition fetch_uncached (input : RequestInfo) (init2 : RequestInit.t)
  (cache : C) (cacheConfig : CachingRequestConfig.t) : Run C :=
  let resultPromise := delegate_fetchJson delegate input init2 in
  {| outcome :=
       and_then resultPromise
         (fun result =>
            Fulfilled
              (fetched_result result
                 (if CachingRequestConfig.update cacheConfig
                  then no_update "Cache disabled" else NoChannel)));
     calls := [Call_fetchJson input init2];
     cache_after := Some (write_through cache cacheConfig resultPromise);
     fetch_aborted := false |}.

(** Strategy [cacheControl], the branch of a stale entry. *)
Definition revalidate (input : RequestInfo) (init2 : RequestInit.t)
  (cache : C) (cacheConfig : CachingRequestConfig.t)
  (cacheResult : CachedObject.t) (cacheState : CacheState) : Run C :=
  let update := CachingRequestConfig.update cacheConfig in
  let etag := Headers.get (CachedObject.headers cacheResult) "ETag" in
  let lastMod := Headers.get (CachedObject.headers cacheResult) "Last-Modified" in
  let useConditionalRequest := truthy_text etag || truthy_text lastMod in
  let '(resultPromise, call, cache') :=
    if useConditionalRequest then
      let headers :=
        match RequestInit.headers init2 with
        | Some h => new_Headers h
        | None => Headers.empty
        end in
      let headers :=
        if truthy_text etag
        then Headers.append headers "If-None-Match" (default "" etag)
        else if truthy_text lastMod
        then Headers.append headers "If-Modified-Since" (default "" lastMod)
        else headers in
      let headers :=
        if SimpleFetchClient._acceptHeaderSpecified (input_headers input)
             (Some (InitHeaders headers)) (request_method input init2)
             (Some (InitHeaders headers)) None
        then headers
        else Headers.append headers "Accept" "application/json" in
      let init2 :=
        {| RequestInit.headers := Some (InitHeaders headers);
           RequestInit.method := RequestInit.method init2;
           RequestInit.useCache := RequestInit.useCache init2 |} in
      match delegate_fetch delegate input init2 with
      | Rejected e => (Rejected e, Call_fetch input init2, cache)
      | Fulfilled resp =>
          if Response.status resp =? 304 then
            (if update
             then Rejected
                    (NoUpdateError "Cached value unchanged, no update required")
             else Fulfilled (cached_result cacheResult None NoChannel),
             Call_fetch input init2, cache)
          else
            match Response.json resp with
            | Rejected e => (Rejected e, Call_fetch input init2, cache)
            | Fulfilled json =>
                (Fulfilled
                   (fetched_result
                      {| JsonResult.value := json;
                         JsonResult.headers := Response.headers resp |}
                      NoChannel),
                 Call_fetch input init2,
                 (_updateCache (CachingRequestConfig.key cacheConfig) json
                    (Response.headers resp) cache cacheConfig).2)
            end
      end
    else
      let fetched := delegate_fetchJson delegate input init2 in
      (and_then fetched (fun f => Fulfilled (fetched_result f NoChannel)),
       Call_fetchJson input init2,
       write_through cache cacheConfig fetched) in
  let as_update : Settled JsonResult.t :=
    and_then resultPromise
      (fun r => Fulfilled {| JsonResult.value := CachingResult.value r;
                             JsonResult.headers := CachingResult.headers r |}) in
  let returned :=
    if default false (cs_staleWhileRevalidate cacheState) then
      Fulfilled
        (cached_result cacheResult None
           (if update then Channel as_update else NoChannel))
    else if default false (cs_staleIfError cacheState) then
      match resultPromise with
      | Rejected e =>
          if is_server_failure e || isNetworkError e
          then Fulfilled
                 (cached_result cacheResult None
                    (if update
                     then no_update "Request failed, no update available."
                     else NoChannel))
          else Rejected e
      | Fulfilled r => Fulfilled r
      end
    else resultPromise in
  {| outcome := returned;
     calls := [call];
     cache_after := Some cache';
     fetch_aborted := false |}.

(** Strategy [cacheControl]. *)
Definition fetch_cacheControl (input : RequestInfo) (init2 : RequestInit.t)
  (cache : C) (cacheConfig : CachingRequestConfig.t) : Run C :=
  match cache_get cache (CachingRequestConfig.key cacheConfig) with
  | Rejected e =>
      {| outcome := Rejected e; calls := []; cache_after := Some cache;
         fetch_aborted := false |}
  | Fulfilled cacheResult =>
      match cacheResult with
      | Some cached =>
          if truthy_value (CachedObject.value cached) then
            let cacheState := evaluate cached cacheConfig in
            match state cacheState with
            | FRESH =>
                {| outcome :=
                     Fulfilled
                       (cached_result cached None
                          (if CachingRequestConfig.update cacheConfig
                           then no_update "Fresh cache result, no update needed."
                           else NoChannel));
                   calls := [];
                   cache_after := Some cache;
                   fetch_aborted := false |}
            | DISABLED => fetch_uncached input init2 cache cacheConfig
            | STALE => revalidate input init2 cache cacheConfig cached cacheState
            end
          else fetch_uncached input init2 cache cacheConfig
      | None => fetch_uncached input init2 cache cacheConfig
      end
  end.

(** Strategy [fetchFirst]. *)
Definition fetch_fetchFirst (input : RequestInfo) (init2 : RequestInit.t)
  (cache : C) (cacheConfig : CachingRequestConfig.t) : Run C :=
  let resultPromise := delegate_fetchJson delegate input init2 in
  {| outcome :=
       match resultPromise with
       | Fulfilled f => Fulfilled (fetched_result f NoChannel)
       | Rejected e =>
           match cache_get cache (CachingRequestConfig.key cacheConfig) with
           | Fulfilled (Some cacheResult) =>
               let cacheState := evaluate cacheResult cacheConfig in
               if CacheStateCore_eqb (state cacheState) FRESH
                  || default false (cs_staleIfError cacheState)
               then Fulfilled (cached_result cacheResult None NoChannel)
               else Rejected e
           | Fulfilled None => Rejected e
           | Rejected _ => Rejected e
           end
       end;
     calls := [Call_fetchJson input init2];
     cache_after := Some (write_through cache cacheConfig resultPromise);
     fetch_aborted := false |}.

(** What the race hands to its [then] callback: the cached object with its
    state spread in, [undefined] for a miss, or the fetched result. *)
Inductive Raced :=
| RacedCached (cached : CachedObject.t) (cacheState : CacheState)
| RacedMiss
| RacedFetched (fetched : JsonResult.t).

(** [cache.get(...).then(cached => cached ? {...cached, ..._cacheState(...)}
    : cached)]. *)
Definition cacheResult_race (cache : C) (cacheConfig : CachingRequestConfig.t)
  : Settled (option (CachedObject.t * CacheState)) :=
  and_then (cache_get cache (CachingRequestConfig.key cacheConfig))
    (fun cached =>
       Fulfilled ((fun c => (c, evaluate c cacheConfig)) <$> cached)).

Definition raced_cache
  (cacheResult : Settled (option (CachedObject.t * CacheState)))
  : Settled Raced :=
  and_then cacheResult
    (fun r =>
       Fulfilled match r with
                 | Some (c, st) => RacedCached c st
                 | None => RacedMiss
                 end).

Definition raced_fetch (fetchResult : Settled JsonResult.t) : Settled Raced :=
  and_then fetchResult (fun f => Fulfilled (RacedFetched f)).

(** The callback of [firstResult.catch]. *)
Definition recover
  (cacheResult : Settled (option (CachedObject.t * CacheState)))
  (fetchResult : Settled JsonResult.t) : Settled Raced :=
  match fetchResult with
  | Rejected e =>
      match cacheResult with
      | Rejected cacheError => Rejected cacheError
      | Fulfilled (Some (c, st)) =>
          if CacheStateCore_eqb (state st) FRESH
             || default false (cs_staleWhileRevalidate st)
             || default false (cs_staleIfError st)
          then Fulfilled (RacedCached c st)
          else Rejected e
      | Fulfilled None => Rejected e
      end
  | Fulfilled f => Fulfilled (RacedFetched f)
  end.

Definition raced_value (r : Raced) : JsValue :=
  match r with
  | RacedCached c _ => CachedObject.value c
  | RacedMiss => JUndefined
  | RacedFetched f => JsonResult.value f
  end.

Definition raced_headers (r : Raced) : Headers.t :=
  match r with
  | RacedCached c _ => CachedObject.headers c
  | RacedMiss => Headers.empty
  | RacedFetched f => JsonResult.headers f
  end.

Definition raced_object (r : Raced) : JsValue :=
  match r with
  | RacedCached c st => object_of_cached c st
  | RacedMiss => JUndefined
  | RacedFetched f => object_of_result f
  end.

(** The raced object returned as it is. *)
Definition raced_result (r : Raced) : CachingResult.t :=
  match r with
  | RacedCached c st => cached_result c (Some st) NoChannel
  | RacedMiss =>
      {| CachingResult.value := JUndefined;
         CachingResult.headers := Headers.empty;
         CachingResult.update := NoChannel;
         CachingResult.origin := FromFetch |}
  | RacedFetched f => fetched_result f NoChannel
  end.

(** The comparison inside [updatePromise]: by [ETag], else by
    [Last-Modified], else by [equal] (by default [deepEqual]). *)
Definition same_result (cacheConfig : CachingRequestConfig.t)
  (f : JsonResult.t) (r : Raced) : bool :=
  let by_header (name : string) : option bool :=
    match Headers.get (JsonResult.headers f) name,
          Headers.get (raced_headers r) name with
    | Some fetched, Some cached =>
        if JsString.truthy fetched && JsString.truthy cached
        then Some (String.eqb fetched cached) else None
    | _, _ => None
    end in
  match by_header "ETag" with
  | Some equal => equal
  | None =>
      match by_header "Last-Modified" with
      | Some equal => equal
      | None =>
          default deepEqual (CachingRequestConfig.equal cacheConfig)
            (JsonResult.value f) (raced_value r)
      end
  end.

(** The [then] callback of the race for a raced object [r] that is not
    [undefined]: the settlement of the returned promise and whether
    [fetchAbort.abort] is called. *)
Definition settle_raced (cacheConfig : CachingRequestConfig.t)
  (cacheResult : Settled (option (CachedObject.t * CacheState)))
  (fetchResult : Settled JsonResult.t) (r : Raced)
  : Settled CachingResult.t * bool :=
  let update := CachingRequestConfig.update cacheConfig in
  let cacheState :=
    match r with
    | RacedCached _ st =>
        if CacheStateCore_eqb (state st) DISABLED then None else Some st
    | _ => None
    end in
  let staleWhileRevalidate :=
    default false (cacheState ≫= cs_staleWhileRevalidate) in
  match cacheState with
  | Some st =>
      if CacheStateCore_eqb (state st) STALE && negb staleWhileRevalidate
      then
        let cacheUsableOnError := default false (cs_staleIfError st) in
        let base : Settled Raced :=
          if cacheUsableOnError then
            match fetchResult with
            | Rejected e =>
                if is_server_failure e || isNetworkError e
                then raced_cache cacheResult
                else Rejected e
            | Fulfilled f => Fulfilled (RacedFetched f)
            end
          else raced_fetch fetchResult in
        (if update then
           and_then base
             (fun res =>
                Fulfilled
                  {| CachingResult.value := raced_object res;
                     CachingResult.headers := raced_headers res;
                     CachingResult.update :=
                       ErrorObject (NoUpdateError "Cache stale, no update");
                     CachingResult.origin := FromFetch |})
         else and_then base (fun res => Fulfilled (raced_result res)),
         false)
      else if update then
        (Fulfilled
           {| CachingResult.value := raced_value r;
              CachingResult.headers := raced_headers r;
              CachingResult.update :=
                Channel
                  (and_then fetchResult
                     (fun f =>
                        if same_result cacheConfig f r
                        then Rejected
                               (NoUpdateError
                                  "Cache and fetch returned equal results")
                        else Fulfilled f));
              CachingResult.origin := FromFetch |},
         false)
      else (Fulfilled (raced_result r), negb staleWhileRevalidate)
  | None =>
      if update then
        (Fulfilled
           {| CachingResult.value := raced_value r;
              CachingResult.headers := raced_headers r;
              CachingResult.update :=
                Channel
                  (and_then fetchResult
                     (fun f =>
                        if same_result cacheConfig f r
                        then Rejected
                               (NoUpdateError
                                  "Cache and fetch returned equal results")
                        else Fulfilled f));
              CachingResult.origin := FromFetch |},
         false)
      else (Fulfilled (raced_result r), true)
  end.

(** Strategy [race]. *)
Definition fetch_race (input : RequestInfo) (init2 : RequestInit.t)
  (cache : C) (cacheConfig : CachingRequestConfig.t) : Run C :=
  let update := CachingRequestConfig.update cacheConfig in
  let cacheResult := cacheResult_race cache cacheConfig in
  let fetchResult := delegate_fetchJson delegate input init2 in
  let firstResult :=
    if cache_settles_first then raced_cache cacheResult
    else raced_fetch fetchResult in
  let recovered :=
    match firstResult with
    | Rejected _ => recover cacheResult fetchResult
    | Fulfilled r => Fulfilled r
    end in
  let '(returned, abort) :=
    match recovered with
    | Rejected e => (Rejected e, false)
    | Fulfilled RacedMiss =>
        (and_then fetchResult
           (fun f =>
              Fulfilled
                (fetched_result f
                   (if update then no_update "No cached result available"
                    else NoChannel))),
         false)
    | Fulfilled r => settle_raced cacheConfig cacheResult fetchResult r
    end in
  let aborted_in_flight :=
    abort && cache_settles_first
    && match firstResult with Fulfilled _ => true | Rejected _ => false end
    && delegate_cancels delegate input init2 in
  {| outcome := returned;
     calls := [Call_fetchJson input init2];
     cache_after :=
       Some (if aborted_in_flight then cache
             else write_through cache cacheConfig fetchResult);
     fetch_aborted := aborted_in_flight |}.

(** [fetchJson]; [cache] is what [_getAvailableCache] resolves to for the
    table and the active caches of the request. *)
Definition fetchJson (input : RequestInfo) (init : RequestInit.t)
  (cache : option C) : Run C :=
  match RequestInit.useCache init with
  | None => bypass input init cache
  | Some cacheConfig =>
      if bypassed cacheConfig then bypass input init cache
      else
        match cache with
        | None => bypass input init cache
        | Some cache =>
            let init2 := init in
            let mode := CachingRequestConfig.mode cacheConfig in
            if useCacheControl cacheConfig
            then fetch_cacheControl input init2 cache cacheConfig
            else if mode_is cacheConfig "fetchFirst"
            then fetch_fetchFirst input init2 cache cacheConfig
            else if mode_is cacheConfig "race"
            then fetch_race input init2 cache cacheConfig
            else
              {| outcome :=
                   Rejected
                     (OtherError ("Invalid cache mode " +:+ default "" mode));
                 calls := [];
                 cache_after := Some cache;
                 fetch_aborted := false |}
        end
  end.

End client.

End CachingClient.

(** ** cache.ts: the registry of cache providers *)

Module CacheRegistry.

(** The names every object literal inherits from [Object.prototype]; the
    [in] operator finds them. *)
Definition Object_prototype : list string :=
  ["constructor"; "__defineGetter__"; "__defineSetter__"; "hasOwnProperty";
   "__lookupGetter__"; "__lookupSetter__"; "isPrototypeOf";
   "propertyIsEnumerable"; "toString"; "valueOf"; "__proto__";
   "toLocaleString"].

(** [/[a-zA-Z]/.test(providerId.charAt(0))]. *)
Definition starts_with_letter (providerId : string) : bool :=
  match providerId with
  | String c _ => JsString.is_letter c
  | EmptyString => false
  end.

(** The ids that pass the two checks of [registerCacheProvider]. *)
Definition accepted_id (providerId : string) : bool :=
  starts_with_letter providerId
  && (Z.of_nat (String.length providerId) <=? 64).

(** The pattern of the specification, [/^[A-Za-z][A-Za-z0-9_-]{0,63}$/]. *)
Definition pattern_char (c : ascii) : bool :=
  JsString.is_letter c || JsString.is_digit c
  || Ascii.eqb c "_" || Ascii.eqb c "-".

Fixpoint all_chars (p : ascii -> bool) (s : string) : bool :=
  match s with
  | EmptyString => true
  | String c s' => p c && all_chars p s'
  end.

Definition matches_pattern (providerId : string) : bool :=
  match providerId with
  | String c rest =>
      JsString.is_letter c && all_chars pattern_char rest
      && (Z.of_nat (String.length rest) <=? 63)
  | EmptyString => false
  end.

(** What a call of [registerCacheProvider] does: it throws an [Error] with
    a message, or returns with the registry it leaves. *)
Inductive Registration (R : Type) :=
| Throws (message : string)
| Returns (factoryLoaders : R).
Arguments Throws {R} message.
Arguments Returns {R} factoryLoaders.

Section registry.

(** Loaders are functions, compared by identity with [!==]. *)
Context {Loader : Type} `{EqDecision Loader}.

(** [providerId in factoryLoaders]. *)
Definition has_property (factoryLoaders : gmap string Loader)
  (providerId : string) : bool :=
  bool_decide (is_Some (factoryLoaders !! providerId))
  || bool_decide (providerId ∈ Object_prototype).

(** [registerCacheProvider]; [factoryLoaders] holds the own properties of
    the exported record.  An inherited property is a built-in function and
    differs from every loader. *)
Definition registerCacheProvider (factoryLoaders : gmap string Loader)
  (providerId : string) (loader : Loader)
  : Registration (gmap string Loader) :=
  if negb (starts_with_letter providerId)
  then Throws ("Invalid character at position 0: " +:+ providerId)
  else if 64 <? Z.of_nat (String.length providerId)
  then Throws ("Provider id too long: " +:+ providerId)
  else if has_property factoryLoaders providerId
  then
    match factoryLoaders !! providerId with
    | Some registered =>
        if decide (loader = registered) then Returns factoryLoaders
        else Throws ("Cache provider with id " +:+ providerId
                     +:+ " already registered")
    | None =>
        Throws ("Cache provider with id " +:+ providerId
                +:+ " already registered")
    end
  else Returns (<[providerId := loader]> factoryLoaders).

End registry.

End CacheRegistry.

(** ** ResilientClient.ts: the retry callback and [Retry-After] *)

Module ResilientFetchClient.

Definition _DEFAULT_RETRY_AFTER_HEADERS : list string :=
  ["Retry-After"; "RateLimit-Reset"; "X-RateLimit-Reset"; "X-Rate-Limit-Reset"].

Definition retryAfterCodes : list Z := [429; 503].

(** A [Date] object: a time value in milliseconds, or an invalid date
    (whose [getTime()] is [NaN]). *)
Inductive JsDate :=
| ValidDate (time : Z)
| InvalidDate.

(** [new Date(t)] for a finite number [t]: the time value is [t] cut to an
    integer, and is [NaN] beyond 8.64e15 milliseconds. *)
Definition new_Date (t : Q) : JsDate :=
  let cut := if Qle_bool 0 t then Qfloor t else Qceiling t in
  if Z.abs cut <=? 8640000000000000 then ValidDate cut else InvalidDate.

(** The state that [_fetchInternal] keeps between the attempts of one
    call. *)
Record RetryState := {
  retryAfter : option JsDate;
  adaptedToRetryAfter : bool;
  defaultHeadersPending : bool
}.

Definition initial : RetryState :=
  {| retryAfter := None; adaptedToRetryAfter := false;
     defaultHeadersPending := true |}.

(** What one attempt meets: the clock when the delay is computed ([now],
    and [nowSpent] for the second reading), an abort that interrupts the
    sleep, what the underlying [_fetchInternal] settles to (the status and
    headers of a response, or an error), and the clock when the hint of
    the response is parsed. *)
Record Attempt := {
  now : Z;
  nowSpent : Z;
  sleepAborted : option Error;
  transport : Settled (Z * Headers.t);
  nowParsed : Z
}.

(** [diff > 0] where [diff] may be [NaN]. *)
Definition positive (diff : option Z) : bool :=
  match diff with
  | Some d => 0 <? d
  | None => false
  end.

(** The block [if (retryAfter) { ... }] at the start of an attempt, up to
    the sleep: the milliseconds to sleep ([None]: no sleep) and the flag
    [adaptedToRetryAfter] afterwards.  [totalTimeoutMillis] is
    [options.timeoutTotal]. *)
Definition retry_delay (totalTimeoutMillis : option Z) (startTime : Z)
  (state : RetryState) (now nowSpent : Z) : option Z * bool :=
  match retryAfter state with
  | None => (None, adaptedToRetryAfter state)
  | Some date =>
      let diff :=
        match date with
        | ValidDate time => Some (time - now)
        | InvalidDate => None
        end in
      let '(diff, adapted) :=
        if positive diff && positive totalTimeoutMillis
           && negb (adaptedToRetryAfter state)
        then
          let millisSpent := nowSpent - startTime in
          let millisAvailable := default 0 totalTimeoutMillis - millisSpent in
          if (0 <? millisAvailable)
             && (millisAvailable - 5000 <? default 0 diff)
          then
            let safetyMargin :=
              if 5000 <? millisAvailable then 5000 else millisAvailable in
            (Some (millisAvailable - safetyMargin), true)
          else (diff, adaptedToRetryAfter state)
        else (diff, adaptedToRetryAfter state) in
      (if positive diff then diff else None, adapted)
  end.

(** The delay that the hint asks for, without regard to the deadline. *)
Definition hinted_delay (state : RetryState) (now : Z) : option Z :=
  match retryAfter state with
  | Some (ValidDate time) => if 0 <? time - now then Some (time - now) else None
  | _ => None
  end.

Section with_platform.

(** [parseFloat] where its result is finite (the number as a rational),
    and the platform's date parser. *)
Variable parseFloat : string -> option Q.
Variable Date_parse : string -> option Z.

(** [_parseRetryAfterHeader]; [now] is [Date.now()]. *)
Definition _parseRetryAfterHeader (now : Z) (headers : Headers.t)
  : option JsDate :=
  match find (fun h => CachingClient.truthy_text (Headers.get headers h))
             _DEFAULT_RETRY_AFTER_HEADERS with
  | None => None
  | Some retryHeader =>
      let retryHeaderValue := default "" (Headers.get headers retryHeader) in
      match parseFloat retryHeaderValue with
      | Some asNumber =>
          Some (new_Date (inject_Z now + asNumber * inject_Z 1000)%Q)
      | None => ValidDate <$> Date_parse retryHeaderValue
      end
  end.

Variable totalTimeoutMillis : option Z.
Variable startTime : Z.

(** One run of the callback handed to [this.#policy.execute]: the sleep,
    the settlement of the attempt and the state it leaves. *)
Definition attempt (state : RetryState) (a : Attempt)
  : option Z * Settled (Z * Headers.t) * RetryState :=
  let '(sleep, adapted) :=
    retry_delay totalTimeoutMillis startTime state (now a) (nowSpent a) in
  let cleared :=
    {| retryAfter := None; adaptedToRetryAfter := adapted;
       defaultHeadersPending := defaultHeadersPending state |} in
  match sleep, sleepAborted a with
  | Some _, Some reason => (sleep, Rejected reason, cleared)
  | _, _ =>
      match transport a with
      | Rejected e => (sleep, Rejected e, cleared)
      | Fulfilled (status, headers) =>
          if bool_decide (status ∈ retryAfterCodes) then
            (sleep, Rejected (HttpError_responseStatus status),
             {| retryAfter := _parseRetryAfterHeader (nowParsed a) headers;
                adaptedToRetryAfter := adapted;
                defaultHeadersPending := false |})
          else
            (sleep, Fulfilled (status, headers),
             {| retryAfter := None; adaptedToRetryAfter := adapted;
                defaultHeadersPending := false |})
      end
  end.


End with_platform.

End ResilientFetchClient.

(** Requests, servers and caches of the kind the repository's tests set
    up, for evaluating the client on concrete runs. *)
Module Scenario.

Definition config (mode : option string) (update : bool)
  : CachingRequestConfig.t :=
  {| CachingRequestConfig.key := "a";
     CachingRequestConfig.table := Some "Test";
     CachingRequestConfig.mode := mode;
     CachingRequestConfig.defaultCacheControl := None;
     CachingRequestConfig.forcedCacheControl := None;
     CachingRequestConfig.activeCache := None;
     CachingRequestConfig.update := update;
     CachingRequestConfig.equal := None;
     CachingRequestConfig.cacheTimeout := None |}.

Definition request (cacheConfig : CachingRequestConfig.t) : RequestInit.t :=
  {| RequestInit.headers := None;
     RequestInit.method := None;
     RequestInit.useCache := Some cacheConfig |}.

Definition json_headers : Headers.t :=
  Headers.of_pairs [("Content-Type", "application/json")].

(** A server that answers every request with [headers] and [body]; an
    abort reaches its fetch in flight. *)
Definition answering (headers : Headers.t) (body : JsValue) : Delegate :=
  {| delegate_fetchJson := fun _ _ =>
       Fulfilled {| JsonResult.value := body;
                    JsonResult.headers := headers |};
     delegate_fetch := fun _ _ =>
       Fulfilled {| Response.status := 200;
                    Response.headers := headers;
                    Response.json := Fulfilled body |};
     delegate_cancels := fun _ _ => true |}.

Definition server (body : JsValue) : Delegate := answering json_headers body.

(** The response headers of the cache-control tests. *)
Definition with_cache_control (directives : string) : Headers.t :=
  Headers.of_pairs [("Content-Type", "application/json");
                    ("Cache-Control", directives)].

(** A pipeline on which every request fails with [e]. *)
Definition failing (e : Error) : Delegate :=
  {| delegate_fetchJson := fun _ _ => Rejected e;
     delegate_fetch := fun _ _ => Rejected e;
     delegate_cancels := fun _ _ => true |}.

Definition no_dates : string -> option Z := fun _ => None.

Definition memory : MemoryCache.t :=
  MemoryCache.new {| MemoryCache.cfg_maxItems := Some 5;
                     MemoryCache.cfg_cloneItems := false;
                     MemoryCache.cfg_deepCopy := None |}.

(** The cache after [set("a", value, new Headers(), cacheControl)] at time
    [now]. *)
Definition seeded (now : Z) (value : JsValue)
  (cacheControl : option CacheControl) : MemoryCache.t :=
  (MemoryCache.set memory now "a" value Headers.empty cacheControl).2.

(** Two [fetchJson] calls in cacheControl mode on the in-memory cache, the
    first at time 1000 answered with [body1], the second at time [later]
    answered with [body2]; both responses carry [headers]. *)
Definition two_calls (headers : Headers.t) (body1 body2 : JsValue) (later : Z)
  : Run MemoryCache.t * Run MemoryCache.t :=
  let call delegate now cache :=
    CachingClient.fetchJson no_dates delegate now true (Url "")
      (request (config None false)) cache in
  let first := call (answering headers body1) 1000 (Some memory) in
  (first, call (answering headers body2) later (cache_after first)).

Definition first_body : JsValue := JObj [("result", JStr "cacheTestResultStale1")].
Definition second_body : JsValue := JObj [("result", JStr "cacheTestResultFresh1")].

(** What the two calls return, and how often the second calls the
    transport. *)
Definition observed (runs : Run MemoryCache.t * Run MemoryCache.t)
  : option JsValue * option JsValue * nat :=
  (match outcome runs.1 with
   | Fulfilled result => Some (CachingResult.value result)
   | Rejected _ => None
   end,
   match outcome runs.2 with
   | Fulfilled result => Some (CachingResult.value result)
   | Rejected _ => None
   end,
   length (calls runs.2)).

(** [max-age=0, stale-if-error=10]. *)
Definition stale_if_error : CacheControl :=
  {| maxAge := Present (Some (Secs 0)); noCache := Absent; noStore := Absent;
     mustRevalidate := Absent; staleWhileRevalidate := Absent;
     staleIfError := Present (Some (Secs 10)) |}.

(** The value a fulfilled call returns. *)
Definition returned_value {C} (r : Run C) : option JsValue :=
  match outcome r with
  | Fulfilled result => Some (CachingResult.value result)
  | Rejected _ => None
  end.

End Scenario.

(** ** cache/MemoryCache.ts: the factory and sequences of calls *)

Module MemoryCacheUse.

(** [CacheConfiguration.maxItems]: a number, or a limit per table. *)
Inductive MaxItems :=
| MaxNumber (n : Z)
| MaxPerTable (limits : list (string * Z)).

(** [CacheConfiguration] as [MemoryCacheFactory] reads it; [cloneItems] is
    [None] unless it is a boolean, [deepCopy] unless it is a function. *)
Record CacheConfiguration := {
  config_maxItems : option MaxItems;
  config_cloneItems : option bool;
  config_deepCopy : option (JsValue -> JsValue)
}.

(** The private fields of [MemoryCacheFactory]. *)
Record Factory := {
  _config : CacheConfiguration;
  f_cloneItems : option bool;
  f_deepCopy : option (JsValue -> JsValue)
}.

(** The constructor of [MemoryCacheFactory]; [structuredClone] is the
    global function where the platform has one.  [None]: the constructor
    throws. *)
Definition new_factory (structuredClone : option (JsValue -> JsValue))
  (config : CacheConfiguration) : option Factory :=
  if default false (config_cloneItems config) then
    match config_deepCopy config, structuredClone with
    | Some f, _ | None, Some f =>
        Some {| _config := config; f_cloneItems := config_cloneItems config;
                f_deepCopy := Some f |}
    | None, None => None
    end
  else Some {| _config := config; f_cloneItems := config_cloneItems config;
               f_deepCopy := None |}.

(** The limit that [create] hands to the cache of [table]. *)
Definition table_limit (config : CacheConfiguration) (table : string)
  : option Z :=
  match config_maxItems config with
  | Some (MaxNumber n) => Some n
  | Some (MaxPerTable limits) =>
      snd <$> find (fun e : string * Z => String.eqb e.1 table) limits
  | None => None
  end.

(** [MemoryCacheFactory.create]. *)
Definition create (factory : Factory) (table : string) : MemoryCache.t :=
  MemoryCache.new
    {| MemoryCache.cfg_maxItems := table_limit (_config factory) table;
       MemoryCache.cfg_cloneItems := default false (f_cloneItems factory);
       MemoryCache.cfg_deepCopy := f_deepCopy factory |}.

(** [allKeys]: the keys of the map, in insertion order. *)
Definition allKeys (c : MemoryCache.t) : list string := (MemoryCache.cache c).*1.

(** The calls that change a cache. *)
Inductive Call :=
| DoSet (now : Z) (key : string) (value : JsValue) (headers : Headers.t)
      (cacheControl : option CacheControl)
| DoDelete (key : string)
| DoClear.

Definition call (c : MemoryCache.t) (op : Call) : MemoryCache.t :=
  match op with
  | DoSet now key value headers cacheControl =>
      (MemoryCache.set c now key value headers cacheControl).2
  | DoDelete key => (MemoryCache.delete c key).2
  | DoClear => (MemoryCache.clear c).2
  end.

(** A cache after a sequence of calls. *)
Definition after (c : MemoryCache.t) (ops : list Call) : MemoryCache.t :=
  foldl call c ops.

(** The cache is full: [this.#maxItems && this.#cache.size >= this.#maxItems]. *)
Definition full (c : MemoryCache.t) : bool :=
  match MemoryCache.maxItems c with
  | Some n => negb (n =? 0) && (n <=? MemoryCache.Map_size (MemoryCache.cache c))
  | None => false
  end.

(** The entries that [set] keeps before it stores the new one: on a full
    cache the oldest key is deleted. *)
Definition evicted (c : MemoryCache.t) : MemoryCache.Map :=
  if full c
  then match MemoryCache.cache c with
       | (first, _) :: _ => MemoryCache.Map_delete (MemoryCache.cache c) first
       | [] => MemoryCache.cache c
       end
  else MemoryCache.cache c.

(** The oldest key. *)
Definition firstKey (c : MemoryCache.t) : option string :=
  fst <$> head (MemoryCache.cache c).

(** What holds of every cache: its keys are distinct, and a limit is
    positive and respected. *)
Definition sound (c : MemoryCache.t) : Prop :=
  NoDup (allKeys c)
  ∧ ∀ n, MemoryCache.maxItems c = Some n →
      0 < n ∧ MemoryCache.Map_size (MemoryCache.cache c) <= n.

(** Every entry is stored under its own key, which is not empty. *)
Definition keyed (c : MemoryCache.t) : Prop :=
  ∀ k e, (k, e) ∈ MemoryCache.cache c → CachedObject.key e = k ∧ k ≠ "".

End MemoryCacheUse.

(** ** SimpleClient.ts: requests *)

(** [RequestInit & JsonRequestOptions] as the simple client reads it; a
    flag is [false] where the property is absent or falsy. *)
Module JsonRequestInit.
Record t := {
  headers : option HeadersInit;
  method : option string;
  skipFailOnErrorCode : bool;
  skipAcceptHeader : bool;
  skipContentTypeHeaderValidation : bool
}.

(** The object [{}]. *)
Definition empty : t :=
  {| headers := None; method := None; skipFailOnErrorCode := false;
     skipAcceptHeader := false; skipContentTypeHeaderValidation := false |}.

Definition with_headers (init : t) (headers : option HeadersInit) : t :=
  {| headers := headers; method := method init;
     skipFailOnErrorCode := skipFailOnErrorCode init;
     skipAcceptHeader := skipAcceptHeader init;
     skipContentTypeHeaderValidation := skipContentTypeHeaderValidation init |}.
End JsonRequestInit.

Module SimpleClient.

Definition slash : ascii := "/"%char.

(** [s.endsWith(c)] and [s.startsWith(c)] for a one-character [c]. *)
Fixpoint ends_with (c : ascii) (s : string) : bool :=
  match s with
  | EmptyString => false
  | String a EmptyString => Ascii.eqb a c
  | String _ s' => ends_with c s'
  end.

Definition starts_with (c : ascii) (s : string) : bool :=
  match s with
  | String a _ => Ascii.eqb a c
  | EmptyString => false
  end.

(** [s.substring(1)]. *)
Definition substring1 (s : string) : string :=
  match s with
  | String _ s' => s'
  | EmptyString => EmptyString
  end.

(** [_concatPaths]. *)
Definition _concatPaths (s1 : option string) (s2 : string) : string :=
  match s1 with
  | None => s2
  | Some s1 =>
      if negb (JsString.truthy s1) then s2
      else if negb (JsString.truthy s2) then s1
      else
        let endsWith := ends_with slash s1 in
        let startsWith := starts_with slash s2 in
        if negb endsWith && negb startsWith then (s1 +:+ "/") +:+ s2
        else if endsWith && startsWith then s1 +:+ substring1 s2
        else s1 +:+ s2
  end.

(** [Object.keys(headers).length === 0]: a [Headers] instance has no own
    enumerable property; an array has its indices, a record its names. *)
Definition no_keys (headers : HeadersInit) : bool :=
  match headers with
  | InitHeaders _ => true
  | InitPairs [] => true
  | InitPairs (_ :: _) => false
  end.

(** [(init?.method || url?.method || "GET")?.toUpperCase()]. *)
Definition request_method (url : RequestInfo) (method : option string)
  : string :=
  JsString.toUpperCase
    (match method with
     | Some m =>
         if JsString.truthy m then m
         else match CachingClient.input_method url with
              | Some m' => if JsString.truthy m' then m' else "GET"
              | None => "GET"
              end
     | None =>
         match CachingClient.input_method url with
         | Some m' => if JsString.truthy m' then m' else "GET"
         | None => "GET"
         end
     end).

(** The array [updates] that [_applyDefaultHeaders] collects. *)
Definition default_updates (method : string)
  (defaultHeaders : option HeadersInit)
  (defaultHeadersByMethod : option (list (string * HeadersInit)))
  : list HeadersInit :=
  let headersEmpty :=
    match defaultHeaders with
    | Some d => no_keys d
    | None => true
    end in
  let headersByMethodEmpty :=
    match defaultHeadersByMethod with
    | Some (_ :: _) => false
    | _ => true
    end in
  (if headersEmpty then [] else option_list defaultHeaders)
  ++ (if headersByMethodEmpty then []
      else
        match find (fun e : string * HeadersInit => String.eqb e.1 method)
                   (default [] defaultHeadersByMethod) with
        | Some (_, u) => if no_keys u then [] else [u]
        | None => []
        end).

(** [_applyDefaultHeaders]: the value of [init.headers] afterwards. *)
Definition _applyDefaultHeaders (headers : option HeadersInit)
  (method : string) (defaultHeaders : option HeadersInit)
  (defaultHeadersByMethod : option (list (string * HeadersInit)))
  : option HeadersInit :=
  SimpleFetchClient._mergeHeaders headers
    (default_updates method defaultHeaders defaultHeadersByMethod).

(** The private fields of [SimpleFetchClient]; [fetch] is the transport
    ([#fetch]): what it settles to for a request. *)
Record Client := {
  fetch_transport : RequestInfo -> JsonRequestInit.t -> Settled Response.t;
  baseUrl : option string;
  defaultHeaders : option HeadersInit;
  defaultHeadersByMethod : option (list (string * HeadersInit));
  skipFailOnErrorCode : bool;
  closed : bool
}.

(** [resp.ok]: the status is in the range 200 to 299. *)
Definition ok (status : Z) : bool := (200 <=? status) && (status <=? 299).

(** The test before [_throwHttpError] in [_fetchInternal]. *)
Definition fails_on_status (clientSkip initSkip : bool)
  (skipThrowOnCodes : option (list Z)) (status : Z) : bool :=
  negb (ok status) && negb clientSkip && negb initSkip
  && negb (bool_decide (status ∈ default [] skipThrowOnCodes)).

(** The headers that [_fetchInternal] leaves in [init] and sends. *)
Definition sent_headers (url : RequestInfo) (init : JsonRequestInit.t)
  (defaultHeaders : option HeadersInit)
  (defaultHeadersByMethod : option (list (string * HeadersInit)))
  : option HeadersInit :=
  if bool_decide (is_Some defaultHeaders)
     || bool_decide (is_Some defaultHeadersByMethod)
  then _applyDefaultHeaders (JsonRequestInit.headers init)
         (request_method url (JsonRequestInit.method init))
         defaultHeaders defaultHeadersByMethod
  else JsonRequestInit.headers init.

(** [_fetchInternal]: the request handed to the transport and the
    settlement of the returned promise. *)
Definition _fetchInternal (client : Client) (url : RequestInfo)
  (init : JsonRequestInit.t) (defaultHeaders : option HeadersInit)
  (defaultHeadersByMethod : option (list (string * HeadersInit)))
  (skipThrowOnCodes : option (list Z))
  : (RequestInfo * JsonRequestInit.t) * Settled Response.t :=
  let init :=
    JsonRequestInit.with_headers init
      (sent_headers url init defaultHeaders defaultHeadersByMethod) in
  ((url, init),
   match fetch_transport client url init with
   | Rejected e => Rejected e
   | Fulfilled resp =>
       if fails_on_status (skipFailOnErrorCode client)
            (JsonRequestInit.skipFailOnErrorCode init) skipThrowOnCodes
            (Response.status resp)
       then Rejected (HttpError_responseStatus (Response.status resp))
       else Fulfilled resp
   end).

Definition _endpointForInput (input : RequestInfo) : string :=
  match input with
  | Url url => url
  | Request url _ _ => url
  end.

(** [fetch]: the requests handed to the transport and the settlement; a
    closed client throws. *)
Definition fetch (client : Client) (input : RequestInfo)
  (init : option JsonRequestInit.t)
  : list (RequestInfo * JsonRequestInit.t) * Settled Response.t :=
  if closed client then ([], Rejected (OtherError "Client has been closed"))
  else
    let endpoint := _endpointForInput input in
    let url := _concatPaths (baseUrl client) endpoint in
    let init := default JsonRequestInit.empty init in
    let '(request, result) :=
      _fetchInternal client
        (match input with
         | Request _ _ _ => input
         | Url _ => Url url
         end)
        init (defaultHeaders client) (defaultHeadersByMethod client) None in
    ([request], result).

(** [s.indexOf(part) >= 0]. *)
Fixpoint includes (part s : string) : bool :=
  String.prefix part s
  || match s with
     | EmptyString => false
     | String _ s' => includes part s'
     end.

(** The content type that [fetchJson] accepts. *)
Definition json_content_type (headers : Headers.t) : bool :=
  match Headers.get headers "Content-Type" with
  | Some contentType =>
      JsString.truthy contentType && includes "application/" contentType
      && includes "json" contentType
  | None => false
  end.

(** The [init] that [fetchJson] hands to [fetch]. *)
Definition json_init (client : Client) (input : RequestInfo)
  (init : option JsonRequestInit.t) : option JsonRequestInit.t :=
  let skipAccept := from_option JsonRequestInit.skipAcceptHeader false init in
  let headers := init ≫= JsonRequestInit.headers in
  let method := init ≫= JsonRequestInit.method in
  if negb skipAccept
     && negb (SimpleFetchClient._acceptHeaderSpecified
                (CachingClient.input_headers input) headers
                (request_method input method)
                (defaultHeaders client) (defaultHeadersByMethod client))
  then
    let init := default JsonRequestInit.empty init in
    let copy := bool_decide (is_Some (JsonRequestInit.headers init)) in
    Some (JsonRequestInit.with_headers init
            (Some (SimpleFetchClient._applyHeader "Accept" "application/json"
                     (default (InitPairs []) (JsonRequestInit.headers init))
                     copy)))
  else init.

(** [fetchJson]. *)
Definition fetchJson (client : Client) (input : RequestInfo)
  (init : option JsonRequestInit.t)
  : list (RequestInfo * JsonRequestInit.t) * Settled JsonResult.t :=
  let init := json_init client input init in
  let '(requests, resp) := fetch client input init in
  (requests,
   match resp with
   | Rejected e => Rejected e
   | Fulfilled resp =>
       if negb (from_option JsonRequestInit.skipContentTypeHeaderValidation
                  false init)
          && negb (json_content_type (Response.headers resp))
       then Rejected HttpError_contentType
       else
         match Response.json resp with
         | Rejected e => Rejected e
         | Fulfilled json =>
             Fulfilled {| JsonResult.value := json;
                          JsonResult.headers := Response.headers resp |}
         end
   end).

End SimpleClient.

(** ** ResilientClient.ts: the requests of one call *)

Module ResilientClient.
Import SimpleClient ResilientFetchClient.

(** What one run of the callback meets: the clock readings, an abort that
    interrupts the sleep, and what the transport settles to for a
    request. *)
Record Try := {
  try_now : Z;
  try_nowSpent : Z;
  try_sleepAborted : option Error;
  try_fetch : RequestInfo -> JsonRequestInit.t -> Settled Response.t;
  try_nowParsed : Z
}.

Definition settled_response (r : Settled Response.t)
  : Settled (Z * Headers.t) :=
  match r with
  | Fulfilled resp => Fulfilled (Response.status resp, Response.headers resp)
  | Rejected e => Rejected e
  end.

Definition as_attempt (t : Try) (settled : Settled Response.t) : Attempt :=
  {| now := try_now t; nowSpent := try_nowSpent t;
     sleepAborted := try_sleepAborted t;
     transport := settled_response settled;
     nowParsed := try_nowParsed t |}.

(** The fields that the constructor hands to [super(...)]: no
    [skipFailOnErrorCode]. *)
Definition super (fetch : RequestInfo -> JsonRequestInit.t -> Settled Response.t)
  (baseUrl : option string) (defaultHeaders : option HeadersInit)
  (defaultHeadersByMethod : option (list (string * HeadersInit))) : Client :=
  {| fetch_transport := fetch; SimpleClient.baseUrl := baseUrl;
     SimpleClient.defaultHeaders := defaultHeaders;
     SimpleClient.defaultHeadersByMethod := defaultHeadersByMethod;
     skipFailOnErrorCode := false; closed := false |}.

(** One try of a call: the sleep, the request handed to the transport (none
    when the sleep is aborted) and the settlement of the callback. *)
Record Tried := {
  slept : option Z;
  request : option (RequestInfo * JsonRequestInit.t);
  settled : Settled (Z * Headers.t)
}.

Section call.

Variable parseFloat : string -> option Q.
Variable Date_parse : string -> option Z.
Variable totalTimeoutMillis : option Z.
Variable startTime : Z.
Variable baseUrl : option string.
Variable defaultHeaders : option HeadersInit.
Variable defaultHeadersByMethod : option (list (string * HeadersInit)).
Variable url : RequestInfo.

(** The tries of one call of the overriding [_fetchInternal], as the retry
    policy makes them until one resolves; [init] is the object that all of
    them share and that [super._fetchInternal] updates. *)
Fixpoint tries (state : RetryState) (init : JsonRequestInit.t)
  (todo : list Try) : list Tried :=
  match todo with
  | [] => []
  | t :: rest =>
      let pending := defaultHeadersPending state in
      let '(sent, response) :=
        _fetchInternal
          (super (try_fetch t) baseUrl defaultHeaders defaultHeadersByMethod)
          url init
          (if pending then defaultHeaders else None)
          (if pending then defaultHeadersByMethod else None)
          (Some retryAfterCodes) in
      let '(sleep, result, state') :=
        attempt parseFloat Date_parse totalTimeoutMillis startTime state
          (as_attempt t response) in
      let fetched :=
        negb (bool_decide (is_Some sleep)
              && bool_decide (is_Some (try_sleepAborted t))) in
      {| slept := sleep;
         request := if fetched then Some sent else None;
         settled := result |}
      :: match result with
         | Fulfilled _ => []
         | Rejected _ => tries state' (if fetched then sent.2 else init) rest
         end
  end.

End call.

End ResilientClient.

(** ** cache/CachingClient.ts: the calls of the wrapped client *)

Module CachingCalls.

(** What the wrapped client settles a call to, as far as the cache is
    concerned: the call failed. *)
Definition call_failed (delegate : Delegate) (call : DelegateCall) : Prop :=
  match call with
  | Call_fetchJson input init =>
      ∃ e, delegate_fetchJson delegate input init = Rejected e
  | Call_fetch input init =>
      ∃ e, delegate_fetch delegate input init = Rejected e
  end.

(** A backend on which every call fails, as a store that cannot be
    opened. *)
Definition broken_cache (e : Error) : ObjectCache unit :=
  {| cache_available := fun _ => true;
     cache_get := fun _ _ => Rejected e;
     cache_set := fun c _ _ _ _ _ => (Rejected e, c) |}.


End CachingCalls.

(** ** cache/CachingClient.ts: comparing results *)

Module JsonValues.

(** The values that [JSON.parse] yields, with their property names as an
    object holds them: no name twice. *)
Fixpoint distinct_names (v : JsValue) : bool :=
  match v with
  | JArr items => forallb distinct_names items
  | JObj fields =>
      bool_decide (NoDup fields.*1)
      && forallb (fun e : string * JsValue => let (_, x) := e in distinct_names x)
                 fields
  | _ => true
  end.

(** The loop [for (const key in obj1)] of [deepEqual] over the properties
    of an object, and over the items of an array from [index] on. *)
Definition same_properties (fields1 fields2 : list (string * JsValue)) : bool :=
  forallb (fun e : string * JsValue =>
             match CachingClient.property fields2 e.1 with
             | Some v2 => CachingClient.deepEqual e.2 v2
             | None => false
             end) fields1.

Fixpoint same_items (index : nat) (items : list JsValue)
  (fields2 : list (string * JsValue)) : bool :=
  match items with
  | [] => true
  | v1 :: rest =>
      match CachingClient.property fields2 (pretty.pretty index) with
      | Some v2 => CachingClient.deepEqual v1 v2 && same_items (S index) rest fields2
      | None => false
      end
  end.

End JsonValues.

(** ** cache/CacheBase.ts and cache/IndexedDbCache.ts: stored headers *)

Module CacheBase.

(** A record with string values: its own properties in the order in which
    they were created; an assignment to a name that exists replaces the
    value. *)
Abbreviation Record := (list (string * string)).

Fixpoint Record_get (record : Record) (key : string) : option string :=
  match record with
  | [] => None
  | (k, v) :: rest => if String.eqb k key then Some v else Record_get rest key
  end.

Fixpoint Record_set (record : Record) (key value : string) : Record :=
  match record with
  | [] => [(key, value)]
  | (k, v) :: rest =>
      if String.eqb k key then (k, value) :: rest
      else (k, v) :: Record_set rest key value
  end.

(** The callback of [headers.forEach] in [serializeHeaders]. *)
Definition serialize_entry (result : Record) (entry : string * string)
  : Record :=
  let (key, value) := entry in
  if String.prefix "__" key then result else Record_set result key value.

(** [CacheBase.serializeHeaders]. *)
Definition serializeHeaders (headers : Headers.t) : Record :=
  foldl serialize_entry [] (Headers.entries headers).

(** The headers that [IndexedDbCache.get] hands out for an entry that
    [IndexedDbCache.set] stored with [headers]:
    [new Headers(serializeHeaders(headers))]. *)
Definition stored_headers (headers : Headers.t) : Headers.t :=
  new_Headers (InitPairs (serializeHeaders headers)).

(** The names of a [Headers] object are in lower case. *)
Definition lower_case_names (headers : Headers.t) : Prop :=
  ∀ name values, headers !! name = Some values → Headers.key name = name.

(** The value that a run of [forEach] over [entries] hands out last for
    [name]. *)
Definition latest (name : string) (seen : option string)
  (entries : list (string * string)) : option string :=
  foldl (fun acc (e : string * string) =>
           if String.eqb e.1 name then Some e.2 else acc) seen entries.

(** The pairs that the iteration hands out for one name of the list. *)
Definition handed_out (kv : string * list string) : list (string * string) :=
  let (name, values) := kv in
  if String.eqb name "set-cookie"
  then map (fun v => (name, v)) values
  else match values with
       | [] => []
       | _ => [(name, Headers.combine values)]
       end.

End CacheBase.

(** ** cache.ts: sequences of registrations *)

Module CacheRegistrations.
Import CacheRegistry.

Section registry.

Context {Loader : Type} `{EqDecision Loader}.

(** The registry after one call, whether it returns or throws. *)
Definition registered (factoryLoaders : gmap string Loader)
  (call : string * Loader) : gmap string Loader :=
  match registerCacheProvider factoryLoaders call.1 call.2 with
  | Returns factoryLoaders' => factoryLoaders'
  | Throws _ => factoryLoaders
  end.

(** The registry after a sequence of calls of [registerCacheProvider]. *)
Definition register_all (factoryLoaders : gmap string Loader)
  (calls : list (string * Loader)) : gmap string Loader :=
  foldl registered factoryLoaders calls.

End registry.

End CacheRegistrations.

(** * Verified properties *)

(** ** Strings *)

Module JsStringFacts.
Import JsString.





Lemma trim_end_length p s :
  (String.length (trim_end p s) <= String.length s)%nat.
Proof.
  induction s as [|c s IH]; simpl; [lia|].
  destruct (trim_end p s); [destruct (p c)|]; simpl in *; lia.
Qed.


Lemma trim_end_fixed p s :
  String.length (trim_end p s) = String.length s -> trim_end p s = s.
Proof.
  induction s as [|c s IH]; simpl; [reflexivity|].
  pose proof (trim_end_length p s) as L.
  destruct (trim_end p s) as [|d t] eqn:E.
  - destruct (p c); simpl; intros H; [lia|].
    destruct s; [reflexivity|simpl in H; lia].
  - simpl in *. intros H. f_equal. apply IH. lia.
Qed.






End JsStringFacts.

(** ** The default-header merge *)

Module MergeHeaders.
Import SimpleFetchClient.

Section merge_facts.
Implicit Types (v w : string) (vs : list string) (held : option (list string)).

Lemma append_assoc (a b c : string) : (a +:+ b) +:+ c = a +:+ (b +:+ c).
Proof.
  induction a as [|x a IH]; [reflexivity|].
  change (String x ((a +:+ b) +:+ c) = String x (a +:+ (b +:+ c))).
  by rewrite IH.
Qed.

Lemma combine_snoc vs w :
  vs ≠ [] →
  Headers.combine (vs ++ [w]) = Headers.combine vs +:+ String JsString.comma (String " " w).
Proof.
  unfold Headers.combine.
  induction vs as [|x [|y vs] IH]; intros Hne; [done| |].
  - reflexivity.
  - change (String.concat ", " ((x :: y :: vs) ++ [w]))
      with (x +:+ ", " +:+ String.concat ", " ((y :: vs) ++ [w])).
    rewrite IH by done.
    change (String.concat ", " (x :: y :: vs))
      with (x +:+ ", " +:+ String.concat ", " (y :: vs)).
    by rewrite !append_assoc.
Qed.



















Lemma merge_entry_lookup (r : Headers.t) k v name :
  merge_entry r (k, v) !! name =
  if decide (Headers.key k = name) then merge_key (r !! name) v else r !! name.
Proof.
  unfold merge_entry, merge_key, Headers.delete, Headers.get, Headers.append.
  destruct (decide (Headers.key k = name)) as [<-|Hne].
  - destruct (is_placeholder v); [by rewrite lookup_delete_eq|].
    destruct (r !! Headers.key k) as [[|x xs]|] eqn:E; simpl.
    + by rewrite lookup_insert_eq.
    + destruct (JsString.truthy _ && listed _ v); [done|].
      by rewrite lookup_insert_eq.
    + by rewrite lookup_insert_eq.
  - destruct (is_placeholder v); [by rewrite lookup_delete_ne|].
    destruct (r !! Headers.key k) as [[|x xs]|] eqn:E; simpl.
    + by rewrite lookup_insert_ne.
    + destruct (JsString.truthy _ && listed _ v); [done|].
      by rewrite lookup_insert_ne.
    + by rewrite lookup_insert_ne.
Qed.

Lemma fold_merge_entry_lookup ops (r : Headers.t) name :
  foldl merge_entry r ops !! name = foldl merge_key (r !! name) (values_for name ops).
Proof.
  revert r. induction ops as [|[k v] ops IH]; intros r; [done|].
  change (foldl merge_entry r ((k, v) :: ops))
    with (foldl merge_entry (merge_entry r (k, v)) ops).
  rewrite IH, merge_entry_lookup. unfold values_for.
  rewrite filter_cons.
  change ((k, v).1) with k.
  destruct (decide (Headers.key k = name)); reflexivity.
Qed.




End merge_facts.







End MergeHeaders.

(** ** The in-memory cache *)

Module MemoryCacheFacts.
Import MemoryCache.

Lemma Map_get_set_same (m : Map) key value :
  Map_get (Map_set m key value) key = Some value.
Proof.
  induction m as [|[k v] m IH]; simpl.
  - by rewrite String.eqb_refl.
  - destruct (String.eqb k key) eqn:E; simpl; rewrite E; [done|exact IH].
Qed.

Lemma set_rejected (c : t) now key value headers cacheControl :
  key = "" ∨ value = JUndefined →
  set c now key value headers cacheControl = (false, c).
Proof.
  intros [-> | ->]; unfold set; [done|]. by destruct key.
Qed.

Lemma set_accepted (c : t) now key value headers cacheControl :
  key ≠ "" → value ≠ JUndefined →
  ∃ m, set c now key value headers cacheControl
       = (true,
          {| cache :=
               Map_set m key
                 {| CachedObject.key := key;
                    CachedObject.updated := now;
                    CachedObject.value := copy c value;
                    CachedObject.headers := headers;
                    CachedObject.cacheControl := cacheControl |};
             maxItems := maxItems c;
             deepCopy := deepCopy c |}).
Proof.
  intros Hk Hv. unfold set.
  destruct key as [|a key]; [done|].
  destruct value; try done; eexists; reflexivity.
Qed.

(** C10.  For every in-memory cache whose [deepCopy], when cloning is
    configured, hands back a copy that equals its argument: [set] with the
    empty key or the value [undefined] resolves to [false] and leaves the
    cache as it was, so that every key maps to the entry it mapped to
    before; any other [set] resolves to [true], and [get] of the key then
    yields an entry whose value is the stored value. *)
Theorem set_then_get (c : t) (now : Z) (key : string) (value : JsValue)
  (headers : Headers.t) (cacheControl : option CacheControl) :
  (∀ f v, deepCopy c = Some f → f v = v) →
  (key = "" ∨ value = JUndefined →
     (set c now key value headers cacheControl).1 = false
     ∧ (set c now key value headers cacheControl).2 = c
     ∧ ∀ k, get (set c now key value headers cacheControl).2 k = get c k)
  ∧ (key ≠ "" → value ≠ JUndefined →
     (set c now key value headers cacheControl).1 = true
     ∧ ∃ entry,
         get (set c now key value headers cacheControl).2 key = Some entry
         ∧ CachedObject.value entry = value).
Proof.
  intros Hcopy. split.
  - intros Hbad. by rewrite (set_rejected _ _ _ _ _ _ Hbad).
  - intros Hk Hv.
    destruct (set_accepted c now key value headers cacheControl Hk Hv)
      as [m ->].
    split; [done|]. unfold get. simpl. rewrite Map_get_set_same.
    unfold copy. destruct (deepCopy c) as [f|] eqn:E.
    + eexists. split; [reflexivity|]. simpl.
      by rewrite !(Hcopy f _ eq_refl).
    + eexists. split; [reflexivity|]. done.
Qed.

Lemma set_then_get_witness :
  let c := new {| cfg_maxItems := Some 1; cfg_cloneItems := true;
                  cfg_deepCopy := Some (fun v => v) |} in
  let c1 := (set c 10 "a" (JStr "first") Headers.empty None).2 in
  (∀ f v, deepCopy c1 = Some f → f v = v)
  ∧ (set c1 20 "b" (JNum 7) Headers.empty None).1 = true
  ∧ (set c1 30 "" (JNum 7) Headers.empty None).2 = c1.
Proof.
  cbv zeta.
  assert (Hcopy : ∀ f v,
    deepCopy (set (new {| cfg_maxItems := Some 1; cfg_cloneItems := true;
                          cfg_deepCopy := Some (fun v => v) |})
                10 "a" (JStr "first") Headers.empty None).2 = Some f →
    f v = v).
  { intros f v Hf. simpl in Hf. injection Hf as <-. reflexivity. }
  split; [exact Hcopy|].
  split.
  - refine (proj1 (proj2 (set_then_get _ 20 "b" (JNum 7) Headers.empty None
                            Hcopy) _ _)); discriminate.
  - refine (proj1 (proj2 (proj1 (set_then_get _ 30 "" (JNum 7) Headers.empty
                                   None Hcopy) _))).
    by left.
Defined.

End MemoryCacheFacts.

(** ** Cache-control parsing and freshness *)

Module CacheControlFacts.
Import CacheControlEval.

(** A lookup in the millisecond of the write sees the entry as fresh:
    [now <= validUntil] holds with equality. *)
Lemma max_age_zero_fresh_in_same_millisecond :
  only_max_age_zero (effectiveCacheControl (Some max_age_zero) no_options)
  ∧ 1000 >= 1000
  ∧ state (_cacheState 1000 1000 (Some max_age_zero) no_options) = FRESH
  ∧ state (_cacheState 1000 1000 (Some max_age_zero) no_options) ≠ STALE.
Proof. repeat split; try reflexivity; try lia; discriminate. Qed.

(** C6 (amended).  An entry whose effective record has [maxAge = 0] and
    none of [noStore], [noCache], [mustRevalidate] is classified Stale at
    every lookup time after the millisecond of its time stamp
    ([updated < now]); up to that millisecond ([now <= updated]) it is
    Fresh. *)
Theorem max_age_zero_stale_after_write (now updated : Z)
  (own : option CacheControl) (options : CacheStateOptions) :
  only_max_age_zero (effectiveCacheControl own options) →
  (updated < now → state (_cacheState now updated own options) = STALE)
  ∧ (now <= updated → state (_cacheState now updated own options) = FRESH).
Proof.
  intros (Hmax & Hstore & Hcache & Hmust). unfold _cacheState.
  rewrite Hstore, Hmax, Hmust. simpl. rewrite Hcache.
  rewrite Z.add_0_r. split; intros Hnow.
  - by replace (now <=? updated) with false by lia.
  - by replace (now <=? updated) with true by lia.
Qed.

Lemma max_age_zero_stale_after_write_witness :
  only_max_age_zero (effectiveCacheControl (Some max_age_zero) no_options)
  ∧ state (_cacheState 1001 1000 (Some max_age_zero) no_options) = STALE.
Proof.
  assert (H : only_max_age_zero
                (effectiveCacheControl (Some max_age_zero) no_options)).
  { repeat split. }
  split; [exact H|].
  apply (max_age_zero_stale_after_write 1001 1000 _ _ H). lia.
Defined.

Lemma has_of_get (headers : Headers.t) name text :
  Headers.get headers name = Some text → Headers.has headers name = true.
Proof.
  unfold Headers.get, Headers.has.
  by destruct (headers !! Headers.key name) as [[|v vs]|].
Qed.

Lemma clamp_at_zero (n : Z) : (if n <=? 0 then 0 else n) = Z.max 0 n.
Proof. destruct (n <=? 0) eqn:E; lia. Qed.

Lemma to_double_exact (z : Z) :
  Z.abs z <= 2 ^ 53 → JsNumber.to_double z = z.
Proof.
  intros Hz. unfold JsNumber.to_double.
  destruct (decide (Z.abs z = 2 ^ 53)) as [Htop|Hbelow].
  - assert (z = 2 ^ 53 ∨ z = - 2 ^ 53) as [-> | ->] by lia; reflexivity.
  - assert (Z.log2 (Z.abs z) < 53) as Hbits.
    { destruct (decide (Z.abs z = 0)) as [-> |Hzero]; [done|].
      apply Z.log2_lt_pow2; lia. }
    by replace (Z.log2 (Z.abs z) - 52 <=? 0) with true by lia.
Qed.

(** The difference of two doubles is a double: from [2^53] on the code
    does not hold [N - A] but the double nearest to it.  With
    [max-age=18014398509481984] (that is [2^54]) and [Age: 1] the record
    has [maxAge = 2^54], not [2^54 - 1]. *)
Lemma max_age_minus_age_is_rounded :
  let headers :=
    Headers.of_pairs [("Cache-Control", "max-age=18014398509481984");
                      ("Age", "1")] in
  JsNumber.parseInt "18014398509481984" = Some 18014398509481984
  ∧ JsNumber.isFinite (Some 18014398509481984) = true
  ∧ JsNumber.parseInt_opt (Headers.get headers "Age") = Some 1
  ∧ maxAge <$> _evaluateCacheControl (fun _ => None) 0 headers
    = Some (Present (Some (Secs 18014398509481984)))
  ∧ Z.max 0 (18014398509481984 - 1) = 18014398509481983.
Proof. cbv zeta. repeat split; vm_compute; reflexivity. Qed.

(** C7 (amended).  For every response headers map whose [Cache-Control]
    header has the directive [max-age=N], [N] being the finite number that
    [parseInt] reads: when the [Age] header parses to a finite number [A],
    the parser produces a record with [maxAge = max(0, D)] where [D] is the
    double nearest to [N - A]; this is [max(0, N - A)] whenever
    [|N - A| <= 2^53], so for all [N] and [A] between 0 and [2^53].  When
    [Age] is absent or does not parse to a finite number,
    [maxAge = max(0, N)].  (With several [max-age] directives, the one that
    decides is the last, as in the object built from the header.) *)
Theorem evaluateCacheControl_max_age (Date_parse : string → option Z)
  (now : Z) (headers : Headers.t) (cacheControl text : string) (N : Z) :
  Headers.get headers "Cache-Control" = Some cacheControl →
  directive (directive_entries cacheControl) "max-age" = Some (DText text) →
  JsNumber.parseInt text = Some N →
  JsNumber.isFinite (Some N) = true →
  ∃ result,
    _evaluateCacheControl Date_parse now headers = Some result
    ∧ (∀ A, JsNumber.parseInt_opt (Headers.get headers "Age") = Some A →
            JsNumber.isFinite (Some A) = true →
            maxAge result
            = Present (Some (Secs (Z.max 0 (JsNumber.to_double (N - A)))))
            ∧ (Z.abs (N - A) <= 2 ^ 53 →
               maxAge result = Present (Some (Secs (Z.max 0 (N - A))))))
    ∧ (JsNumber.isFinite (JsNumber.parseInt_opt (Headers.get headers "Age"))
       = false →
       maxAge result = Present (Some (Secs (Z.max 0 N)))).
Proof.
  intros Hget Hdir Hparse Hfin. unfold _evaluateCacheControl.
  rewrite (has_of_get _ _ _ Hget), Hget.
  change (negb true) with false. cbv iota zeta.
  change (default "" (Some cacheControl)) with cacheControl.
  rewrite Hdir. unfold directive_int. rewrite Hparse, Hfin.
  change (default 0 (Some N)) with N.
  eexists. split; [reflexivity|]. cbv [maxAge]. split.
  - intros A HA HfinA. rewrite HA, HfinA.
    change (default 0 (Some A)) with A. unfold JsNumber.minus.
    rewrite clamp_at_zero. split; [done|].
    intros Hexact. by rewrite to_double_exact.
  - intros Hage. rewrite Hage. by rewrite clamp_at_zero.
Qed.

Lemma evaluateCacheControl_max_age_witness :
  let headers :=
    Headers.of_pairs [("Cache-Control", "public, max-age=600"); ("Age", "100")] in
  Headers.get headers "Cache-Control" = Some "public, max-age=600"
  ∧ ∃ result,
      _evaluateCacheControl (fun _ => None) 0 headers = Some result
      ∧ maxAge result = Present (Some (Secs 500)).
Proof.
  cbv zeta. split; [vm_compute; reflexivity|].
  destruct (evaluateCacheControl_max_age (fun _ => None) 0
              (Headers.of_pairs
                 [("Cache-Control", "public, max-age=600"); ("Age", "100")])
              "public, max-age=600" "600" 600)
    as (result & Hresult & Hage & _);
    [vm_compute; reflexivity..|].
  exists result. split; [exact Hresult|].
  apply (Hage 100); first [vm_compute; reflexivity | vm_compute; discriminate].
Defined.

End CacheControlFacts.

(** ** The registry of cache providers *)

Module CacheRegistryFacts.
Import CacheRegistry.

(** The registry accepts an id that the pattern of the specification
    excludes: only the first character and the length are checked. *)
Lemma id_outside_pattern_is_registered :
  matches_pattern "a!" = false
  ∧ registerCacheProvider (∅ : gmap string nat) "a!" 7%nat
    = Returns {["a!" := 7%nat]}.
Proof. split; reflexivity. Qed.

(** Registering the same loader twice, and another loader under a taken
    id.  An id that the registry inherits from [Object.prototype] counts
    as taken. *)
Example register_twice :
  registerCacheProvider ({["memory" := 1%nat]} : gmap string nat)
    "test-delayed" 2%nat
  = Returns {["test-delayed" := 2%nat; "memory" := 1%nat]}
  ∧ registerCacheProvider
      ({["test-delayed" := 2%nat; "memory" := 1%nat]} : gmap string nat)
      "test-delayed" 2%nat
    = Returns {["test-delayed" := 2%nat; "memory" := 1%nat]}
  ∧ registerCacheProvider
      ({["test-delayed" := 2%nat; "memory" := 1%nat]} : gmap string nat)
      "test-delayed" 3%nat
    = Throws "Cache provider with id test-delayed already registered"
  ∧ registerCacheProvider ({["memory" := 1%nat]} : gmap string nat)
      "constructor" 2%nat
    = Throws "Cache provider with id constructor already registered"
  ∧ registerCacheProvider ({["memory" := 1%nat]} : gmap string nat)
      "_private" 2%nat
    = Throws "Invalid character at position 0: _private".
Proof. repeat split; vm_compute; reflexivity. Qed.

Section registry.

Context {Loader : Type} `{EqDecision Loader}.
Implicit Types (factoryLoaders : gmap string Loader) (loader : Loader).

Lemma rejected_id factoryLoaders providerId loader :
  accepted_id providerId = false →
  ∃ message,
    registerCacheProvider factoryLoaders providerId loader = Throws message.
Proof.
  unfold accepted_id, registerCacheProvider. intros Hid.
  destruct (starts_with_letter providerId); simpl in *; [|by eexists].
  replace (64 <? Z.of_nat (String.length providerId)) with true by lia.
  by eexists.
Qed.

Lemma accepted_id_checks providerId :
  accepted_id providerId = true →
  starts_with_letter providerId = true
  ∧ (64 <? Z.of_nat (String.length providerId)) = false.
Proof.
  unfold accepted_id. rewrite andb_true_iff. intros [Hletter Hlen].
  split; [exact Hletter|lia].
Qed.

(** C9 (amended).  For every call [registerCacheProvider(providerId,
    loader)]: registration succeeds only for provider ids that start with
    an ASCII letter and are at most 64 characters long, and every other id
    is rejected with an error; registering an already-registered id with
    the identical loader is a no-op that leaves the registry unchanged;
    registering an already-registered id with a different loader throws an
    error; an accepted id that is no property of the registry is
    registered with the loader. *)
Theorem registerCacheProvider_cases factoryLoaders providerId loader :
  (∀ registry,
     registerCacheProvider factoryLoaders providerId loader = Returns registry →
     accepted_id providerId = true)
  ∧ (accepted_id providerId = false →
     ∃ message,
       registerCacheProvider factoryLoaders providerId loader = Throws message)
  ∧ (accepted_id providerId = true →
     factoryLoaders !! providerId = Some loader →
     registerCacheProvider factoryLoaders providerId loader
     = Returns factoryLoaders)
  ∧ (∀ registered,
       factoryLoaders !! providerId = Some registered →
       loader ≠ registered →
       ∃ message,
         registerCacheProvider factoryLoaders providerId loader
         = Throws message)
  ∧ (accepted_id providerId = true →
     has_property factoryLoaders providerId = false →
     registerCacheProvider factoryLoaders providerId loader
     = Returns (<[providerId := loader]> factoryLoaders)).
Proof.
  split; [|split; [|split; [|split]]].
  - intros registry Hreg.
    destruct (accepted_id providerId) eqn:Hid; [done|].
    destruct (rejected_id factoryLoaders providerId loader Hid) as [m Hm].
    congruence.
  - apply rejected_id.
  - intros [Hletter Hlen]%accepted_id_checks Hown.
    unfold registerCacheProvider, has_property.
    rewrite Hletter, Hlen, Hown.
    rewrite (bool_decide_eq_true_2 (is_Some (Some loader))) by eauto.
    cbn. by rewrite decide_True.
  - intros registered Hown Hne.
    destruct (accepted_id providerId) eqn:Hid; [|by apply rejected_id].
    apply accepted_id_checks in Hid as [Hletter Hlen].
    unfold registerCacheProvider, has_property.
    rewrite Hletter, Hlen, Hown.
    rewrite (bool_decide_eq_true_2 (is_Some (Some registered))) by eauto.
    cbn. rewrite decide_False by done. by eexists.
  - intros [Hletter Hlen]%accepted_id_checks Hnew.
    unfold registerCacheProvider. by rewrite Hletter, Hlen, Hnew.
Qed.

End registry.

End CacheRegistryFacts.

(** ** The retry callback *)

Module RetryAfterFacts.
Import ResilientFetchClient.







End RetryAfterFacts.

(** ** The caching coordinator *)

Module CachingClientFacts.
Import CacheControlEval CachingClient.

Section coordinator.

Context {C : Type} `{ObjectCache C}.
Variable Date_parse : string → option Z.
Variable delegate : Delegate.
Variable now : Z.

Lemma cacheState_disabled (updated : Z) (own : option CacheControl)
  (options : CacheStateOptions) :
  state (_cacheState now updated own options) = DISABLED
  ↔ truthy_bool (read (noStore (effectiveCacheControl own options))) = true.
Proof.
  unfold _cacheState.
  destruct (truthy_bool (read (noStore _))); [done|].
  split; [|done].
  repeat match goal with
         | |- context [if ?b then _ else _] => destruct b
         | |- context [match ?x with _ => _ end] => destruct x
         end; simpl; discriminate.
Qed.

(** C5 (amended).  After a successful fetch, if the effective
    cache-control record (defaults, then the record parsed from the
    response, then the forced overrides) is [noStore], no write to the
    cache backend occurs and the cache stays as it was; so it does when
    the request forces [maxAge] to [false], which bypasses the
    coordinator.  An effective record without [noStore], whatever its
    [maxAge], hands every truthy value to the [set] of the backend. *)
Theorem write_through_skipped_on_no_store (key : string) (value : JsValue)
  (headers : Headers.t) (cache : C) (cacheConfig : CachingRequestConfig.t) :
  let effective :=
    effectiveCacheControl (_evaluateCacheControl Date_parse now headers)
      (state_options cacheConfig) in
  (truthy_bool (read (noStore effective)) = true →
     _updateCache Date_parse now key value headers cache cacheConfig
     = (false, cache))
  ∧ (truthy_bool (read (noStore effective)) = false →
     truthy_value value = true →
     (_updateCache Date_parse now key value headers cache cacheConfig).2
     = (cache_set cache now key value headers
          (_evaluateCacheControl Date_parse now headers)).2)
  ∧ (∀ input init cache_settles_first,
       RequestInit.useCache init = Some cacheConfig →
       (CachingRequestConfig.forcedCacheControl cacheConfig
          ≫= fun f => read (maxAge f)) = Some (Flag false) →
       cache_after
         (fetchJson Date_parse delegate now cache_settles_first input init
            (Some cache))
       = Some cache).
Proof.
  cbv zeta. split; [|split].
  - intros Hstore. unfold _updateCache.
    destruct (truthy_value value); [|done]. simpl.
    apply (cacheState_disabled now) in Hstore. by rewrite Hstore.
  - intros Hstore Hvalue. unfold _updateCache. rewrite Hvalue. simpl.
    destruct (state _) eqn:E.
    + apply cacheState_disabled in E. congruence.
    + by destruct (cache_set _ _ _ _ _ _) as [[?|?] ?].
    + by destruct (cache_set _ _ _ _ _ _) as [[?|?] ?].
  - intros input init first Huse Hforced. unfold fetchJson, bypassed.
    rewrite Huse, Hforced. by rewrite !orb_true_r.
Qed.

Variable cache_settles_first : bool.

Let run (input : RequestInfo) (init : RequestInit.t) (cache : C) : Run C :=
  fetchJson Date_parse delegate now cache_settles_first input init (Some cache).

(** C2 (amended).  In cacheControl mode (the default), for every
    [fetchJson] call whose cache lookup yields an entry with a truthy
    value that the freshness evaluator classifies as Fresh, the call
    returns the cached value and headers without invoking the transport
    (and without touching the cache); when [update = true] was requested
    the returned update channel is a rejected promise carrying a
    [NoUpdateError], otherwise there is no update channel. *)
Theorem fresh_hit_served_from_cache (input : RequestInfo)
  (init : RequestInit.t) (cache : C) (cacheConfig : CachingRequestConfig.t)
  (cached : CachedObject.t) :
  RequestInit.useCache init = Some cacheConfig →
  bypassed cacheConfig = false →
  useCacheControl cacheConfig = true →
  cache_get cache (CachingRequestConfig.key cacheConfig)
  = Fulfilled (Some cached) →
  truthy_value (CachedObject.value cached) = true →
  state (evaluate now cached cacheConfig) = FRESH →
  calls (run input init cache) = []
  ∧ cache_after (run input init cache) = Some cache
  ∧ ∃ result,
      outcome (run input init cache) = Fulfilled result
      ∧ CachingResult.value result = CachedObject.value cached
      ∧ CachingResult.headers result = CachedObject.headers cached
      ∧ (CachingRequestConfig.update cacheConfig = true →
         ∃ message,
           CachingResult.update result
           = Channel (Rejected (NoUpdateError message)))
      ∧ (CachingRequestConfig.update cacheConfig = false →
         CachingResult.update result = NoChannel).
Proof.
  intros Huse Hby Hmode Hget Hvalue Hfresh.
  unfold run, fetchJson. rewrite Huse, Hby, Hmode.
  unfold fetch_cacheControl. rewrite Hget, Hvalue, Hfresh. cbn.
  split; [done|]. split; [done|].
  eexists. split; [reflexivity|]. cbn.
  split; [done|]. split; [done|].
  split; intros ->; [by eexists|done].
Qed.

(** C4.  In fetchFirst mode, for every [fetchJson] call whose pipeline
    fetch fails with [e]: if the cache holds an entry for the key that is
    classified Fresh or whose stale classification has [staleIfError],
    that cached entry is returned; in every other case (no entry, an entry
    that is neither, a failing cache lookup) the call fails with [e]. *)
Theorem fetchFirst_falls_back_to_cache (input : RequestInfo)
  (init : RequestInit.t) (cache : C) (cacheConfig : CachingRequestConfig.t)
  (e : Error) :
  RequestInit.useCache init = Some cacheConfig →
  bypassed cacheConfig = false →
  CachingRequestConfig.mode cacheConfig = Some "fetchFirst" →
  delegate_fetchJson delegate input init = Rejected e →
  let lookup := cache_get cache (CachingRequestConfig.key cacheConfig) in
  (∀ cached,
     lookup = Fulfilled (Some cached) →
     state (evaluate now cached cacheConfig) = FRESH
     ∨ cs_staleIfError (evaluate now cached cacheConfig) = Some true →
     outcome (run input init cache)
     = Fulfilled (cached_result cached None NoChannel))
  ∧ (∀ cached,
       lookup = Fulfilled (Some cached) →
       state (evaluate now cached cacheConfig) ≠ FRESH →
       cs_staleIfError (evaluate now cached cacheConfig) ≠ Some true →
       outcome (run input init cache) = Rejected e)
  ∧ (lookup = Fulfilled None → outcome (run input init cache) = Rejected e)
  ∧ (∀ cacheError,
       lookup = Rejected cacheError →
       outcome (run input init cache) = Rejected e).
Proof.
  intros Huse Hby Hmode Hfetch lookup. subst lookup.
  assert (Hrun : outcome (run input init cache)
    = match cache_get cache (CachingRequestConfig.key cacheConfig) with
      | Fulfilled (Some cacheResult) =>
          if CacheStateCore_eqb (state (evaluate now cacheResult cacheConfig))
               FRESH
             || default false
                  (cs_staleIfError (evaluate now cacheResult cacheConfig))
          then Fulfilled (cached_result cacheResult None NoChannel)
          else Rejected e
      | _ => Rejected e
      end).
  { unfold run, fetchJson, useCacheControl, mode_is.
    rewrite Huse, Hby, Hmode. cbn. rewrite Hfetch.
    by destruct (cache_get _ _) as [[?|]|]. }
  rewrite Hrun. repeat split.
  - intros cached -> [Hfresh | Herr].
    + by rewrite Hfresh.
    + rewrite Herr. by rewrite orb_true_r.
  - intros cached -> Hfresh Herr.
    destruct (state (evaluate now cached cacheConfig));
      destruct (cs_staleIfError (evaluate now cached cacheConfig)) as [[]|];
      first [reflexivity | congruence].
  - by intros ->.
  - by intros cacheError ->.
Qed.

(** In race mode, when the cache read wins with an entry classified Stale
    that has neither relaxation, the call waits for the fetch.  Without
    [update] it settles as the fetch does.  With [update] the returned
    object holds the whole fetched result object as its [value], and an
    error object that is no promise as its [update]. *)
Lemma race_stale_hit_waits_for_fetch (input : RequestInfo)
  (init : RequestInit.t) (cache : C) (cacheConfig : CachingRequestConfig.t)
  (cached : CachedObject.t) :
  RequestInit.useCache init = Some cacheConfig →
  bypassed cacheConfig = false →
  CachingRequestConfig.mode cacheConfig = Some "race" →
  cache_settles_first = true →
  cache_get cache (CachingRequestConfig.key cacheConfig)
  = Fulfilled (Some cached) →
  state (evaluate now cached cacheConfig) = STALE →
  default false (cs_staleWhileRevalidate (evaluate now cached cacheConfig))
  = false →
  default false (cs_staleIfError (evaluate now cached cacheConfig)) = false →
  outcome (run input init cache)
  = match delegate_fetchJson delegate input init with
    | Rejected e => Rejected e
    | Fulfilled f =>
        if CachingRequestConfig.update cacheConfig then
          Fulfilled
            {| CachingResult.value := object_of_result f;
               CachingResult.headers := JsonResult.headers f;
               CachingResult.update :=
                 ErrorObject (NoUpdateError "Cache stale, no update");
               CachingResult.origin := FromFetch |}
        else Fulfilled (fetched_result f NoChannel)
    end.
Proof.
  intros Huse Hby Hmode Hfirst Hget Hstale Hswr Herr.
  unfold run, fetchJson, useCacheControl, mode_is.
  rewrite Huse, Hby, Hmode. cbn.
  unfold fetch_race, cacheResult_race. rewrite Hfirst, Hget. cbn.
  unfold settle_raced.
  destruct (evaluate now cached cacheConfig) as [st mr swr sie].
  cbn in Hstale, Hswr, Herr. subst st.
  destruct swr as [[]|]; try discriminate;
    destruct sie as [[]|]; try discriminate; cbn;
    destruct (delegate_fetchJson delegate input init) as [f|e]; cbn;
    by destruct (CachingRequestConfig.update cacheConfig).
Qed.

End coordinator.

(** The cache-control tests of the repository, run on the model: with
    [no-store] and with [no-cache] the second call fetches the second
    body; with [max-age=120] it returns the cached first body without a
    call of the transport; with [max-age=0] it fetches again once the
    clock has moved on. *)
Example cache_control_tests :
  let run directives later :=
    Scenario.observed
      (Scenario.two_calls (Scenario.with_cache_control directives)
         Scenario.first_body Scenario.second_body later) in
  run "no-store" 1000
  = (Some Scenario.first_body, Some Scenario.second_body, 1%nat)
  ∧ run "no-cache" 1000
    = (Some Scenario.first_body, Some Scenario.second_body, 1%nat)
  ∧ run "max-age=120" 1000
    = (Some Scenario.first_body, Some Scenario.first_body, 0%nat)
  ∧ run "max-age=0" 1001
    = (Some Scenario.first_body, Some Scenario.second_body, 1%nat).
Proof. repeat split; vm_compute; reflexivity. Qed.

(** A cached entry whose value is falsy (here the number 0) is classified
    Fresh by the evaluator, and is not served: [cachedAvailable] is false,
    and the request goes to the transport. *)
Lemma falsy_fresh_entry_is_fetched_again :
  let cache := Scenario.seeded 0 (JNum 0) None in
  let cacheConfig := Scenario.config None false in
  let run :=
    fetchJson Scenario.no_dates (Scenario.server (JNum 1)) 1000 true (Url "")
      (Scenario.request cacheConfig) (Some cache) in
  (∃ cached,
     cache_get cache "a" = Fulfilled (Some cached)
     ∧ CachedObject.value cached = JNum 0
     ∧ state (evaluate 1000 cached cacheConfig) = FRESH)
  ∧ calls run = [Call_fetchJson (Url "") (Scenario.request cacheConfig)]
  ∧ Scenario.returned_value run = Some (JNum 1).
Proof.
  cbv zeta. split; [|split; vm_compute; reflexivity].
  eexists. split; [vm_compute; reflexivity|]. split; reflexivity.
Qed.

Lemma fresh_hit_served_from_cache_witness :
  let cache := Scenario.seeded 0 (JStr "cached") None in
  let cacheConfig := Scenario.config None true in
  calls
    (fetchJson Scenario.no_dates (Scenario.server (JStr "fresh")) 1000 true
       (Url "") (Scenario.request cacheConfig) (Some cache)) = [].
Proof.
  cbv zeta.
  refine (proj1
            (fresh_hit_served_from_cache Scenario.no_dates
               (Scenario.server (JStr "fresh")) 1000 true (Url "")
               (Scenario.request (Scenario.config None true))
               (Scenario.seeded 0 (JStr "cached") None)
               (Scenario.config None true)
               {| CachedObject.key := "a"; CachedObject.updated := 0;
                  CachedObject.value := JStr "cached";
                  CachedObject.headers := Headers.empty;
                  CachedObject.cacheControl := None |}
               _ _ _ _ _ _));
    vm_compute; reflexivity.
Defined.

Lemma fetchFirst_falls_back_to_cache_witness :
  let cache := Scenario.seeded 0 (JStr "cached") (Some Scenario.stale_if_error) in
  let cacheConfig := Scenario.config (Some "fetchFirst") false in
  Scenario.returned_value
    (fetchJson Scenario.no_dates
       (Scenario.failing (HttpError_responseStatus 500)) 1000 true (Url "")
       (Scenario.request cacheConfig) (Some cache))
  = Some (JStr "cached").
Proof.
  cbv zeta. unfold Scenario.returned_value.
  assert (served :
    outcome
      (fetchJson Scenario.no_dates
         (Scenario.failing (HttpError_responseStatus 500)) 1000 true (Url "")
         (Scenario.request (Scenario.config (Some "fetchFirst") false))
         (Some (Scenario.seeded 0 (JStr "cached")
                  (Some Scenario.stale_if_error))))
    = Fulfilled
        (cached_result
           {| CachedObject.key := "a"; CachedObject.updated := 0;
              CachedObject.value := JStr "cached";
              CachedObject.headers := Headers.empty;
              CachedObject.cacheControl := Some Scenario.stale_if_error |}
           None NoChannel)).
  { refine (proj1
              (fetchFirst_falls_back_to_cache Scenario.no_dates
                 (Scenario.failing (HttpError_responseStatus 500)) 1000 true
                 (Url "")
                 (Scenario.request (Scenario.config (Some "fetchFirst") false))
                 (Scenario.seeded 0 (JStr "cached")
                    (Some Scenario.stale_if_error))
                 (Scenario.config (Some "fetchFirst") false)
                 (HttpError_responseStatus 500) _ _ _ _)
              _ _ _);
      try (vm_compute; reflexivity).
    right. vm_compute. reflexivity. }
  rewrite served. reflexivity.
Defined.

(** C3.  In race mode with [update = true], where the cache read wins the
    race with an entry classified Stale that has neither
    [staleWhileRevalidate] nor [staleIfError], the value returned to the
    caller is not the value of the transport fetch result: it is the whole
    result object [{value, headers}] of the fetch, and the [update]
    property is an error object instead of a promise.  (With
    [update = false] the same run returns the fetched value.) *)
Theorem race_stale_hit_with_update_wraps_result :
  let cache := Scenario.seeded 0 (JStr "stale") (Some max_age_zero) in
  let run (update : bool) :=
    fetchJson Scenario.no_dates (Scenario.server (JStr "fresh")) 1000 true
      (Url "") (Scenario.request (Scenario.config (Some "race") update))
      (Some cache) in
  (∃ cached,
     cache_get cache "a" = Fulfilled (Some cached)
     ∧ evaluate 1000 cached (Scenario.config (Some "race") true)
       = {| state := STALE; cs_mustRevalidate := None;
            cs_staleWhileRevalidate := None; cs_staleIfError := None |})
  ∧ (∃ result,
       outcome (run true) = Fulfilled result
       ∧ CachingResult.value result
         = JObj [("value", JStr "fresh");
                 ("headers", JHeaders Scenario.json_headers)]
       ∧ CachingResult.value result ≠ JStr "fresh"
       ∧ CachingResult.headers result = Scenario.json_headers
       ∧ CachingResult.update result
         = ErrorObject (NoUpdateError "Cache stale, no update"))
  ∧ Scenario.returned_value (run false) = Some (JStr "fresh").
Proof.
  cbv zeta. split; [|split].
  - eexists. split; vm_compute; reflexivity.
  - eexists. split; [vm_compute; reflexivity|].
    split; [vm_compute; reflexivity|].
    split; [discriminate|].
    split; vm_compute; reflexivity.
  - vm_compute. reflexivity.
Qed.

(** A response with [Cache-Control: max-age=0] satisfies the condition
    under which the specification forbids the write, and is written. *)
Lemma max_age_zero_is_written :
  let headers := Headers.of_pairs [("Cache-Control", "max-age=0")] in
  let cacheConfig :=
    {| CachingRequestConfig.key := "b";
       CachingRequestConfig.table := Some "Test2";
       CachingRequestConfig.mode := None;
       CachingRequestConfig.defaultCacheControl := None;
       CachingRequestConfig.forcedCacheControl := None;
       CachingRequestConfig.activeCache := None;
       CachingRequestConfig.update := false;
       CachingRequestConfig.equal := None;
       CachingRequestConfig.cacheTimeout := None |} in
  let cache :=
    MemoryCache.new {| MemoryCache.cfg_maxItems := Some 5;
                       MemoryCache.cfg_cloneItems := false;
                       MemoryCache.cfg_deepCopy := None |} in
  let written :=
    _updateCache (fun _ => None) 1000 "b" (JStr "stale") headers cache
      cacheConfig in
  spec_forbids_write
    (effectiveCacheControl (_evaluateCacheControl (fun _ => None) 1000 headers)
       (state_options cacheConfig)) = true
  ∧ written.1 = true
  ∧ written.2 ≠ cache
  ∧ MemoryCache.get cache "b" = None
  ∧ CachedObject.value <$> MemoryCache.get written.2 "b" = Some (JStr "stale").
Proof.
  cbv zeta. split; [vm_compute; reflexivity|].
  split; [vm_compute; reflexivity|].
  split; [|split; vm_compute; reflexivity].
  intros E. apply (f_equal (fun c => length (MemoryCache.cache c))) in E.
  vm_compute in E. discriminate.
Qed.

Lemma write_through_skipped_on_no_store_witness :
  let headers := Headers.of_pairs [("Cache-Control", "no-store")] in
  let cacheConfig :=
    {| CachingRequestConfig.key := "a";
       CachingRequestConfig.table := Some "Test";
       CachingRequestConfig.mode := None;
       CachingRequestConfig.defaultCacheControl := None;
       CachingRequestConfig.forcedCacheControl := None;
       CachingRequestConfig.activeCache := None;
       CachingRequestConfig.update := false;
       CachingRequestConfig.equal := None;
       CachingRequestConfig.cacheTimeout := None |} in
  let cache :=
    MemoryCache.new {| MemoryCache.cfg_maxItems := Some 5;
                       MemoryCache.cfg_cloneItems := false;
                       MemoryCache.cfg_deepCopy := None |} in
  truthy_bool
    (read (noStore
             (effectiveCacheControl
                (_evaluateCacheControl (fun _ => None) 1000 headers)
                (state_options cacheConfig)))) = true
  ∧ _updateCache (fun _ => None) 1000 "a" (JStr "v") headers cache cacheConfig
    = (false, cache).
Proof.
  cbv zeta. split; [vm_compute; reflexivity|].
  refine (proj1 (write_through_skipped_on_no_store (fun _ => None)
                   {| delegate_fetchJson := fun _ _ => Rejected (OtherError "");
                      delegate_fetch := fun _ _ => Rejected (OtherError "");
                      delegate_cancels := fun _ _ => true |}
                   1000 "a" (JStr "v") _ _ _) _).
  vm_compute. reflexivity.
Defined.

End CachingClientFacts.

(** ** The in-memory cache under sequences of calls *)

Module MemoryCacheUseFacts.
Import MemoryCache MemoryCacheUse.

Implicit Types (m : Map) (c : MemoryCache.t).

Lemma Map_set_length m key value :
  (length (Map_set m key value) <= S (length m))%nat.
Proof.
  induction m as [|[k v] m IH]; simpl; [lia|].
  destruct (String.eqb k key); simpl; lia.
Qed.

Lemma Map_delete_length m key :
  (length (Map_delete m key) <= length m)%nat.
Proof.
  induction m as [|[k v] m IH]; simpl; [lia|].
  destruct (String.eqb k key); simpl; lia.
Qed.

Lemma Map_get_set_other m key value k :
  k ≠ key → Map_get (Map_set m key value) k = Map_get m k.
Proof.
  intros Hne. induction m as [|[k0 v0] m IH]; simpl.
  - destruct (String.eqb key k) eqn:E; [|done].
    apply String.eqb_eq in E. congruence.
  - destruct (String.eqb k0 key) eqn:E; simpl.
    + apply String.eqb_eq in E. subst k0.
      destruct (String.eqb key k) eqn:E2; [|done].
      apply String.eqb_eq in E2. congruence.
    + by rewrite IH.
Qed.

Lemma Map_get_delete_other m key k :
  k ≠ key → Map_get (Map_delete m key) k = Map_get m k.
Proof.
  intros Hne. induction m as [|[k0 v0] m IH]; simpl; [done|].
  destruct (String.eqb k0 key) eqn:E; simpl.
  - apply String.eqb_eq in E. subst k0.
    destruct (String.eqb key k) eqn:E2; [|done].
    apply String.eqb_eq in E2. congruence.
  - by rewrite IH.
Qed.

Lemma Map_get_None m key : key ∉ m.*1 → Map_get m key = None.
Proof.
  induction m as [|[k v] m IH]; simpl; [done|].
  intros Hnot. destruct (String.eqb k key) eqn:E.
  - apply String.eqb_eq in E. subst. set_solver.
  - apply IH. set_solver.
Qed.

Lemma Map_get_is_Some m key : is_Some (Map_get m key) ↔ key ∈ m.*1.
Proof.
  induction m as [|[k v] m IH]; simpl.
  - split; [by intros [? ?]|set_solver].
  - destruct (String.eqb k key) eqn:E.
    + apply String.eqb_eq in E. subst. split; [set_solver|eauto].
    + apply String.eqb_neq in E. rewrite IH. set_solver.
Qed.

Lemma Map_delete_keys m key k : k ∈ (Map_delete m key).*1 → k ∈ m.*1.
Proof.
  induction m as [|[k0 v0] m IH]; simpl; [done|].
  destruct (String.eqb k0 key); simpl; set_solver.
Qed.

Lemma Map_delete_NoDup m key : NoDup m.*1 → NoDup (Map_delete m key).*1.
Proof.
  induction m as [|[k0 v0] m IH]; simpl; [done|].
  intros [Hnot Hm]%NoDup_cons.
  destruct (String.eqb k0 key); simpl; [done|].
  apply NoDup_cons. split; [|by apply IH].
  intros Hin. by apply Hnot, (Map_delete_keys m key).
Qed.

Lemma Map_delete_gone m key : NoDup m.*1 → key ∉ (Map_delete m key).*1.
Proof.
  induction m as [|[k0 v0] m IH]; simpl; [set_solver|].
  intros [Hnot Hm]%NoDup_cons.
  destruct (String.eqb k0 key) eqn:E; simpl.
  - apply String.eqb_eq in E. by subst.
  - apply String.eqb_neq in E. specialize (IH Hm). set_solver.
Qed.

Lemma Map_set_keys m key value k :
  k ∈ (Map_set m key value).*1 ↔ k = key ∨ k ∈ m.*1.
Proof.
  induction m as [|[k0 v0] m IH]; simpl; [set_solver|].
  destruct (String.eqb k0 key) eqn:E; simpl.
  - apply String.eqb_eq in E. subst. set_solver.
  - set_solver.
Qed.

Lemma Map_set_NoDup m key value : NoDup m.*1 → NoDup (Map_set m key value).*1.
Proof.
  induction m as [|[k0 v0] m IH]; simpl.
  - intros _. apply NoDup_singleton.
  - intros [Hnot Hm]%NoDup_cons.
    destruct (String.eqb k0 key) eqn:E; simpl.
    + by apply NoDup_cons.
    + apply String.eqb_neq in E. apply NoDup_cons. split; [|by apply IH].
      rewrite Map_set_keys. intros [->|Hin]; done.
Qed.


Lemma sound_new config : sound (new config).
Proof.
  split; [apply NoDup_nil_2|]. unfold new. simpl.
  intros n Hn. destruct (cfg_maxItems config) as [n0|]; [|done].
  destruct (0 <? n0) eqn:E; [|done]. injection Hn as <-. unfold Map_size. simpl. lia.
Qed.

Lemma call_maxItems c op : maxItems (call c op) = maxItems c.
Proof.
  destruct op as [now key value headers cacheControl|key|]; simpl; try done.
  unfold set. destruct key; [done|]. by destruct value.
Qed.

Lemma set_cache c now key value headers cacheControl :
  key ≠ "" → value ≠ JUndefined →
  cache (set c now key value headers cacheControl).2
  = Map_set (evicted c) key
      {| CachedObject.key := key; CachedObject.updated := now;
         CachedObject.value := copy c value; CachedObject.headers := headers;
         CachedObject.cacheControl := cacheControl |}.
Proof.
  intros Hk Hv. unfold set, evicted, full.
  destruct key as [|a key]; [done|].
  destruct value; try done; simpl;
    destruct (maxItems c) as [limit|]; try done;
    by destruct (negb (limit =? 0) && (limit <=? Map_size (cache c))).
Qed.

Lemma set_cache_rejected c now key value headers cacheControl :
  key = "" ∨ value = JUndefined →
  (set c now key value headers cacheControl).2 = c.
Proof. intros [-> | ->]; unfold set; [done|]. by destruct key. Qed.

Lemma undefined_or_not (value : JsValue) :
  value = JUndefined ∨ value ≠ JUndefined.
Proof. destruct value; first [by left | by right]. Qed.

Lemma evicted_NoDup c : NoDup (allKeys c) → NoDup (evicted c).*1.
Proof.
  unfold allKeys, evicted. intros Hkeys. destruct (full c); [|done].
  destruct (cache c) as [|[first e] m] eqn:Ec; [done|].
  by apply Map_delete_NoDup.
Qed.

Lemma evicted_room c n :
  sound c → maxItems c = Some n → Z.of_nat (length (evicted c)) < n.
Proof.
  intros [_ Hlimit] Hn. destruct (Hlimit n Hn) as [Hpos Hsize].
  unfold evicted, full, Map_size in *. rewrite Hn.
  destruct (negb (n =? 0) && (n <=? Z.of_nat (length (cache c)))) eqn:Efull.
  - apply andb_true_iff in Efull as [_ Hfull].
    destruct (cache c) as [|[first e] m]; simpl in *; [lia|].
    rewrite String.eqb_refl. lia.
  - rewrite andb_false_iff, negb_false_iff in Efull. lia.
Qed.

Lemma sound_set c now key value headers cacheControl :
  sound c → sound (set c now key value headers cacheControl).2.
Proof.
  intros Hc.
  destruct (decide (key = "")) as [->|Hk];
    [by rewrite set_cache_rejected by auto|].
  destruct (undefined_or_not value) as [->|Hv];
    [by rewrite set_cache_rejected by auto|].
  split.
  - unfold allKeys. rewrite set_cache by done.
    apply Map_set_NoDup, evicted_NoDup, Hc.
  - intros n Hn.
    change (maxItems (call c (DoSet now key value headers cacheControl))
            = Some n) in Hn.
    rewrite call_maxItems in Hn.
    split; [by apply (proj2 Hc n)|].
    rewrite set_cache by done. unfold Map_size.
    pose proof (evicted_room c n Hc Hn).
    pose proof (Map_set_length (evicted c) key
      {| CachedObject.key := key; CachedObject.updated := now;
         CachedObject.value := copy c value; CachedObject.headers := headers;
         CachedObject.cacheControl := cacheControl |}).
    lia.
Qed.

Lemma sound_call c op : sound c → sound (call c op).
Proof.
  destruct op as [now key value headers cacheControl|key|].
  - apply sound_set.
  - intros [Hkeys Hlimit]. split.
    + by apply Map_delete_NoDup.
    + intros n Hn. destruct (Hlimit n Hn) as [Hpos Hsize]. split; [done|].
      simpl. unfold Map_size in *. pose proof (Map_delete_length (cache c) key). lia.
  - intros [Hkeys Hlimit]. split; [apply NoDup_nil_2|].
    intros n Hn. destruct (Hlimit n Hn) as [Hpos Hsize]. split; [done|].
    simpl. unfold Map_size. simpl. lia.
Qed.

Lemma sound_after c ops : sound c → sound (after c ops).
Proof.
  revert c. induction ops as [|op ops IH]; intros c Hc; [done|].
  simpl. by apply IH, sound_call.
Qed.

Lemma after_maxItems c ops : maxItems (after c ops) = maxItems c.
Proof.
  revert c. induction ops as [|op ops IH]; intros c; [done|].
  simpl. by rewrite IH, call_maxItems.
Qed.

Lemma get_is_Some c key : is_Some (get c key) ↔ key ∈ allKeys c.
Proof.
  unfold get, allKeys. rewrite <- Map_get_is_Some.
  destruct (Map_get (cache c) key); [|done].
  destruct (deepCopy c); split; eauto.
Qed.

Lemma get_congruence c c' key k :
  deepCopy c' = deepCopy c → Map_get (cache c') k = Map_get (cache c) key →
  get c' k = get c key.
Proof. intros Hcopy Hget. unfold get. by rewrite Hcopy, Hget. Qed.

Lemma new_factory_config structuredClone config factory :
  new_factory structuredClone config = Some factory → _config factory = config.
Proof.
  unfold new_factory. intros H.
  destruct (default false (config_cloneItems config));
    [destruct (config_deepCopy config), structuredClone|];
    by simplify_eq.
Qed.

Lemma new_maxItems config n :
  cfg_maxItems config = Some n → 0 < n → maxItems (new config) = Some n.
Proof.
  intros Hn Hpos. unfold new. simpl. rewrite Hn.
  by rewrite (proj2 (Z.ltb_lt 0 n)).
Qed.

Lemma Map_delete_subseteq m key : Map_delete m key ⊆ m.
Proof.
  induction m as [|[k v] m IH]; [done|]. simpl.
  destruct (String.eqb k key); set_solver.
Qed.

Lemma Map_set_elem_of m key value k e :
  (k, e) ∈ Map_set m key value → (k, e) ∈ m ∨ (k = key ∧ e = value).
Proof.
  induction m as [|[k0 v0] m IH]; simpl.
  - rewrite list_elem_of_singleton. intros [= -> ->]. by right.
  - destruct (String.eqb k0 key) eqn:E.
    + apply String.eqb_eq in E as ->. rewrite !elem_of_cons.
      intros [[= -> ->]|Hin]; [by right|left; by right].
    + rewrite !elem_of_cons. intros [[= -> ->]|Hin]; [left; by left|].
      destruct (IH Hin) as [?|?]; [left; by right|by right].
Qed.

Lemma evicted_subseteq c : evicted c ⊆ cache c.
Proof.
  unfold evicted. destruct (full c); [|done].
  destruct (cache c) as [|[first e] m] eqn:Ec; [done|].
  rewrite <- Ec. apply Map_delete_subseteq.
Qed.

Lemma keyed_call c op : keyed c → keyed (call c op).
Proof.
  intros Hc. destruct op as [now key value headers cacheControl|key|].
  - destruct (decide (key = "")) as [->|Hk];
      [by unfold call; rewrite set_cache_rejected by auto|].
    destruct (undefined_or_not value) as [->|Hv];
      [by unfold call; rewrite set_cache_rejected by auto|].
    intros k e. unfold call. rewrite set_cache by done. intros Hin.
    apply Map_set_elem_of in Hin as [Hin|[-> ->]]; [|done].
    by apply Hc, evicted_subseteq.
  - intros k e Hin. by apply Hc, (Map_delete_subseteq (cache c) key).
  - intros k e Hin. simpl in Hin. by apply elem_of_nil in Hin.
Qed.

Lemma keyed_after c ops : keyed c → keyed (after c ops).
Proof.
  revert c. induction ops as [|op ops IH]; intros c Hc; [done|].
  simpl. by apply IH, keyed_call.
Qed.

Lemma Map_get_elem_of m key e : Map_get m key = Some e → (key, e) ∈ m.
Proof.
  induction m as [|[k v] m IH]; [done|]. simpl.
  destruct (String.eqb k key) eqn:E.
  - apply String.eqb_eq in E as ->. intros [= ->]. by left.
  - intros H. right. by apply IH.
Qed.

Lemma Map_get_delete_same m key :
  NoDup m.*1 → Map_get (Map_delete m key) key = None.
Proof. intros Hm. by apply Map_get_None, Map_delete_gone. Qed.

(** X1.  A cache that [MemoryCacheFactory.create] makes for a table whose
    configured [maxItems] is a positive number never holds more keys than
    that, whatever [set], [delete] and [clear] calls follow. *)
Theorem factory_cache_respects_limit structuredClone config factory table n ops :
  new_factory structuredClone config = Some factory →
  table_limit config table = Some n →
  0 < n →
  Z.of_nat (length (allKeys (after (create factory table) ops))) <= n.
Proof.
  intros Hfactory Hlimit Hpos.
  apply new_factory_config in Hfactory.
  pose proof (sound_after _ ops (sound_new
    {| cfg_maxItems := table_limit (_config factory) table;
       cfg_cloneItems := default false (f_cloneItems factory);
       cfg_deepCopy := f_deepCopy factory |})) as [_ Hsound].
  fold (create factory table) in Hsound.
  destruct (Hsound n) as [_ Hsize].
  - rewrite after_maxItems. apply new_maxItems; [|done].
    simpl. by rewrite Hfactory.
  - unfold allKeys. rewrite length_fmap. exact Hsize.
Qed.

Lemma factory_cache_respects_limit_witness :
  let config := {| config_maxItems := Some (MaxPerTable [("Test", 1)]);
                   config_cloneItems := None; config_deepCopy := None |} in
  let factory := {| _config := config; f_cloneItems := None;
                    f_deepCopy := None |} in
  let ops := [DoSet 0 "a" (JNum 1) Headers.empty None;
              DoSet 1 "b" (JNum 2) Headers.empty None] in
  allKeys (after (create factory "Test") ops) = ["b"]
  ∧ Z.of_nat (length (allKeys (after (create factory "Test") ops))) <= 1.
Proof.
  intros config factory ops. split; [reflexivity|].
  apply (factory_cache_respects_limit None config factory "Test" 1 ops);
    [reflexivity | reflexivity | lia].
Defined.

(** X2.  In a cache reached from a new one by any calls, [allKeys] lists no
    key twice, it lists exactly the keys for which [get] finds an entry,
    and the entry found for a key names that key, which is not empty. *)
Theorem allKeys_are_the_keys_found config ops :
  let c := after (new config) ops in
  NoDup (allKeys c)
  ∧ (∀ key, key ∈ allKeys c ↔ is_Some (get c key))
  ∧ (∀ key e, get c key = Some e → CachedObject.key e = key ∧ key ≠ "").
Proof.
  intros c. split; [apply (sound_after _ ops (sound_new config))|].
  split; [intros key; by rewrite get_is_Some|].
  intros key e. unfold get.
  destruct (Map_get (cache c) key) as [value|] eqn:Hget; [|done].
  apply Map_get_elem_of in Hget.
  assert (keyed (new config)) as Hnew
    by (intros k0 e0 Hin; by apply elem_of_nil in Hin).
  apply (keyed_after _ ops Hnew) in Hget.
  destruct (deepCopy c); intros [= <-]; exact Hget.
Qed.

(** X3.  [delete] resolves to whether the key was found, leaves no entry for
    the key and leaves the entry of every other key as it was. *)
Theorem delete_removes_the_key_only config ops key :
  let c := after (new config) ops in
  (delete c key).1 = bool_decide (is_Some (get c key))
  ∧ get (delete c key).2 key = None
  ∧ (∀ k, k ≠ key → get (delete c key).2 k = get c k).
Proof.
  intros c. split; [|split].
  - simpl. apply bool_decide_ext. unfold get.
    destruct (Map_get (cache c) key); [|done].
    destruct (deepCopy c); split; eauto.
  - unfold get. simpl. rewrite Map_get_delete_same; [done|].
    apply (sound_after _ ops (sound_new config)).
  - intros k Hk. apply get_congruence; [done|].
    simpl. by apply Map_get_delete_other.
Qed.

(** X4.  An accepted [set] changes the entry of another key in one case
    only: when the cache is full, its oldest key is evicted, also when
    [key] is already stored and no room is needed. *)
Theorem set_evicts_the_oldest_key_only config ops now key value headers
    cacheControl k :
  let c := after (new config) ops in
  key ≠ "" → value ≠ JUndefined → k ≠ key →
  get (set c now key value headers cacheControl).2 k
  = if full c && bool_decide (firstKey c = Some k) then None else get c k.
Proof.
  intros c Hkey Hvalue Hk.
  assert (NoDup (allKeys c)) as Hkeys
    by apply (sound_after _ ops (sound_new config)).
  assert (deepCopy (set c now key value headers cacheControl).2 = deepCopy c)
    as Hcopy.
  { unfold set. destruct key; [done|]. by destruct value. }
  unfold get at 1. rewrite Hcopy, set_cache by done.
  rewrite Map_get_set_other by done.
  unfold evicted, firstKey, allKeys in *.
  destruct (full c); simpl; [|done].
  destruct (cache c) as [|[first e] m] eqn:Ec; simpl.
  - unfold get. by rewrite Ec.
  - rewrite String.eqb_refl. case_bool_decide as Hfirst.
    + injection Hfirst as ->. simpl in Hkeys. apply NoDup_cons in Hkeys as [Hnot _].
      by rewrite Map_get_None.
    + unfold get. rewrite Ec. simpl.
      destruct (String.eqb first k) eqn:E; [|done].
      apply String.eqb_eq in E as ->. done.
Qed.

Lemma set_evicts_the_oldest_key_only_witness :
  let ops := [DoSet 0 "a" (JNum 1) Headers.empty None;
              DoSet 1 "b" (JNum 2) Headers.empty None] in
  let config := {| cfg_maxItems := Some 2; cfg_cloneItems := false;
                   cfg_deepCopy := None |} in
  let c := after (new config) ops in
  get (set c 2 "b" (JNum 3) Headers.empty None).2 "a" = None.
Proof.
  intros ops config c.
  refine (set_evicts_the_oldest_key_only config ops 2 "b" (JNum 3)
            Headers.empty None "a" _ _ _); done.
Defined.

End MemoryCacheUseFacts.

(** ** Requests of the simple client *)

Module SimpleClientFacts.
Import SimpleFetchClient SimpleClient.

Lemma truthy_append_char a c : JsString.truthy (a +:+ String c "") = true.
Proof. by destruct a. Qed.

Lemma ends_with_snoc c a : ends_with c (a +:+ String c "") = true.
Proof.
  induction a as [|x a IH].
  - simpl. apply Ascii.eqb_refl.
  - change (ends_with c (String x (a +:+ String c "")) = true).
    simpl. destruct (a +:+ String c "") eqn:E; [by destruct a|]. exact IH.
Qed.

Lemma truthy_nonempty s : s ≠ "" → JsString.truthy s = true.
Proof. by destruct s. Qed.

(** X5.  [_concatPaths] joins a base and a path with one slash, whichever
    of the two brings it: for a non-empty base that does not end with a
    slash and a non-empty path that does not start with one, the four
    ways of writing the joint give the same URL. *)
Theorem concatPaths_one_slash (a b : string) :
  a ≠ "" → b ≠ "" →
  ends_with slash a = false → starts_with slash b = false →
  let joined := (a +:+ "/") +:+ b in
  _concatPaths (Some a) b = joined
  ∧ _concatPaths (Some (a +:+ "/")) b = joined
  ∧ _concatPaths (Some a) ("/" +:+ b) = joined
  ∧ _concatPaths (Some (a +:+ "/")) ("/" +:+ b) = joined.
Proof.
  intros Ha Hb Hend Hstart joined. unfold _concatPaths, joined.
  rewrite !truthy_append_char, !(truthy_nonempty a), !(truthy_nonempty b) by done.
  rewrite ends_with_snoc, Hend, Hstart.
  change ("/" +:+ b) with (String slash b). cbn [starts_with negb andb substring1].
  rewrite Ascii.eqb_refl. cbn [negb andb].
  repeat split; try done.
  by rewrite MergeHeaders.append_assoc.
Qed.

Lemma merge_key_prefix held v :
  is_placeholder v = false →
  default [] held `prefix_of` default [] (merge_key held v).
Proof.
  intros Hv. unfold merge_key. rewrite Hv.
  destruct held as [[|x xs]|]; simpl; try apply prefix_nil.
  destruct (JsString.truthy (Headers.combine (x :: xs))
            && listed (Headers.combine (x :: xs)) v); simpl.
  - done.
  - by apply prefix_cons, prefix_app_r.
Qed.

Lemma fold_merge_key_prefix vs held :
  Forall (λ v, is_placeholder v = false) vs →
  default [] held `prefix_of` default [] (foldl merge_key held vs).
Proof.
  revert held. induction vs as [|v vs IH]; intros held Hvs; [done|].
  apply Forall_cons in Hvs as [Hv Hvs]. simpl.
  etrans; [by apply merge_key_prefix|by apply IH].
Qed.

Lemma foldl_merge_update (r : Headers.t) updates :
  foldl merge_update r updates
  = foldl merge_entry r
      (flat_map (λ u, Headers.entries (new_Headers u)) updates).
Proof.
  revert r. induction updates as [|u updates IH]; intros r; [done|].
  simpl. by rewrite foldl_app, IH.
Qed.

Lemma mergeHeaders_lookup source updates name :
  from_option new_Headers Headers.empty (_mergeHeaders source updates) !! name
  = foldl merge_key (from_option new_Headers Headers.empty source !! name)
      (values_for name
         (flat_map (λ u, Headers.entries (new_Headers u)) updates)).
Proof.
  destruct updates as [|u updates]; [done|].
  unfold _mergeHeaders. cbn [from_option new_Headers].
  by rewrite foldl_merge_update, MergeHeaders.fold_merge_entry_lookup.
Qed.

Lemma append_empty (a : string) : a +:+ "" = a.
Proof.
  induction a as [|x a IH]; [done|].
  change (String x (a +:+ "") = String x a). by rewrite IH.
Qed.

Lemma combine_prefix xs ys :
  xs ≠ [] → ∃ rest, Headers.combine (xs ++ ys) = Headers.combine xs +:+ rest.
Proof.
  intros Hxs. induction ys as [|y ys IH] using rev_ind.
  - exists "". rewrite app_nil_r. by rewrite append_empty.
  - destruct IH as [rest IH]. rewrite app_assoc.
    rewrite MergeHeaders.combine_snoc by (by destruct xs).
    rewrite IH. eexists. by rewrite MergeHeaders.append_assoc.
Qed.

(** X6.  Merging default headers keeps what the caller has set: a header
    that no update names is returned by [get] as before, and a header for
    which no update holds a placeholder (the empty string or "undefined")
    keeps the caller's value at the front of its value. *)
Theorem mergeHeaders_keeps_caller_values source updates name existing :
  let entries := flat_map (λ u, Headers.entries (new_Headers u)) updates in
  let caller := from_option new_Headers Headers.empty source in
  let merged :=
    from_option new_Headers Headers.empty (_mergeHeaders source updates) in
  Headers.get caller name = Some existing →
  Forall (λ v, is_placeholder v = false)
         (values_for (Headers.key name) entries) →
  (∃ rest, Headers.get merged name = Some (existing +:+ rest))
  ∧ (values_for (Headers.key name) entries = [] →
     Headers.get merged name = Some existing).
Proof.
  intros entries caller merged Hget Hvalues.
  unfold Headers.get in *. unfold merged. rewrite mergeHeaders_lookup.
  fold caller entries.
  destruct (caller !! Headers.key name) as [[|x xs]|] eqn:Hheld; try done.
  injection Hget as <-. split.
  - pose proof (fold_merge_key_prefix _ (Some (x :: xs)) Hvalues) as [ys Hys].
    simpl in Hys.
    destruct (foldl merge_key (Some (x :: xs))
                (values_for (Headers.key name) entries)) as [held|];
      simpl in Hys; [|done].
    subst held.
    destruct (combine_prefix (x :: xs) ys) as [rest Hrest]; [done|].
    exists rest. change ((x :: xs) ++ ys) with (x :: (xs ++ ys)) in Hrest.
    simpl. by rewrite <- Hrest.
  - intros ->. done.
Qed.

Lemma mergeHeaders_keeps_caller_values_witness :
  let source := Some (InitPairs [("Accept", "text/html"); ("X-Trace", "on")]) in
  let updates := [InitPairs [("accept", "application/json")]] in
  let merged :=
    from_option new_Headers Headers.empty
      (_mergeHeaders source updates) in
  Headers.get merged "Accept" = Some "text/html, application/json"
  ∧ Headers.get merged "X-Trace" = Some "on".
Proof.
  intros source updates merged. split; [reflexivity|].
  refine (proj2 (mergeHeaders_keeps_caller_values source updates
                   "X-Trace" "on" _ _) _); vm_compute; first [reflexivity | constructor].
Defined.

Lemma concatPaths_one_slash_witness :
  _concatPaths (Some "http://localhost/api/") "/v1/items"
  = "http://localhost/api/v1/items".
Proof.
  refine (proj2 (proj2 (proj2
    (concatPaths_one_slash "http://localhost/api" "v1/items" _ _ _ _))));
    first [reflexivity | discriminate].
Defined.

Lemma fetch_resolves client input init resp :
  (fetch client input init).2 = Fulfilled resp →
  closed client = false
  ∧ ∃ request,
      (fetch client input init).1 = [request]
      ∧ fetch_transport client request.1 request.2 = Fulfilled resp
      ∧ (ok (Response.status resp) = true
         ∨ skipFailOnErrorCode client = true
         ∨ from_option JsonRequestInit.skipFailOnErrorCode false init = true).
Proof.
  unfold fetch. destruct (closed client); [done|].
  unfold _fetchInternal. cbn [fst snd].
  set (request := (_, JsonRequestInit.with_headers _ _)).
  destruct (fetch_transport client _ _) as [resp'|e] eqn:Hresp; [|done].
  destruct (fails_on_status _ _ _ _) eqn:Hfails; [done|].
  intros [= ->]. split; [done|]. exists request.
  split; [done|]. split; [exact Hresp|].
  unfold fails_on_status in Hfails. simpl in Hfails.
  destruct (ok (Response.status resp)); [auto|].
  destruct (skipFailOnErrorCode client); [auto|].
  destruct init as [init|]; simpl in *; [|done].
  destruct (JsonRequestInit.skipFailOnErrorCode init); [auto|done].
Qed.

Lemma json_init_flags client input init :
  from_option JsonRequestInit.skipFailOnErrorCode false
    (json_init client input init)
  = from_option JsonRequestInit.skipFailOnErrorCode false init
  ∧ from_option JsonRequestInit.skipContentTypeHeaderValidation false
      (json_init client input init)
    = from_option JsonRequestInit.skipContentTypeHeaderValidation false init.
Proof.
  unfold json_init. destruct (negb _ && negb _); [|done]. by destruct init.
Qed.

(** X7.  [fetchJson] of the simple client resolves only with the body of a
    response that the transport gave to its single request and that passed
    both checks: a status in the range 200 to 299 unless
    [skipFailOnErrorCode] is set on the client or the request, and a
    [Content-Type] naming "application/" and "json" unless
    [skipContentTypeHeaderValidation] is set. *)
Theorem fetchJson_resolves_checked_responses client input init r :
  (fetchJson client input init).2 = Fulfilled r →
  closed client = false
  ∧ ∃ request resp,
      (fetchJson client input init).1 = [request]
      ∧ fetch_transport client request.1 request.2 = Fulfilled resp
      ∧ (ok (Response.status resp) = true
         ∨ skipFailOnErrorCode client = true
         ∨ from_option JsonRequestInit.skipFailOnErrorCode false init = true)
      ∧ (from_option JsonRequestInit.skipContentTypeHeaderValidation false init
         = true
         ∨ json_content_type (Response.headers resp) = true)
      ∧ Response.json resp = Fulfilled (JsonResult.value r)
      ∧ JsonResult.headers r = Response.headers resp.
Proof.
  unfold fetchJson.
  destruct (json_init_flags client input init) as [Hfail Hcontent].
  pose proof (fetch_resolves client input (json_init client input init))
    as Hfetch.
  destruct (fetch client input (json_init client input init))
    as [requests [resp|e]]; cbn [fst snd] in *; [|done].
  destruct (Hfetch resp eq_refl) as (Hopen & request & -> & Hsent & Hok).
  rewrite Hfail in Hok. rewrite Hcontent.
  destruct (negb _ && negb (json_content_type _)) eqn:Htype; [done|].
  intros Hr.
  destruct (Response.json resp) as [json|e'] eqn:Hjson; [|discriminate Hr].
  injection Hr as <-. split; [done|]. exists request, resp.
  repeat split; try done.
  revert Htype.
  destruct (from_option JsonRequestInit.skipContentTypeHeaderValidation _ init),
    (json_content_type _); simpl; auto; done.
Qed.

Lemma fetchJson_resolves_checked_responses_witness :
  let client :=
    {| fetch_transport := fun _ _ =>
         Fulfilled {| Response.status := 200;
                      Response.headers :=
                        Headers.of_pairs [("Content-Type", "application/json")];
                      Response.json := Fulfilled (JStr "a") |};
       baseUrl := Some "http://localhost"; defaultHeaders := None;
       defaultHeadersByMethod := None; skipFailOnErrorCode := false;
       closed := false |} in
  (fetchJson client (Url "items") None).2
  = Fulfilled {| JsonResult.value := JStr "a";
                 JsonResult.headers :=
                   Headers.of_pairs [("Content-Type", "application/json")] |}
  ∧ closed client = false.
Proof.
  intros client. split; [reflexivity|].
  exact (proj1 (fetchJson_resolves_checked_responses client (Url "items") None
                  _ eq_refl)).
Defined.

Lemma has_append (h : Headers.t) key value : Headers.has (Headers.append h key value) key = true.
Proof.
  unfold Headers.has, Headers.append. rewrite lookup_insert_eq.
  by destruct (default [] (h !! Headers.key key)).
Qed.

Lemma hasHeader_applyHeader key value header copy :
  _hasHeader key (Some (_applyHeader key value header copy)) = true.
Proof.
  destruct copy, header as [h|pairs]; simpl; try apply has_append.
  rewrite existsb_app. simpl. by rewrite String.eqb_refl, orb_true_r.
Qed.

Lemma sent_headers_none url init :
  sent_headers url init None None = JsonRequestInit.headers init.
Proof. done. Qed.

(** X8.  A client without default headers asks for JSON: unless
    [skipAcceptHeader] is set, the request that [fetchJson] hands to the
    transport names an [Accept] header in its [init], or the [Request]
    given as input does. *)
Theorem fetchJson_sends_accept client input init :
  closed client = false →
  defaultHeaders client = None →
  defaultHeadersByMethod client = None →
  from_option JsonRequestInit.skipAcceptHeader false init = false →
  ∃ request,
    (fetchJson client input init).1 = [request]
    ∧ (_hasHeader "Accept" (JsonRequestInit.headers request.2)
       || _hasHeader "Accept" (CachingClient.input_headers input)) = true.
Proof.
  intros Hopen Hdefaults Hmethod Hskip.
  unfold fetchJson, fetch, _fetchInternal. rewrite Hopen, Hdefaults, Hmethod.
  rewrite sent_headers_none. cbn [fst snd]. eexists. split; [reflexivity|].
  cbn [snd JsonRequestInit.with_headers JsonRequestInit.headers].
  unfold json_init, _acceptHeaderSpecified. rewrite Hskip, Hdefaults, Hmethod.
  change (_hasHeader "Accept" None) with false.
  destruct (_hasHeader "Accept" (init ≫= JsonRequestInit.headers)
            || _hasHeader "Accept" (CachingClient.input_headers input)
            || false) eqn:Hspecified; cbn [negb andb].
  - rewrite orb_false_r in Hspecified. destruct init; exact Hspecified.
  - apply orb_true_iff. left. apply hasHeader_applyHeader.
Qed.

Lemma fetchJson_sends_accept_witness :
  let client :=
    {| fetch_transport := fun _ _ => Rejected (NetworkError "fetch failed");
       baseUrl := None; defaultHeaders := None;
       defaultHeadersByMethod := None; skipFailOnErrorCode := false;
       closed := false |} in
  ∃ request,
    (fetchJson client (Url "items") None).1 = [request]
    ∧ (_hasHeader "Accept" (JsonRequestInit.headers request.2)
       || _hasHeader "Accept" (CachingClient.input_headers (Url "items")))
      = true.
Proof.
  intros client.
  apply (fetchJson_sends_accept client (Url "items") None); reflexivity.
Defined.

End SimpleClientFacts.

(** ** The requests of the resilient client *)

Module ResilientClientFacts.
Import SimpleFetchClient SimpleClient ResilientFetchClient ResilientClient.



Lemma fetchInternal_request client url init d bm codes :
  (_fetchInternal client url init d bm codes).1
  = (url, JsonRequestInit.with_headers init (sent_headers url init d bm)).
Proof. done. Qed.

Lemma fetchInternal_passed client url init d bm codes status headers :
  settled_response (_fetchInternal client url init d bm codes).2
  = Fulfilled (status, headers) →
  status ∈ default [] codes ∨ ok status = true
  ∨ skipFailOnErrorCode client = true
  ∨ JsonRequestInit.skipFailOnErrorCode init = true.
Proof.
  unfold _fetchInternal. cbn [snd].
  destruct (fetch_transport client url _) as [resp|e]; [|done].
  destruct (fails_on_status _ _ _ _) eqn:Hfails; [done|].
  intros [= <- <-]. unfold fails_on_status in Hfails. simpl in Hfails.
  destruct (ok (Response.status resp)); [auto|].
  destruct (skipFailOnErrorCode client); [auto|].
  destruct (JsonRequestInit.skipFailOnErrorCode init); [auto|].
  simpl in Hfails. left. by case_bool_decide.
Qed.

Section call.

Variable parseFloat : string -> option Q.
Variable Date_parse : string -> option Z.
Variable totalTimeoutMillis : option Z.
Variable startTime : Z.
Variable baseUrl : option string.
Variable defaultHeaders : option HeadersInit.
Variable defaultHeadersByMethod : option (list (string * HeadersInit)).
Variable url : RequestInfo.

Let tries_of := tries parseFloat Date_parse totalTimeoutMillis startTime
                  baseUrl defaultHeaders defaultHeadersByMethod url.



(** X10.  A try of the resilient client resolves with a response only if
    its status is neither 429 nor 503 and is either in the range 200 to 299
    or excused by [init.skipFailOnErrorCode]; a first try that the
    transport answers with 429 or 503 rejects with an [HttpError] for that
    status, with or without the flag. *)
Theorem resolved_tries_passed_the_status_checks state init todo :
  Forall (λ t, ∀ status headers, settled t = Fulfilled (status, headers) →
            status ∉ retryAfterCodes
            ∧ (ok status = true
               ∨ JsonRequestInit.skipFailOnErrorCode init = true))
    (tries_of state init todo)
  ∧ (∀ t rest resp,
       try_fetch t url
         (JsonRequestInit.with_headers init
            (sent_headers url init defaultHeaders defaultHeadersByMethod))
       = Fulfilled resp →
       Response.status resp ∈ retryAfterCodes →
       settled <$> head (tries_of initial init (t :: rest))
       = Some (Rejected (HttpError_responseStatus (Response.status resp)))).
Proof.
  split.
  - assert (∀ skip, JsonRequestInit.skipFailOnErrorCode init = skip →
      Forall (λ t, ∀ status headers, settled t = Fulfilled (status, headers) →
                status ∉ retryAfterCodes ∧ (ok status = true ∨ skip = true))
        (tries_of state init todo)) as Hall; [|by apply Hall].
    intros skip. revert state init.
    induction todo as [|t rest IH]; intros state init Hskip; [constructor|].
    unfold tries_of in *. cbn [tries].
    pose proof (fetchInternal_passed
      (super (try_fetch t) baseUrl defaultHeaders defaultHeadersByMethod) url
      init (if defaultHeadersPending state then defaultHeaders else None)
      (if defaultHeadersPending state then defaultHeadersByMethod else None)
      (Some retryAfterCodes)) as Hpassed.
    pose proof (fetchInternal_request
      (super (try_fetch t) baseUrl defaultHeaders defaultHeadersByMethod) url
      init (if defaultHeadersPending state then defaultHeaders else None)
      (if defaultHeadersPending state then defaultHeadersByMethod else None)
      (Some retryAfterCodes)) as Hsent.
    destruct (_fetchInternal _ _ _ _ _ _) as [sent response].
    cbn [fst snd] in Hpassed, Hsent. rewrite Hskip in Hpassed.
    destruct (attempt _ _ _ _ state _) as [[sleep result] state'] eqn:Hattempt.
    assert (∀ status headers, result = Fulfilled (status, headers) →
              status ∉ retryAfterCodes ∧ (ok status = true ∨ skip = true))
      as Hresult.
    { intros status headers ->. revert Hattempt. unfold attempt, as_attempt.
      cbn [now nowSpent sleepAborted transport nowParsed].
      destruct (retry_delay _ _ _ _ _) as [sleep0 adapted].
      destruct sleep0, (try_sleepAborted t); try done;
        destruct (settled_response response) as [[status0 headers0]|] eqn:Hr;
        try done; case_bool_decide as Hcode; try done;
        intros [= <- <- <- <-]; (split; [done|]);
        destruct (Hpassed _ _ eq_refl) as [?|[?|[?|?]]]; auto; done. }
    constructor; [exact Hresult|].
    destruct result as [|e]; [constructor|].
    apply IH. destruct (negb _); [|done]. by rewrite Hsent.
  - intros t rest resp Hresp Hcode. unfold tries_of. cbn [tries].
    unfold _fetchInternal. cbn [initial defaultHeadersPending super fetch_transport].
    rewrite Hresp.
    unfold fails_on_status. cbn [default].
    rewrite (bool_decide_eq_true_2 _ Hcode). rewrite !andb_false_r.
    unfold attempt, as_attempt, retry_delay. simpl.
    by rewrite bool_decide_eq_true_2 by done.
Qed.

End call.


(** X11.  Whenever the retry callback sleeps on a [Retry-After] hint, the
    sleep is positive and never longer than the hint asks; with
    [timeoutTotal] positive, the deadline still ahead and
    [adaptedToRetryAfter] unset, the sleep ends at least 5000 ms before the
    deadline. *)
Theorem retry_sleep_bounds totalTimeoutMillis startTime state now nowSpent d :
  (retry_delay totalTimeoutMillis startTime state now nowSpent).1 = Some d →
  0 < d
  ∧ (∃ hinted, hinted_delay state now = Some hinted ∧ d <= hinted)
  ∧ (∀ total, totalTimeoutMillis = Some total → 0 < total →
       adaptedToRetryAfter state = false →
       nowSpent - startTime < total →
       (nowSpent - startTime) + d <= total - 5000).
Proof.
  unfold retry_delay, hinted_delay.
  destruct (retryAfter state) as [[time|]|]; [| |done].
  - simpl. destruct (0 <? time - now) eqn:Hdiff; simpl.
    + destruct totalTimeoutMillis as [total|]; simpl.
      * destruct (0 <? total) eqn:Htotal,
                 (adaptedToRetryAfter state) eqn:Hflag; simpl;
          rewrite ?Hdiff; try (intros [= <-]; split; [lia|]; split;
                                [eexists; split; [done|lia]|];
                                intros total' [= <-] ? ? ?; (done || lia)).
        destruct (0 <? total - (nowSpent - startTime)) eqn:Hleft; simpl.
        -- destruct (total - (nowSpent - startTime) - 5000 <? time - now)
             eqn:Hmargin; simpl.
           ++ destruct (5000 <? total - (nowSpent - startTime)) eqn:Hfive;
                simpl.
              ** destruct (0 <? total - (nowSpent - startTime) - 5000) eqn:E;
                   [|done].
                 intros [= <-]. split; [lia|]. split.
                 --- eexists. split; [done|lia].
                 --- intros total' [= <-] _ _ _. lia.
              ** rewrite Z.sub_diag. done.
           ++ rewrite Hdiff. intros [= <-]. split; [lia|]. split.
              ** eexists. split; [done|lia].
              ** intros total' [= <-] _ _ _. lia.
        -- rewrite Hdiff. intros [= <-]. split; [lia|]. split.
           ++ eexists. split; [done|lia].
           ++ intros total' [= <-] _ _ ?. lia.
      * rewrite Hdiff. intros [= <-]. split; [lia|]. split.
        -- eexists. split; [done|lia].
        -- intros total' [=].
    + rewrite Hdiff. done.
  - simpl. done.
Qed.

Lemma retry_sleep_bounds_witness :
  let state :=
    {| retryAfter := Some (ValidDate 9000); adaptedToRetryAfter := false;
       defaultHeadersPending := false |} in
  retry_delay (Some 10000) 0 state 1000 1000 = (Some 4000, true)
  ∧ 0 < 4000
  ∧ (1000 - 0) + 4000 <= 10000 - 5000.
Proof.
  intros state. split; [reflexivity|].
  destruct (retry_sleep_bounds (Some 10000) 0 state 1000 1000 4000 eq_refl)
    as (Hpositive & _ & Hmargin).
  split; [exact Hpositive|].
  apply (Hmargin 10000); first [reflexivity | lia].
Defined.

End ResilientClientFacts.

(** ** Cache states over time *)

Module CacheStateFacts.
Import CacheControlEval.

(** X12.  A cached entry only ages: once [_cacheState] classifies it as
    Stale it does so at every later time, with the same [mustRevalidate],
    and a [staleWhileRevalidate] or [staleIfError] window that has closed
    stays closed. *)
Theorem cacheState_only_ages (now later updated : Z)
  (own : option CacheControl) (options : CacheStateOptions) :
  now <= later →
  state (_cacheState now updated own options) = STALE →
  let before := _cacheState now updated own options in
  let after := _cacheState later updated own options in
  state after = STALE
  ∧ cs_mustRevalidate after = cs_mustRevalidate before
  ∧ (cs_staleWhileRevalidate before = Some false →
     cs_staleWhileRevalidate after = Some false)
  ∧ (cs_staleIfError before = Some false →
     cs_staleIfError after = Some false).
Proof.
  intros Hlater. unfold _cacheState.
  destruct (truthy_bool (read (noStore (effectiveCacheControl own options))));
    [done|].
  destruct (truthy_bool
              (if maxAge_not_positive _ && truthy_bool _ then Some true
               else read (noCache (effectiveCacheControl own options))));
    [done|].
  destruct (read (maxAge (effectiveCacheControl own options)))
    as [[s|[|]]|]; try done.
  - unfold maxAge_millis.
    destruct (now <=? updated + s * 1000) eqn:Hnow; [done|].
    replace (later <=? updated + s * 1000) with false by lia.
    destruct (truthy_bool (read (mustRevalidate _))); [done|].
    intros _. cbn [state cs_mustRevalidate cs_staleWhileRevalidate cs_staleIfError].
    repeat split.
    + destruct (read (staleWhileRevalidate _)) as [[w|b]|]; simpl; try done.
      destruct (negb (w =? 0)); [|done]. simpl. intros [= Hw]. f_equal. lia.
    + destruct (read (staleIfError _)) as [[w|b]|]; simpl; try done.
      intros [= Hw]. f_equal. lia.
  - unfold maxAge_millis.
    destruct (now <=? updated + 0) eqn:Hnow; [done|].
    replace (later <=? updated + 0) with false by lia.
    destruct (truthy_bool (read (mustRevalidate _))); [done|].
    intros _. cbn [state cs_mustRevalidate cs_staleWhileRevalidate cs_staleIfError].
    repeat split.
    + destruct (read (staleWhileRevalidate _)) as [[w|b]|]; simpl; try done.
      destruct (negb (w =? 0)); [|done]. simpl. intros [= Hw]. f_equal. lia.
    + destruct (read (staleIfError _)) as [[w|b]|]; simpl; try done.
      intros [= Hw]. f_equal. lia.
Qed.

Lemma set_positive_range n v :
  read (set_positive n) = Some v → ∃ s, v = Secs s ∧ 0 < s.
Proof.
  unfold set_positive. destruct n as [z|]; [|done].
  destruct (0 <? z) eqn:Hz; [|done]. intros [= <-]. exists z. split; [done|lia].
Qed.

Lemma set_true_range cond b : read (set_true cond) = Some b → b = true.
Proof. destruct cond; [|done]. by intros [= <-]. Qed.

Lemma parseExpireHeader_range Date_parse now headers result v :
  _parseExpireHeader Date_parse now headers = Some result →
  read (maxAge result) = Some v → ∃ s, v = Secs s ∧ 0 <= s.
Proof.
  unfold _parseExpireHeader. destruct (Headers.has headers "Expires"); [|done].
  destruct (Headers.get headers "Expires" ≫= Date_parse) as [expiryDate|];
    [|done].
  intros [= <-] [= <-]. eexists. split; [done|lia].
Qed.

(** X13.  Every record that [_evaluateCacheControl] reads from response
    headers has a [maxAge] that is a number of seconds and not negative,
    [staleWhileRevalidate] and [staleIfError] that are positive numbers
    of seconds, and flags that are [true], wherever the property is
    set; so an entry stored with it is Fresh at its time stamp unless it
    is disabled or must be revalidated. *)
Theorem evaluateCacheControl_ranges Date_parse now headers result :
  _evaluateCacheControl Date_parse now headers = Some result →
  (∀ v, read (maxAge result) = Some v → ∃ s, v = Secs s ∧ 0 <= s)
  ∧ (∀ v, read (staleWhileRevalidate result) = Some v →
          ∃ s, v = Secs s ∧ 0 < s)
  ∧ (∀ v, read (staleIfError result) = Some v → ∃ s, v = Secs s ∧ 0 < s)
  ∧ (∀ b, read (noCache result) = Some b ∨ read (noStore result) = Some b
          ∨ read (mustRevalidate result) = Some b → b = true)
  ∧ (∀ updated,
       let written := _cacheState updated updated (Some result) no_options in
       state written = STALE → cs_mustRevalidate written = Some true).
Proof.
  intros Hresult.
  assert (∀ v, read (maxAge result) = Some v → ∃ s, v = Secs s ∧ 0 <= s)
    as Hmax.
  { revert Hresult. unfold _evaluateCacheControl.
    destruct (negb (Headers.has headers "Cache-Control")).
    - intros Hresult v. by apply parseExpireHeader_range with (1 := Hresult).
    - intros [= <-] v. cbn [maxAge].
      destruct (directive _ "max-age") as [d|].
      + destruct (JsNumber.isFinite _); [|by simpl].
        simpl. intros [= <-]. eexists. split; [done|].
        destruct (_ <=? 0) eqn:E; lia.
      + destruct (_parseExpireHeader Date_parse now headers) as [expires|] eqn:He;
          [|by simpl].
        destruct (read (maxAge expires)) as [m|] eqn:Hm; [|by simpl].
        simpl. intros [= <-]. by apply parseExpireHeader_range with (1 := He). }
  split; [exact Hmax|].
  assert ((∀ v, read (staleWhileRevalidate result) = Some v →
                ∃ s, v = Secs s ∧ 0 < s)
          ∧ (∀ v, read (staleIfError result) = Some v →
                  ∃ s, v = Secs s ∧ 0 < s)
          ∧ (∀ b, read (noCache result) = Some b ∨ read (noStore result) = Some b
                  ∨ read (mustRevalidate result) = Some b → b = true))
    as (Hswr & Hsie & Hflags).
  { revert Hresult. unfold _evaluateCacheControl.
    destruct (negb (Headers.has headers "Cache-Control")).
    - unfold _parseExpireHeader.
      destruct (Headers.has headers "Expires"); [|done].
      destruct (Headers.get headers "Expires" ≫= Date_parse); [|done].
      intros [= <-]. simpl. repeat split; try done. by intros b [?|[?|?]].
    - intros [= <-]. cbn [staleWhileRevalidate staleIfError noCache noStore
                           mustRevalidate].
      repeat split; try apply set_positive_range.
      intros b [?|[?|?]]; by eapply set_true_range. }
  repeat split; try done.
  intros updated written. unfold written, _cacheState, effectiveCacheControl.
  cbn [no_options defaultCacheControl forcedCacheControl Object_assign
       no_directives assign_property maxAge noCache noStore mustRevalidate
       staleWhileRevalidate staleIfError].
  assert (∀ A (p : Property A), read (assign_property Absent p) = read p)
    as Hassign by (by intros A [|]).
  rewrite !Hassign.
  destruct (truthy_bool (read (noStore result))); [done|].
  destruct (truthy_bool (if _ && _ then Some true else read (noCache result)));
    [done|].
  destruct (read (maxAge result)) as [v|] eqn:Hv; [|done].
  destruct (Hmax v eq_refl) as (s & -> & Hs). unfold maxAge_millis.
  by replace (updated <=? updated + s * 1000) with true by lia.
Qed.

(** X14.  Without a [Cache-Control] header, an [Expires] date decides
    freshness to within half a second, for times in the range of [Date]
    (where the numbers of the code are exact): an entry written at time
    [now] is Fresh at every time up to 500 ms before the date, and Stale at
    every time after the write that is more than 500 ms past the date. *)
Theorem expires_decides_freshness Date_parse now headers text expiryDate :
  Headers.has headers "Cache-Control" = false →
  Headers.get headers "Expires" = Some text →
  Date_parse text = Some expiryDate →
  Z.abs expiryDate <= 8640000000000000 →
  0 <= now <= 8640000000000000 →
  ∀ later,
    0 <= later <= 8640000000000000 →
    let st := _cacheState later now
                (_evaluateCacheControl Date_parse now headers) no_options in
    (later <= expiryDate - 500 → state st = FRESH)
    ∧ (now < later → expiryDate + 500 < later → state st = STALE).
Proof.
  intros Hcontrol Hget Hparse Hdate Hnow later Hrange.
  unfold _evaluateCacheControl, _parseExpireHeader.
  rewrite Hcontrol, (CacheControlFacts.has_of_get _ _ _ Hget), Hget.
  cbn [negb mbind option_bind]. rewrite Hparse.
  unfold _cacheState, effectiveCacheControl.
  cbn [no_options defaultCacheControl forcedCacheControl Object_assign
       no_directives assign_property maxAge noCache noStore mustRevalidate
       staleWhileRevalidate staleIfError read truthy_bool default
       maxAge_not_positive maxAge_millis].
  set (age := Z.max 0 ((expiryDate - now + 500) / 1000)).
  assert (expiryDate - now - 500 < age * 1000) as Hlow.
  { unfold age. pose proof (Z.mod_pos_bound (expiryDate - now + 500) 1000).
    pose proof (Z.div_mod (expiryDate - now + 500) 1000). lia. }
  assert (age * 1000 <= Z.max 0 (expiryDate - now + 500)) as Hhigh.
  { unfold age. pose proof (Z.mod_pos_bound (expiryDate - now + 500) 1000).
    pose proof (Z.div_mod (expiryDate - now + 500) 1000). lia. }
  assert ((age <=? 0) && false = false) as -> by apply andb_false_r.
  cbn [truthy_bool default].
  split; intros Hlater.
  - by replace (later <=? now + age * 1000) with true by lia.
  - intros Hpast. by replace (later <=? now + age * 1000) with false by lia.
Qed.

Lemma cacheState_only_ages_witness :
  state (_cacheState 1001 1000 (Some max_age_zero) no_options) = STALE
  ∧ state (_cacheState 5000 1000 (Some max_age_zero) no_options) = STALE.
Proof.
  split; [reflexivity|].
  refine (proj1 (cacheState_only_ages 1001 5000 1000 (Some max_age_zero)
                   no_options _ _)); [lia|reflexivity].
Defined.

Lemma evaluateCacheControl_ranges_witness :
  let headers :=
    Headers.of_pairs [("Cache-Control", "max-age=60, stale-if-error=30")] in
  ∃ result,
    _evaluateCacheControl (fun _ => None) 0 headers = Some result
    ∧ ∀ v, read (maxAge result) = Some v → ∃ s, v = Secs s ∧ 0 <= s.
Proof.
  intros headers. eexists. split; [vm_compute; reflexivity|].
  refine (proj1 (evaluateCacheControl_ranges (fun _ => None) 0 headers _ _)).
  vm_compute. reflexivity.
Defined.

Lemma expires_decides_freshness_witness :
  let headers := Headers.of_pairs [("Expires", "Thu, 01 Jan 1970 00:00:10 GMT")] in
  let Date_parse := fun _ : string => Some 10000 in
  state (_cacheState 9500 0 (_evaluateCacheControl Date_parse 0 headers)
           no_options) = FRESH.
Proof.
  intros headers Date_parse.
  refine (proj1 (expires_decides_freshness Date_parse 0 headers
                   "Thu, 01 Jan 1970 00:00:10 GMT" 10000 _ _ _ _ _ 9500 _) _);
    first [reflexivity | lia].
Defined.

End CacheStateFacts.

(** ** The calls of the caching coordinator *)

Module CachingCallsFacts.
Import CacheControlEval CachingClient CachingCalls.

Ltac settle := cbn; split; [lia | done].

Lemma cacheState_fresh now updated own options :
  state (_cacheState now updated own options) = FRESH →
  _cacheState now updated own options = only_state FRESH.
Proof.
  unfold _cacheState.
  repeat match goal with
         | |- context [if ?b then _ else _] => destruct b
         | |- context [match ?x with _ => _ end] => destruct x
         end; done.
Qed.

Section coordinator.

Context {C : Type} `{ObjectCache C}.
Variable Date_parse : string → option Z.
Variable delegate : Delegate.
Variable now : Z.
Variable cache_settles_first : bool.

Let run (input : RequestInfo) (init : RequestInit.t) (cache : option C)
  : Run C :=
  fetchJson Date_parse delegate now cache_settles_first input init cache.

Lemma revalidate_calls input init2 cache cacheConfig cacheResult cacheState :
  ∃ call,
    calls (revalidate Date_parse delegate now input init2 cache cacheConfig
             cacheResult cacheState) = [call]
    ∧ (call_failed delegate call →
       cache_after (revalidate Date_parse delegate now input init2 cache
                      cacheConfig cacheResult cacheState) = Some cache).
Proof.
  unfold revalidate.
  destruct (truthy_text (Headers.get (CachedObject.headers cacheResult) "ETag")
            || truthy_text
                 (Headers.get (CachedObject.headers cacheResult) "Last-Modified")).
  - match goal with
    | |- context [delegate_fetch delegate input ?i] =>
        set (init3 := i);
        destruct (delegate_fetch delegate input init3) as [resp|e] eqn:Hresp
    end.
    + destruct (Response.status resp =? 304).
      * eexists. split; [reflexivity|]. done.
      * destruct (Response.json resp) as [json|e].
        -- eexists. split; [reflexivity|]. cbn.
           intros [e He]. unfold init3 in *. congruence.
        -- eexists. split; [reflexivity|]. done.
    + eexists. split; [reflexivity|]. done.
  - eexists. split; [reflexivity|]. cbn. intros [e ->]. done.
Qed.

(** X15.  One call of [fetchJson] asks the wrapped client at most once;
    when it does not ask at all the cache is left as it was. *)
Theorem fetchJson_asks_at_most_once input init cache :
  (length (calls (run input init cache)) <= 1)%nat
  ∧ (calls (run input init cache) = [] →
     cache_after (run input init cache) = cache).
Proof.
  unfold run, fetchJson.
  destruct (RequestInit.useCache init) as [cacheConfig|]; [|settle].
  destruct (bypassed cacheConfig); [settle|].
  destruct cache as [cache|]; [|settle].
  destruct (useCacheControl cacheConfig).
  - unfold fetch_cacheControl.
    destruct (cache_get cache _) as [[cached|]|e]; try settle.
    destruct (truthy_value _); [|settle].
    destruct (state _) eqn:Hstate; try settle.
    destruct (revalidate_calls input init cache cacheConfig cached
                (evaluate now cached cacheConfig)) as (call & Hcall & Hcache).
    rewrite Hcall. settle.
  - destruct (mode_is cacheConfig "fetchFirst"); [settle|].
    destruct (mode_is cacheConfig "race"); [|settle].
    unfold fetch_race.
    destruct (match _ with Rejected e => _ | Fulfilled r => _ end). settle.
Qed.

(** X16.  A call of [fetchJson] for which every request to the wrapped
    client fails leaves the cache as it was: nothing is written without
    a fetched result. *)
Theorem failed_requests_leave_cache input init cache :
  Forall (call_failed delegate) (calls (run input init cache)) →
  cache_after (run input init cache) = cache.
Proof.
  unfold run, fetchJson.
  destruct (RequestInit.useCache init) as [cacheConfig|]; [|done].
  destruct (bypassed cacheConfig); [done|].
  destruct cache as [cache|]; [|done].
  assert (∀ i n, Forall (call_failed delegate) [Call_fetchJson i n] →
            write_through Date_parse now cache cacheConfig
              (delegate_fetchJson delegate i n) = cache) as Hwrite.
  { intros i n Hfailed. apply Forall_cons in Hfailed as [[e ->] _]. done. }
  destruct (useCacheControl cacheConfig).
  - unfold fetch_cacheControl.
    destruct (cache_get cache _) as [[cached|]|e]; try done;
      try (cbn; intros Hfailed; by rewrite Hwrite).
    destruct (truthy_value _); [|cbn; intros Hfailed; by rewrite Hwrite].
    destruct (state _) eqn:Hstate; try done;
      try (cbn; intros Hfailed; by rewrite Hwrite).
    destruct (revalidate_calls input init cache cacheConfig cached
                (evaluate now cached cacheConfig)) as (call & Hcall & Hcache).
    rewrite Hcall. intros Hfailed. apply Forall_cons in Hfailed as [Hfailed _].
    by apply Hcache.
  - destruct (mode_is cacheConfig "fetchFirst");
      [cbn; intros Hfailed; by rewrite Hwrite|].
    destruct (mode_is cacheConfig "race"); [|done].
    unfold fetch_race.
    destruct (match _ with Rejected e => _ | Fulfilled r => _ end)
      as [returned abort].
    cbn. intros Hfailed. rewrite Hwrite by done. by destruct (_ && _).
Qed.


(** X18.  In cacheControl mode a stale entry with [staleIfError] (and
    without [staleWhileRevalidate]) masks a failed revalidation only when
    the failure is a response status of 500 or more or a network error:
    then the cached entry is returned; every other error, such as a 404 or
    an unexpected content type, is thrown. *)
Theorem stale_if_error_masks_server_failures input init cache cacheConfig
    cached e :
  RequestInit.useCache init = Some cacheConfig →
  bypassed cacheConfig = false →
  useCacheControl cacheConfig = true →
  cache_get cache (CachingRequestConfig.key cacheConfig)
  = Fulfilled (Some cached) →
  truthy_value (CachedObject.value cached) = true →
  state (evaluate now cached cacheConfig) = STALE →
  default false (cs_staleWhileRevalidate (evaluate now cached cacheConfig))
  = false →
  cs_staleIfError (evaluate now cached cacheConfig) = Some true →
  (∀ input' init', delegate_fetchJson delegate input' init' = Rejected e) →
  (∀ input' init', delegate_fetch delegate input' init' = Rejected e) →
  outcome (run input init (Some cache))
  = if is_server_failure e || isNetworkError e
    then Fulfilled
           (cached_result cached None
              (if CachingRequestConfig.update cacheConfig
               then no_update "Request failed, no update available."
               else NoChannel))
    else Rejected e.
Proof.
  intros Huse Hby Hmode Hget Hvalue Hstale Hswr Hsie HfetchJson Hfetch.
  unfold run, fetchJson. rewrite Huse, Hby, Hmode.
  unfold fetch_cacheControl. rewrite Hget, Hvalue, Hstale.
  unfold revalidate. rewrite Hswr, Hsie, HfetchJson.
  destruct (truthy_text _ || truthy_text _); [rewrite Hfetch|]; done.
Qed.

(** X19.  When the lookup in the cache fails, the strategies differ: in
    cacheControl mode the call fails with the error of the cache without
    asking the wrapped client; in fetchFirst mode the call settles as the
    fetch does; in race mode a fetched result is returned with its value
    and headers, whichever settles first, and the error of the cache is
    thrown only when the fetch fails too. *)
Theorem failing_lookup_by_strategy input init cache cacheConfig cacheError :
  RequestInit.useCache init = Some cacheConfig →
  bypassed cacheConfig = false →
  cache_get cache (CachingRequestConfig.key cacheConfig)
  = Rejected cacheError →
  let r := run input init (Some cache) in
  let fetched := delegate_fetchJson delegate input init in
  (useCacheControl cacheConfig = true →
   outcome r = Rejected cacheError ∧ calls r = [])
  ∧ (CachingRequestConfig.mode cacheConfig = Some "fetchFirst" →
     outcome r = and_then fetched (λ f, Fulfilled (fetched_result f NoChannel)))
  ∧ (CachingRequestConfig.mode cacheConfig = Some "race" →
     match fetched with
     | Fulfilled f =>
         ∃ result, outcome r = Fulfilled result
                   ∧ CachingResult.value result = JsonResult.value f
                   ∧ CachingResult.headers result = JsonResult.headers f
     | Rejected _ => outcome r = Rejected cacheError
     end).
Proof.
  intros Huse Hby Hget r fetched. unfold r, run, fetchJson.
  rewrite Huse, Hby. split; [|split].
  - intros ->. unfold fetch_cacheControl. by rewrite Hget.
  - intros Hmode. unfold useCacheControl, mode_is. rewrite Hmode. cbn.
    fold fetched. destruct fetched; [done|]. by rewrite Hget.
  - intros Hmode. unfold useCacheControl, mode_is. rewrite Hmode. cbn.
    unfold fetch_race, cacheResult_race. rewrite Hget. fold fetched.
    destruct fetched as [f|e]; cbn.
    + destruct cache_settles_first; cbn;
        destruct (CachingRequestConfig.update cacheConfig); cbn;
        eexists; (split; [reflexivity|done]).
    + by destruct cache_settles_first.
Qed.

(** X20.  In race mode without [update], a Fresh entry that the cache
    delivers before the fetch settles is returned as it is, with its
    state, and the fetch, the one request of the call, is aborted: when
    the abort reaches it in flight the cache is left as it was, and when
    it does not, what the fetch brings is still written through. *)
Theorem race_returns_fresh_entry input init cache cacheConfig cached :
  RequestInit.useCache init = Some cacheConfig →
  bypassed cacheConfig = false →
  CachingRequestConfig.mode cacheConfig = Some "race" →
  CachingRequestConfig.update cacheConfig = false →
  cache_settles_first = true →
  cache_get cache (CachingRequestConfig.key cacheConfig)
  = Fulfilled (Some cached) →
  state (evaluate now cached cacheConfig) = FRESH →
  let r := run input init (Some cache) in
  outcome r
  = Fulfilled
      (cached_result cached (Some (evaluate now cached cacheConfig)) NoChannel)
  ∧ calls r = [Call_fetchJson input init]
  ∧ fetch_aborted r = delegate_cancels delegate input init
  ∧ cache_after r
    = Some (if delegate_cancels delegate input init then cache
            else write_through Date_parse now cache cacheConfig
                   (delegate_fetchJson delegate input init)).
Proof.
  intros Huse Hby Hmode Hupdate Hfirst Hget Hfresh r.
  unfold r, run, fetchJson, useCacheControl, mode_is.
  rewrite Huse, Hby, Hmode. cbn.
  unfold fetch_race, cacheResult_race. rewrite Hfirst, Hget, Hupdate. cbn.
  unfold settle_raced. rewrite Hupdate.
  pose proof (cacheState_fresh _ _ _ _ Hfresh) as Hstate.
  fold (evaluate now cached cacheConfig) in Hstate. by rewrite !Hstate.
Qed.

End coordinator.

(** X21.  With the in-memory cache, in cacheControl mode: a call that
    misses the cache and fetches a truthy value stores it, and a later call
    for the same key, made while the stored entry is Fresh, returns that
    value and those headers without asking the wrapped client.  (The
    configured [deepCopy], if any, is taken to return an equal copy.) *)
Theorem fetched_value_is_served_while_fresh Date_parse delegate now later
    first1 first2 input init cacheConfig (cache : MemoryCache.t) fetched :
  RequestInit.useCache init = Some cacheConfig →
  bypassed cacheConfig = false →
  useCacheControl cacheConfig = true →
  (∀ f v, MemoryCache.deepCopy cache = Some f → f v = v) →
  MemoryCache.get cache (CachingRequestConfig.key cacheConfig) = None →
  delegate_fetchJson delegate input init = Fulfilled fetched →
  truthy_value (JsonResult.value fetched) = true →
  state (_cacheState later now
           (_evaluateCacheControl Date_parse now (JsonResult.headers fetched))
           (state_options cacheConfig)) = FRESH →
  let first :=
    fetchJson Date_parse delegate now first1 input init (Some cache) in
  let second :=
    fetchJson Date_parse delegate later first2 input init (cache_after first) in
  calls first = [Call_fetchJson input init]
  ∧ calls second = []
  ∧ ∃ result,
      outcome second = Fulfilled result
      ∧ CachingResult.value result = JsonResult.value fetched
      ∧ CachingResult.headers result = JsonResult.headers fetched.
Proof.
  intros Huse Hby Hmode Hcopy Hmiss Hfetch Hvalue Hfresh first second.
  set (key := CachingRequestConfig.key cacheConfig) in *.
  set (own := _evaluateCacheControl Date_parse now (JsonResult.headers fetched))
    in *.
  assert (key ≠ "") as Hkey.
  { intros Hempty. unfold bypassed in Hby. fold key in Hby.
    by rewrite Hempty in Hby. }
  assert (JsonResult.value fetched ≠ JUndefined) as Hdefined.
  { intros Hundefined. by rewrite Hundefined in Hvalue. }
  assert (state (_cacheState now now own (state_options cacheConfig))
          ≠ DISABLED) as Henabled.
  { intros Hdisabled.
    apply CachingClientFacts.cacheState_disabled in Hdisabled.
    apply (CachingClientFacts.cacheState_disabled later now) in Hdisabled.
    congruence. }
  destruct (MemoryCacheFacts.set_accepted cache now key
              (JsonResult.value fetched) (JsonResult.headers fetched) own
              Hkey Hdefined) as [m Hset].
  assert (first
          = {| outcome :=
                 Fulfilled
                   (fetched_result fetched
                      (if CachingRequestConfig.update cacheConfig
                       then no_update "Cache disabled" else NoChannel));
               calls := [Call_fetchJson input init];
               cache_after :=
                 Some (MemoryCache.set cache now key (JsonResult.value fetched)
                         (JsonResult.headers fetched) own).2;
               fetch_aborted := false |}) as Hfirst.
  { unfold first, fetchJson. rewrite Huse, Hby, Hmode.
    unfold fetch_cacheControl. fold key. cbn [cache_get MemoryCache.object_cache].
    rewrite Hmiss. unfold fetch_uncached. rewrite Hfetch. cbn [and_then].
    f_equal. f_equal. unfold write_through, _updateCache. fold key own.
    rewrite Hvalue. cbn [negb].
    destruct (state (_cacheState now now own (state_options cacheConfig)));
      [done| |];
      cbn [cache_set MemoryCache.object_cache]; by rewrite Hset. }
  split; [by rewrite Hfirst|].
  unfold second. rewrite Hfirst. cbn [cache_after]. rewrite Hset. cbn [snd].
  unfold fetchJson. rewrite Huse, Hby, Hmode.
  unfold fetch_cacheControl. fold key. cbn [cache_get MemoryCache.object_cache].
  unfold MemoryCache.get. cbn [MemoryCache.cache MemoryCache.deepCopy].
  rewrite MemoryCacheFacts.Map_get_set_same.
  unfold MemoryCache.copy.
  destruct (MemoryCache.deepCopy cache) as [f|] eqn:Hf.
  - cbn [CachedObject.value CachedObject.updated CachedObject.cacheControl
         CachedObject.headers CachedObject.key].
    rewrite !(Hcopy f _ eq_refl), Hvalue. unfold evaluate.
    cbn [CachedObject.value CachedObject.updated CachedObject.cacheControl].
    fold own in Hfresh. rewrite Hfresh. cbn. split; [done|]. by eexists.
  - cbn [CachedObject.value]. rewrite Hvalue. unfold evaluate.
    cbn [CachedObject.value CachedObject.updated CachedObject.cacheControl].
    fold own in Hfresh. rewrite Hfresh. cbn. split; [done|]. by eexists.
Qed.

Lemma failed_requests_leave_cache_witness :
  cache_after
    (fetchJson Scenario.no_dates (Scenario.failing (NetworkError "fetch failed"))
       1000 true (Url "")
       (Scenario.request (Scenario.config (Some "fetchFirst") false))
       (Some Scenario.memory))
  = Some Scenario.memory.
Proof.
  apply failed_requests_leave_cache.
  cbn. constructor; [|constructor]. eexists. reflexivity.
Defined.


Lemma stale_if_error_masks_server_failures_witness :
  let cache := Scenario.seeded 0 (JStr "cached") (Some Scenario.stale_if_error) in
  Scenario.returned_value
    (fetchJson Scenario.no_dates
       (Scenario.failing (HttpError_responseStatus 503)) 1000 true (Url "")
       (Scenario.request (Scenario.config None false)) (Some cache))
  = Some (JStr "cached")
  ∧ Scenario.returned_value
      (fetchJson Scenario.no_dates
         (Scenario.failing (HttpError_responseStatus 404)) 1000 true (Url "")
         (Scenario.request (Scenario.config None false)) (Some cache))
    = None.
Proof.
  intros cache. unfold Scenario.returned_value. split.
  - rewrite (stale_if_error_masks_server_failures Scenario.no_dates
               (Scenario.failing (HttpError_responseStatus 503)) 1000 true
               (Url "") (Scenario.request (Scenario.config None false)) cache
               (Scenario.config None false)
               {| CachedObject.key := "a"; CachedObject.updated := 0;
                  CachedObject.value := JStr "cached";
                  CachedObject.headers := Headers.empty;
                  CachedObject.cacheControl := Some Scenario.stale_if_error |}
               (HttpError_responseStatus 503));
      try (vm_compute; reflexivity); done.
  - rewrite (stale_if_error_masks_server_failures Scenario.no_dates
               (Scenario.failing (HttpError_responseStatus 404)) 1000 true
               (Url "") (Scenario.request (Scenario.config None false)) cache
               (Scenario.config None false)
               {| CachedObject.key := "a"; CachedObject.updated := 0;
                  CachedObject.value := JStr "cached";
                  CachedObject.headers := Headers.empty;
                  CachedObject.cacheControl := Some Scenario.stale_if_error |}
               (HttpError_responseStatus 404));
      try (vm_compute; reflexivity); done.
Defined.

Lemma failing_lookup_by_strategy_witness :
  outcome
    (fetchJson (H := broken_cache (OtherError "store")) Scenario.no_dates
       (Scenario.server (JStr "fresh")) 1000 true (Url "")
       (Scenario.request (Scenario.config None false)) (Some ()))
  = Rejected (OtherError "store").
Proof.
  refine (proj1 (proj1 (failing_lookup_by_strategy
                          (H := broken_cache (OtherError "store"))
                          Scenario.no_dates (Scenario.server (JStr "fresh"))
                          1000 true (Url "")
                          (Scenario.request (Scenario.config None false)) ()
                          (Scenario.config None false) (OtherError "store")
                          _ _ _) _));
    reflexivity.
Defined.

Lemma race_returns_fresh_entry_witness :
  let cache := Scenario.seeded 0 (JStr "cached") None in
  let r :=
    fetchJson Scenario.no_dates (Scenario.server (JStr "fresh")) 1000 true
      (Url "") (Scenario.request (Scenario.config (Some "race") false))
      (Some cache) in
  Scenario.returned_value r = Some (JStr "cached") ∧ fetch_aborted r = true.
Proof.
  intros cache r.
  destruct (race_returns_fresh_entry Scenario.no_dates
              (Scenario.server (JStr "fresh")) 1000 true (Url "")
              (Scenario.request (Scenario.config (Some "race") false)) cache
              (Scenario.config (Some "race") false)
              {| CachedObject.key := "a"; CachedObject.updated := 0;
                 CachedObject.value := JStr "cached";
                 CachedObject.headers := Headers.empty;
                 CachedObject.cacheControl := None |})
    as (Houtcome & _ & Haborted & _); try (vm_compute; reflexivity).
  split; [|exact Haborted].
  unfold Scenario.returned_value, r. by rewrite Houtcome.
Defined.

Lemma fetched_value_is_served_while_fresh_witness :
  let headers := Scenario.with_cache_control "max-age=120" in
  let first :=
    fetchJson Scenario.no_dates (Scenario.answering headers Scenario.first_body)
      1000 true (Url "") (Scenario.request (Scenario.config None false))
      (Some Scenario.memory) in
  let second :=
    fetchJson Scenario.no_dates (Scenario.answering headers Scenario.first_body)
      61000 true (Url "") (Scenario.request (Scenario.config None false))
      (cache_after first) in
  calls second = [].
Proof.
  intros headers first second.
  refine (proj1 (proj2 (fetched_value_is_served_while_fresh Scenario.no_dates
            (Scenario.answering headers Scenario.first_body) 1000 61000 true
            true (Url "") (Scenario.request (Scenario.config None false))
            (Scenario.config None false) Scenario.memory
            {| JsonResult.value := Scenario.first_body;
               JsonResult.headers := headers |} _ _ _ _ _ _ _ _)));
    try (vm_compute; reflexivity).
  intros f v Hf. discriminate Hf.
Defined.

End CachingCallsFacts.

(** ** Equal results *)

Module DeepEqualFacts.
Import CacheControlEval CachingClient JsonValues.

Lemma deepEqual_object fields1 obj2 :
  deepEqual (JObj fields1) obj2
  = match own_properties obj2 with
    | Some fields2 =>
        (length fields1 =? length fields2)%nat && same_properties fields1 fields2
    | None => false
    end.
Proof.
  cbn [deepEqual]. destruct (own_properties obj2) as [fields2|]; [|done].
  f_equal. induction fields1 as [|[name v1] rest IH]; [done|].
  cbn. destruct (property fields2 name); [|done]. by rewrite IH.
Qed.

Lemma deepEqual_array items obj2 :
  deepEqual (JArr items) obj2
  = match own_properties obj2 with
    | Some fields2 =>
        (length items =? length fields2)%nat && same_items 0 items fields2
    | None => false
    end.
Proof.
  cbn [deepEqual]. by destruct (own_properties obj2).
Qed.

Lemma property_NoDup fields name v :
  NoDup fields.*1 → (name, v) ∈ fields → property fields name = Some v.
Proof.
  unfold property. induction fields as [|[k x] fields IH]; intros Hnames Hin.
  - by apply elem_of_nil in Hin.
  - apply NoDup_cons in Hnames as [Hk Hnames]. cbn.
    destruct (String.eqb k name) eqn:E.
    + apply String.eqb_eq in E as ->.
      apply elem_of_cons in Hin as [[= <-]|Hin]; [done|].
      exfalso. apply Hk. apply list_elem_of_fmap. by exists (name, v).
    + apply String.eqb_neq in E.
      apply elem_of_cons in Hin as [[= <- <-]|Hin]; [done|]. by apply IH.
Qed.

Lemma JsValue_rect' (P : JsValue → Prop) :
  P JUndefined → P JNull → (∀ b, P (JBool b)) → (∀ n, P (JNum n)) →
  (∀ s, P (JStr s)) →
  (∀ items, Forall P items → P (JArr items)) →
  (∀ fields, Forall (λ e : string * JsValue, P e.2) fields → P (JObj fields)) →
  (∀ h, P (JHeaders h)) →
  ∀ v, P v.
Proof.
  intros Hu Hn Hb Hz Hs Ha Ho Hh.
  fix IH 1. intros [| |b|n|s|items|fields|h].
  - exact Hu.
  - exact Hn.
  - apply Hb.
  - apply Hz.
  - apply Hs.
  - apply Ha. induction items as [|x items IHitems]; constructor.
    + apply IH.
    + exact IHitems.
  - apply Ho. induction fields as [|[k x] fields IHfields]; constructor.
    + apply IH.
    + exact IHfields.
  - apply Hh.
Qed.

Lemma array_names items :
  NoDup (imap (λ i (x : JsValue), (pretty i, x)) items).*1.
Proof.
  rewrite fmap_imap.
  rewrite (imap_ext _ (λ j _, pretty j)) by done.
  rewrite (imap_seq_0 items (λ j, pretty j)).
  apply (NoDup_fmap_2 _), NoDup_seq.
Qed.

Lemma same_items_self items fields2 index :
  NoDup fields2.*1 →
  (∀ i x, items !! i = Some x → (pretty (index + i)%nat, x) ∈ fields2) →
  Forall (λ x, deepEqual x x = true) items →
  same_items index items fields2 = true.
Proof.
  intros Hnames. revert index.
  induction items as [|v1 rest IH]; intros index Hin Hitems; [done|].
  apply Forall_cons in Hitems as [Hv1 Hrest]. cbn.
  rewrite (property_NoDup fields2 (pretty index) v1 Hnames).
  - rewrite Hv1. cbn. apply IH; [|done].
    intros i x Hx. replace (S index + i)%nat with (index + S i)%nat by lia.
    by apply Hin.
  - replace index with (index + 0)%nat at 1 by lia. by apply Hin.
Qed.

(** [deepEqual] finds a value equal to itself. *)
Lemma deepEqual_refl v : distinct_names v = true → deepEqual v v = true.
Proof.
  induction v as [| |b|n|s|items IH|fields IH|h] using JsValue_rect';
    intros Hv.
  - done.
  - done.
  - cbn. by destruct b.
  - cbn. lia.
  - cbn. apply String.eqb_refl.
  - rewrite deepEqual_array. cbn [own_properties].
    rewrite length_imap, Nat.eqb_refl. cbn [andb].
    apply same_items_self.
    + apply array_names.
    + intros i x Hx. by apply (elem_of_lookup_imap_2 (λ i x, (pretty i, x))).
    + cbn [distinct_names] in Hv. rewrite forallb_forall in Hv.
      rewrite Forall_forall in IH |- *. intros x Hx. apply IH; [done|].
      apply Hv. by apply list_elem_of_In.
  - rewrite deepEqual_object. cbn [own_properties].
    rewrite Nat.eqb_refl. cbn [andb].
    cbn [distinct_names] in Hv. apply andb_true_iff in Hv as [Hnames Hv].
    apply bool_decide_eq_true_1 in Hnames.
    unfold same_properties. rewrite forallb_forall. intros [k x] Hx.
    apply list_elem_of_In in Hx. cbn [fst snd].
    rewrite (property_NoDup fields k x Hnames Hx).
    rewrite Forall_forall in IH. apply (IH (k, x) Hx).
    rewrite forallb_forall in Hv. apply (Hv (k, x)). by apply list_elem_of_In.
  - done.
Qed.

Lemma same_result_self cacheConfig fetched r :
  CachingRequestConfig.equal cacheConfig = None →
  Headers.get (JsonResult.headers fetched) "ETag"
  = Headers.get (raced_headers r) "ETag" →
  Headers.get (JsonResult.headers fetched) "Last-Modified"
  = Headers.get (raced_headers r) "Last-Modified" →
  JsonResult.value fetched = raced_value r →
  distinct_names (raced_value r) = true →
  same_result cacheConfig fetched r = true.
Proof.
  intros Hequal Hetag Hmodified Hvalue Hnames. unfold same_result.
  rewrite Hequal, Hetag, Hmodified, Hvalue. cbn [default].
  destruct (Headers.get (raced_headers r) "ETag") as [etag|].
  - destruct (JsString.truthy etag); cbn [andb]; [apply String.eqb_refl|].
    destruct (Headers.get (raced_headers r) "Last-Modified") as [modified|];
      [|by apply deepEqual_refl].
    destruct (JsString.truthy modified); cbn [andb];
      [apply String.eqb_refl|by apply deepEqual_refl].
  - destruct (Headers.get (raced_headers r) "Last-Modified") as [modified|];
      [|by apply deepEqual_refl].
    destruct (JsString.truthy modified); cbn [andb];
      [apply String.eqb_refl|by apply deepEqual_refl].
Qed.

Section coordinator.

Context {C : Type} `{ObjectCache C}.
Variable Date_parse : string → option Z.
Variable delegate : Delegate.
Variable now : Z.

(** X22.  In race mode with [update] and the default comparison, when the
    cache delivers first an entry that need not wait for the fetch (it
    is not Stale, or [staleWhileRevalidate] holds), the call returns the
    cached value and headers at once; if the fetch then brings the same
    [ETag] and [Last-Modified] headers and the same JSON value, the update
    channel is rejected with a [NoUpdateError]: a value is equal to itself
    for [deepEqual]. *)
Theorem race_update_reports_no_change input init cache cacheConfig cached
    fetched :
  RequestInit.useCache init = Some cacheConfig →
  bypassed cacheConfig = false →
  CachingRequestConfig.mode cacheConfig = Some "race" →
  CachingRequestConfig.update cacheConfig = true →
  CachingRequestConfig.equal cacheConfig = None →
  cache_get cache (CachingRequestConfig.key cacheConfig)
  = Fulfilled (Some cached) →
  (state (evaluate now cached cacheConfig) = STALE →
   cs_staleWhileRevalidate (evaluate now cached cacheConfig) = Some true) →
  delegate_fetchJson delegate input init = Fulfilled fetched →
  Headers.get (JsonResult.headers fetched) "ETag"
  = Headers.get (CachedObject.headers cached) "ETag" →
  Headers.get (JsonResult.headers fetched) "Last-Modified"
  = Headers.get (CachedObject.headers cached) "Last-Modified" →
  JsonResult.value fetched = CachedObject.value cached →
  distinct_names (CachedObject.value cached) = true →
  outcome (fetchJson Date_parse delegate now true input init (Some cache))
  = Fulfilled
      {| CachingResult.value := CachedObject.value cached;
         CachingResult.headers := CachedObject.headers cached;
         CachingResult.update :=
           Channel
             (Rejected (NoUpdateError "Cache and fetch returned equal results"));
         CachingResult.origin := FromFetch |}.
Proof.
  intros Huse Hby Hmode Hupdate Hequal Hget Hwait Hfetch Hetag Hmodified
    Hvalue Hnames.
  unfold fetchJson, useCacheControl, mode_is. rewrite Huse, Hby, Hmode. cbn.
  unfold fetch_race, cacheResult_race. rewrite Hget, Hfetch. cbn.
  unfold settle_raced. rewrite Hupdate.
  assert (same_result cacheConfig fetched
            (RacedCached cached (evaluate now cached cacheConfig)) = true)
    as Hsame by by apply same_result_self.
  destruct (evaluate now cached cacheConfig) as [st mr swr sie] eqn:Hstate.
  cbn in Hwait. destruct st; cbn.
  - by rewrite Hsame.
  - by rewrite Hsame.
  - specialize (Hwait eq_refl). subst swr. cbn. by rewrite Hsame.
Qed.

End coordinator.

Lemma race_update_reports_no_change_witness :
  let cache := Scenario.seeded 0 Scenario.first_body None in
  ∃ result,
    outcome
      (fetchJson Scenario.no_dates
         (Scenario.answering Headers.empty Scenario.first_body) 1000 true
         (Url "") (Scenario.request (Scenario.config (Some "race") true))
         (Some cache))
    = Fulfilled result
    ∧ CachingResult.value result = Scenario.first_body
    ∧ CachingResult.update result
      = Channel
          (Rejected (NoUpdateError "Cache and fetch returned equal results")).
Proof.
  intros cache. eexists. split.
  - apply (race_update_reports_no_change Scenario.no_dates
           (Scenario.answering Headers.empty Scenario.first_body) 1000 (Url "")
           (Scenario.request (Scenario.config (Some "race") true)) cache
           (Scenario.config (Some "race") true)
           {| CachedObject.key := "a"; CachedObject.updated := 0;
              CachedObject.value := Scenario.first_body;
              CachedObject.headers := Headers.empty;
              CachedObject.cacheControl := None |}
           {| JsonResult.value := Scenario.first_body;
              JsonResult.headers := Headers.empty |});
      try (vm_compute; reflexivity).
    vm_compute. discriminate.
  - split; reflexivity.
Defined.

End DeepEqualFacts.

(** ** Stored headers *)

Module CacheBaseFacts.
Import CacheBase.

Lemma Record_get_set_same record key value :
  Record_get (Record_set record key value) key = Some value.
Proof.
  induction record as [|[k v] record IH]; simpl.
  - by rewrite String.eqb_refl.
  - destruct (String.eqb k key) eqn:E; simpl; rewrite E; [done|exact IH].
Qed.

Lemma Record_get_set_other record key value name :
  name ≠ key →
  Record_get (Record_set record key value) name = Record_get record name.
Proof.
  intros Hname. induction record as [|[k v] record IH]; simpl.
  - destruct (String.eqb key name) eqn:E; [|done].
    apply String.eqb_eq in E. congruence.
  - destruct (String.eqb k key) eqn:E; simpl; [|by rewrite IH].
    apply String.eqb_eq in E as ->.
    destruct (String.eqb key name) eqn:E'; [|done].
    apply String.eqb_eq in E'. congruence.
Qed.

Lemma Record_set_names record key value name :
  name ∈ (Record_set record key value).*1 ↔ name = key ∨ name ∈ record.*1.
Proof.
  induction record as [|[k v] record IH]; simpl.
  - set_solver.
  - destruct (String.eqb k key) eqn:E; simpl.
    + apply String.eqb_eq in E as ->. set_solver.
    + rewrite !elem_of_cons, IH. naive_solver.
Qed.

Lemma Record_set_NoDup record key value :
  NoDup record.*1 → NoDup (Record_set record key value).*1.
Proof.
  induction record as [|[k v] record IH]; simpl; intros Hnames.
  - apply NoDup_singleton.
  - apply NoDup_cons in Hnames as [Hk Hnames].
    destruct (String.eqb k key) eqn:E; simpl.
    + by apply NoDup_cons.
    + apply String.eqb_neq in E. apply NoDup_cons. split; [|by apply IH].
      rewrite Record_set_names. intros [->|Hin]; done.
Qed.

Lemma Record_get_None record name :
  name ∉ record.*1 → Record_get record name = None.
Proof.
  induction record as [|[k v] record IH]; [done|]. simpl. intros Hname.
  apply not_elem_of_cons in Hname as [Hk Hname].
  destruct (String.eqb k name) eqn:E; [|by apply IH].
  apply String.eqb_eq in E. congruence.
Qed.

(** What the loop of [serializeHeaders] leaves under a name. *)
Lemma serialized_get entries record name :
  Record_get (foldl serialize_entry record entries) name
  = if String.prefix "__" name then Record_get record name
    else latest name (Record_get record name) entries.
Proof.
  revert record. induction entries as [|[k v] entries IH]; intros record.
  - simpl. by destruct (String.prefix "__" name).
  - cbn [foldl latest]. rewrite IH. unfold serialize_entry. fold (latest name).
    destruct (String.prefix "__" name) eqn:Hname.
    + destruct (String.prefix "__" k) eqn:Hk; [done|].
      rewrite Record_get_set_other; [done|]. intros ->. congruence.
    + cbn [fst snd]. destruct (String.eqb k name) eqn:E.
      * apply String.eqb_eq in E as ->. rewrite Hname.
        by rewrite Record_get_set_same.
      * apply String.eqb_neq in E.
        destruct (String.prefix "__" k); [done|].
        by rewrite Record_get_set_other.
Qed.

Lemma serialized_names entries record name :
  name ∈ (foldl serialize_entry record entries).*1 →
  name ∈ record.*1 ∨ name ∈ entries.*1.
Proof.
  revert record. induction entries as [|[k v] entries IH]; intros record;
    [by left|].
  cbn [foldl]. intros Hin. apply IH in Hin as [Hin|Hin]; [|set_solver].
  unfold serialize_entry in Hin. destruct (String.prefix "__" k); [by left|].
  apply Record_set_names in Hin. set_solver.
Qed.

Lemma serialized_NoDup entries record :
  NoDup record.*1 → NoDup (foldl serialize_entry record entries).*1.
Proof.
  revert record. induction entries as [|[k v] entries IH]; intros record Hnames;
    [done|].
  cbn [foldl]. apply IH. unfold serialize_entry.
  destruct (String.prefix "__" k); [done|]. by apply Record_set_NoDup.
Qed.

(** [new Headers(record)] for a record with names in lower case. *)
Lemma of_record_lookup record (seed : Headers.t) name :
  NoDup record.*1 →
  (∀ k, k ∈ record.*1 → Headers.key k = k ∧ seed !! k = None) →
  foldl (λ h (kv : string * string), Headers.append h kv.1 kv.2) seed record
    !! name
  = match Record_get record name with
    | Some v => Some [Headers.normalize v]
    | None => seed !! name
    end.
Proof.
  revert seed. induction record as [|[k v] record IH]; intros seed Hnames Hkeys;
    [done|].
  apply NoDup_cons in Hnames as [Hk Hnames].
  destruct (Hkeys k) as [Hlower Hfree]; [by left|].
  cbn [foldl fst snd Record_get]. rewrite IH; [|done|].
  - unfold Headers.append. rewrite Hlower, Hfree. cbn [default app].
    destruct (String.eqb k name) eqn:E.
    + apply String.eqb_eq in E as ->.
      rewrite Record_get_None by done. by rewrite lookup_insert_eq.
    + apply String.eqb_neq in E.
      destruct (Record_get record name); [done|].
      by rewrite lookup_insert_ne.
  - intros k' Hk'. destruct (Hkeys k') as [Hlower' Hfree']; [by right|].
    split; [done|]. unfold Headers.append. rewrite Hlower.
    rewrite lookup_insert_ne; [done|]. intros ->. done.
Qed.

Lemma latest_app name seen entries1 entries2 :
  latest name seen (entries1 ++ entries2)
  = latest name (latest name seen entries1) entries2.
Proof. unfold latest. by rewrite foldl_app. Qed.

Lemma latest_other name seen entries :
  name ∉ entries.*1 → latest name seen entries = seen.
Proof.
  revert seen. induction entries as [|[k v] entries IH]; intros seen Hname;
    [done|].
  apply not_elem_of_cons in Hname as [Hk Hname]. cbn.
  destruct (String.eqb k name) eqn:E; [|by apply IH].
  apply String.eqb_eq in E. cbn in Hk. congruence.
Qed.

Lemma handed_out_names kv name : name ∈ (handed_out kv).*1 → name = kv.1.
Proof.
  destruct kv as [k values]. cbn.
  destruct (String.eqb k "set-cookie").
  - rewrite <- list_fmap_compose. intros Hin.
    apply list_elem_of_fmap in Hin as (v & -> & _). done.
  - destruct values; [by intros ?%elem_of_nil|].
    cbn. by intros ->%list_elem_of_singleton.
Qed.

Lemma latest_sorted (sorted : list (string * list string)) name seen :
  name ≠ "set-cookie" →
  NoDup sorted.*1 →
  latest name seen (flat_map handed_out sorted)
  = match snd <$> find (λ kv : string * list string, String.eqb kv.1 name)
                    sorted with
    | Some (v :: vs) => Some (Headers.combine (v :: vs))
    | _ => seen
    end.
Proof.
  intros Hname. revert seen.
  induction sorted as [|[k values] sorted IH]; intros seen Hnames; [done|].
  apply NoDup_cons in Hnames as [Hk Hnames].
  cbn [flat_map find]. rewrite latest_app. cbn [fst].
  destruct (String.eqb k name) eqn:E.
  - apply String.eqb_eq in E as ->.
    rewrite (latest_other name _ (flat_map handed_out sorted)).
    + cbn [handed_out]. apply String.eqb_neq in Hname. rewrite Hname.
      destruct values; cbn; rewrite ?String.eqb_refl; done.
    + intros Hin. apply list_elem_of_fmap in Hin as ([k' v'] & -> & Hin).
      apply list_elem_of_In, in_flat_map in Hin as (kv & Hkv & Hin).
      apply list_elem_of_In in Hin.
      pose proof (handed_out_names kv k') as Hsame.
      rewrite Hsame in Hk.
      * apply Hk. apply list_elem_of_fmap. exists kv.
        split; [done|by apply list_elem_of_In].
      * apply list_elem_of_fmap. by exists (k', v').
  - apply String.eqb_neq in E.
    rewrite (latest_other name seen (handed_out (k, values))).
    + by apply IH.
    + intros Hin%handed_out_names. done.
Qed.

Lemma find_name (sorted : list (string * list string)) name values :
  NoDup sorted.*1 → (name, values) ∈ sorted →
  find (λ kv : string * list string, String.eqb kv.1 name) sorted
  = Some (name, values).
Proof.
  induction sorted as [|[k vs] sorted IH]; intros Hnames Hin.
  - by apply elem_of_nil in Hin.
  - apply NoDup_cons in Hnames as [Hk Hnames]. cbn.
    destruct (String.eqb k name) eqn:E.
    + apply String.eqb_eq in E as ->.
      apply elem_of_cons in Hin as [[= <-]|Hin]; [done|].
      exfalso. apply Hk. apply list_elem_of_fmap. by exists (name, values).
    + apply String.eqb_neq in E.
      apply elem_of_cons in Hin as [[= <- <-]|Hin]; [done|]. by apply IH.
Qed.

Lemma find_no_name (sorted : list (string * list string)) name :
  name ∉ sorted.*1 →
  find (λ kv : string * list string, String.eqb kv.1 name) sorted = None.
Proof.
  induction sorted as [|[k vs] sorted IH]; [done|]. intros Hname.
  apply not_elem_of_cons in Hname as [Hk Hname]. cbn.
  destruct (String.eqb k name) eqn:E; [|by apply IH].
  apply String.eqb_eq in E. cbn in Hk. congruence.
Qed.

Lemma sorted_entries (headers : Headers.t) :
  let sorted := merge_sort Headers.name_le (map_to_list headers) in
  Headers.entries headers = flat_map handed_out sorted
  ∧ NoDup sorted.*1
  ∧ ∀ name, snd <$> find (λ kv : string * list string, String.eqb kv.1 name)
                      sorted = headers !! name.
Proof.
  intros sorted.
  assert (sorted ≡ₚ map_to_list headers) as Hsorted
    by apply merge_sort_Permutation.
  assert (NoDup sorted.*1) as Hnames.
  { rewrite Hsorted. apply NoDup_fst_map_to_list. }
  split; [done|]. split; [done|]. intros name.
  destruct (headers !! name) as [values|] eqn:Hlookup.
  - rewrite (find_name sorted name values); [done|done|].
    rewrite Hsorted. by apply elem_of_map_to_list.
  - rewrite find_no_name; [done|].
    intros Hin. apply list_elem_of_fmap in Hin as ([k vs] & -> & Hin).
    rewrite Hsorted in Hin. apply elem_of_map_to_list in Hin. cbn in *.
    congruence.
Qed.

(** X23.  The headers of an entry that went through the store of
    [IndexedDbCache]: for every name but [set-cookie], [get] returns what
    it returned before the entry was stored, with white space at the ends
    removed, unless the name starts with two underscores: such a header is
    dropped. *)
Theorem stored_headers_keep_values (headers : Headers.t) (name : string) :
  lower_case_names headers →
  Headers.key name ≠ "set-cookie" →
  Headers.get (stored_headers headers) name
  = if String.prefix "__" (Headers.key name) then None
    else Headers.normalize <$> Headers.get headers name.
Proof.
  intros Hlower Hcookie.
  destruct (sorted_entries headers) as (Hentries & Hnames & Hfind).
  unfold stored_headers, new_Headers, Headers.of_pairs, Headers.get.
  rewrite of_record_lookup.
  - unfold serializeHeaders. rewrite serialized_get. cbn [Record_get].
    destruct (String.prefix "__" (Headers.key name)); [done|].
    rewrite Hentries, latest_sorted by done. rewrite Hfind.
    by destruct (headers !! Headers.key name) as [[|v vs]|].
  - apply serialized_NoDup, NoDup_nil_2.
  - intros k Hk. split; [|done].
    apply serialized_names in Hk as [Hk|Hk]; [by apply elem_of_nil in Hk|].
    rewrite Hentries in Hk.
    apply list_elem_of_fmap in Hk as ([k' v'] & -> & Hin).
    apply list_elem_of_In, in_flat_map in Hin as (kv & Hkv & Hin).
    apply list_elem_of_In in Hin.
    assert (k' = kv.1) as ->.
    { apply handed_out_names. apply list_elem_of_fmap. by exists (k', v'). }
    apply list_elem_of_In in Hkv.
    assert (kv ∈ map_to_list headers) as Hmap.
    { by rewrite <- (merge_sort_Permutation Headers.name_le). }
    destruct kv as [k vs]. apply elem_of_map_to_list in Hmap.
    by apply (Hlower k vs).
Qed.

Lemma stored_headers_keep_values_witness :
  let headers : Headers.t := {["etag" := ["v1"]]} in
  Headers.get (stored_headers headers) "ETag" = Some "v1".
Proof.
  intros headers.
  assert (lower_case_names headers) as Hlower.
  { intros name values Hlookup. unfold headers in Hlookup.
    apply lookup_singleton_Some in Hlookup as [<- _]. reflexivity. }
  rewrite (stored_headers_keep_values headers "ETag" Hlower);
    [reflexivity|discriminate].
Defined.

End CacheBaseFacts.

(** ** Sequences of registrations *)

Module CacheRegistrationsFacts.
Import CacheRegistry CacheRegistrations.

Section registry.

Context {Loader : Type} `{EqDecision Loader}.
Implicit Types (factoryLoaders : gmap string Loader) (loader : Loader).

Lemma registered_keeps factoryLoaders providerId loader name known :
  factoryLoaders !! name = Some known →
  registered factoryLoaders (providerId, loader) !! name = Some known.
Proof.
  intros Hknown. unfold registered, registerCacheProvider. cbn [fst snd].
  destruct (negb (starts_with_letter providerId)); [done|].
  destruct (64 <? Z.of_nat (String.length providerId)); [done|].
  destruct (has_property factoryLoaders providerId) eqn:Hhas.
  - destruct (factoryLoaders !! providerId) as [held|]; [|done].
    by destruct (decide (loader = held)).
  - rewrite lookup_insert_ne; [done|]. intros <-.
    unfold has_property in Hhas. rewrite Hknown in Hhas.
    by rewrite bool_decide_eq_true_2 in Hhas by eauto.
Qed.

Lemma registered_new factoryLoaders providerId loader name found :
  factoryLoaders !! name = None →
  registered factoryLoaders (providerId, loader) !! name = Some found →
  name = providerId ∧ found = loader ∧ accepted_id providerId = true.
Proof.
  intros Hnone. unfold registered, registerCacheProvider, accepted_id.
  cbn [fst snd].
  destruct (starts_with_letter providerId); cbn [negb andb]; [|congruence].
  destruct (64 <? Z.of_nat (String.length providerId)) eqn:Hlong;
    [congruence|].
  destruct (has_property factoryLoaders providerId).
  - destruct (factoryLoaders !! providerId) as [held|]; [|congruence].
    destruct (decide (loader = held)); congruence.
  - destruct (decide (name = providerId)) as [->|Hname].
    + rewrite lookup_insert_eq. intros [= <-]. repeat split. lia.
    + rewrite lookup_insert_ne by done. congruence.
Qed.

(** X24.  Whatever calls of [registerCacheProvider] follow, a provider that
    is registered stays registered with its loader: no call replaces or
    removes it; and a provider that the calls have registered has an
    accepted id and the loader of one of the calls. *)
Theorem registrations_are_kept factoryLoaders
    (calls : list (string * Loader)) name :
  (∀ known, factoryLoaders !! name = Some known →
            register_all factoryLoaders calls !! name = Some known)
  ∧ (∀ loader, factoryLoaders !! name = None →
               register_all factoryLoaders calls !! name = Some loader →
               accepted_id name = true ∧ (name, loader) ∈ calls).
Proof.
  revert factoryLoaders.
  induction calls as [|[providerId loader0] calls IH]; intros factoryLoaders.
  - split; [done|]. intros loader Hnone Hsome. cbn in Hsome. congruence.
  - change (register_all factoryLoaders ((providerId, loader0) :: calls))
      with (register_all (registered factoryLoaders (providerId, loader0))
              calls).
    destruct (IH (registered factoryLoaders (providerId, loader0)))
      as [Hkept Hnew].
    split.
    + intros known Hknown. by apply Hkept, registered_keeps.
    + intros loader Hnone Hsome.
      destruct (registered factoryLoaders (providerId, loader0) !! name)
        as [first|] eqn:Hfirst.
      * rewrite (Hkept first eq_refl) in Hsome. injection Hsome as <-.
        destruct (registered_new _ _ _ _ _ Hnone Hfirst) as (-> & -> & Hid).
        split; [done|]. by left.
      * destruct (Hnew loader eq_refl Hsome) as [Hid Hin].
        split; [done|]. by right.
Qed.

End registry.

End CacheRegistrationsFacts.
